(** * bourbaki.ioutils.flexiblepersist: registry, extension grammar,
      pipeline compiler and persistence facade

    A shallow embedding of [src/bourbaki/ioutils/flexiblepersist.py].
    Python values are an inductive type, exceptions are the [Err] side of a
    result monad, dictionaries are insertion-ordered association lists,
    a [ChainMap] is a pair of them, and the file system is an explicit state
    threaded through the facade operations. *)

From Stdlib Require Import List String Ascii Bool Arith NArith ZArith Lia.
From Stdlib Require Import Strings.Byte DecimalString DecimalN.
From Stdlib Require Import Sorting.Sorted Sorting.Permutation.
Import ListNotations.

Local Open Scope string_scope.
Local Open Scope list_scope.

Set Implicit Arguments.
Set Warnings "-register-all".

(* ================================================================== *)
(** ** Python values *)

(** [bytes] is a sequence of octets, [str] a sequence of code points. *)
Definition bytes := list byte.
Definition ustring := list N.

Inductive value : Type :=
| VNone
| VBool (b : bool)
| VInt (z : Z)
| VStr (s : ustring)
| VBytes (b : bytes)
| VList (l : list value).

Definition is_str (v : value) : bool :=
  match v with VStr _ => true | _ => false end.

Definition is_bytes (v : value) : bool :=
  match v with VBytes _ => true | _ => false end.

(* ================================================================== *)
(** ** Exceptions and the result monad *)

(** One constructor per [raise] site of the module, plus the exceptions of
    the interpreter and of the I/O layer that the module lets through. *)
Inductive exn : Type :=
| KeyError_already_registered (name : string)
| KeyError_unknown_serialization (name : string)
| KeyError_unknown_text_encoding (name : string)
| KeyError_subscript (key : option string)
| TypeError_must_be_callable (alias : string)
| TypeError_unhashable_dict
| TypeError_call (what : string)
| AttributeError (what : string)
| ValueError_must_be_one_of (kwarg : string) (options : list string) (key : string)
| ValueError_too_many_parts (ext : string)
| ValueError_text_encoding_required
| ValueError_closed_file
| ValueError_format
| ValueError_substring_not_found
| IndexError_format
| KeyError_format
| UnicodeEncodeError
| UnicodeDecodeError
| FileExistsError (path : string)
| FileNotFoundError (path : string)
| IsADirectoryError (path : string)
| UnsupportedOperation (what : string)
| NoTextIOMethodsAvailable
| Raised (cls : string).

(** [except ValueError] also catches the Unicode errors, its subclasses. *)
Definition is_ValueError (e : exn) : bool :=
  match e with
  | ValueError_must_be_one_of _ _ _ | ValueError_too_many_parts _
  | ValueError_text_encoding_required | ValueError_closed_file
  | ValueError_format | ValueError_substring_not_found
  | UnicodeEncodeError | UnicodeDecodeError => true
  | Raised cls => String.eqb cls "ValueError"
  | _ => false
  end.

Inductive result (A : Type) : Type :=
| Ok (a : A)
| Err (e : exn).
Arguments Ok {A} a.
Arguments Err {A} e.

Definition bind {A B : Type} (m : result A) (k : A -> result B) : result B :=
  match m with
  | Ok a => k a
  | Err e => Err e
  end.

Declare Scope py_scope.
Delimit Scope py_scope with py.
Notation "x <- m ;; k" := (bind m (fun x => k))
  (at level 61, m at next level, right associativity) : py_scope.
Notation "' p <- m ;; k" := (bind m (fun x => let p := x in k))
  (at level 61, p pattern, m at next level, right associativity) : py_scope.
Local Open Scope py_scope.

Definition is_None {A : Type} (o : option A) : bool :=
  match o with None => true | Some _ => false end.

Definition is_ok {A : Type} (m : result A) : bool :=
  match m with Ok _ => true | Err _ => false end.

(* ================================================================== *)
(** ** Strings: the few [str] methods the module uses *)

(** [s.lstrip(c)] for a one-character set. *)
Fixpoint lstrip (c : ascii) (s : string) : string :=
  match s with
  | String a s' => if Ascii.eqb a c then lstrip c s' else s
  | EmptyString => EmptyString
  end.

(** [s.split(c)]: never empty, the empty string splits into [[""]]. *)
Fixpoint str_split (c : ascii) (s : string) : list string :=
  match s with
  | EmptyString => [EmptyString]
  | String a s' =>
      if Ascii.eqb a c then EmptyString :: str_split c s'
      else match str_split c s' with
           | h :: t => String a h :: t
           | [] => [String a EmptyString]
           end
  end.

Fixpoint contains_char (c : ascii) (s : string) : bool :=
  match s with
  | EmptyString => false
  | String a s' => Ascii.eqb a c || contains_char c s'
  end.

Definition dot : ascii := "."%char.

(** ['.' + extension.lstrip('.')], the normal form every extension is stored
    and looked up in. *)
Definition dotted (extension : string) : string :=
  String dot (lstrip dot extension).

(* ================================================================== *)
(** ** Dictionaries and ChainMap *)

(** A [dict] keeps insertion order; assigning to an existing key keeps the
    key's position. *)
Definition dict (V : Type) := list (string * V).

Fixpoint dict_get {V : Type} (d : dict V) (k : string) : option V :=
  match d with
  | [] => None
  | (k', v) :: d' => if String.eqb k' k then Some v else dict_get d' k
  end.

Definition dict_mem {V : Type} (d : dict V) (k : string) : bool :=
  match dict_get d k with Some _ => true | None => false end.

Fixpoint dict_set {V : Type} (d : dict V) (k : string) (v : V) : dict V :=
  match d with
  | [] => [(k, v)]
  | (k', v') :: d' =>
      if String.eqb k' k then (k', v) :: d' else (k', v') :: dict_set d' k v
  end.

Definition dict_keys {V : Type} (d : dict V) : list string := map fst d.

(** [dict(pairs)]: later pairs overwrite earlier ones. *)
Definition dict_of_pairs {V : Type} (l : list (string * V)) : dict V :=
  fold_left (fun d kv => dict_set d (fst kv) (snd kv)) l [].

(** [ChainMap(own, parent)]: reads look in [own] first, writes go to [own]
    only. *)
Record ChainMap (V : Type) : Type := mkChainMap {
  own : dict V;
  parent : dict V
}.
Arguments mkChainMap {V} own parent.

Definition chain_get {V : Type} (m : ChainMap V) (k : string) : option V :=
  match dict_get (own m) k with
  | Some v => Some v
  | None => dict_get (parent m) k
  end.

(** [k in m] holds when any of the maps has the key. *)
Definition chain_mem {V : Type} (m : ChainMap V) (k : string) : bool :=
  dict_mem (own m) k || dict_mem (parent m) k.

Definition chain_set {V : Type} (m : ChainMap V) (k : string) (v : V) : ChainMap V :=
  mkChainMap (dict_set (own m) k v) (parent m).

(** Iteration order of a ChainMap: the parent's keys, then the keys only the
    child has. *)
Definition chain_keys {V : Type} (m : ChainMap V) : list string :=
  dict_keys (parent m)
  ++ filter (fun k => negb (dict_mem (parent m) k)) (dict_keys (own m)).

Fixpoint chain_items_of {V : Type} (m : ChainMap V) (ks : list string) : list (string * V) :=
  match ks with
  | [] => []
  | k :: ks' =>
      match chain_get m k with
      | Some v => (k, v) :: chain_items_of m ks'
      | None => chain_items_of m ks'
      end
  end.

Definition chain_items {V : Type} (m : ChainMap V) : list (string * V) :=
  chain_items_of m (chain_keys m).

(** The two kinds of mapping [_get_lambda] is called with. *)
Class Mapping (M : Type -> Type) : Type := {
  mget : forall V : Type, M V -> string -> option V;
  mkeys : forall V : Type, M V -> list string
}.
Arguments mget {M _ V} m k.
Arguments mkeys {M _ V} m.

#[export] Instance dict_Mapping : Mapping dict :=
  {| mget := @dict_get; mkeys := @dict_keys |}.
#[export] Instance ChainMap_Mapping : Mapping ChainMap :=
  {| mget := @chain_get; mkeys := @chain_keys |}.

(* ================================================================== *)
(** ** Character encodings *)

(** A codec of Python's [codecs] registry, already looked up by name: the
    strict [str.encode] and [bytes.decode] of that encoding.  [None] is the
    [UnicodeEncodeError] / [UnicodeDecodeError] case. *)
Record CharCodec : Type := mkCharCodec {
  cc_name : string;
  cc_encode : ustring -> option bytes;
  cc_decode : bytes -> option ustring
}.

Definition byte_of (n : N) : byte :=
  match Byte.of_N n with Some b => b | None => x00 end.

Fixpoint concat_options {A : Type} (l : list (option (list A))) : option (list A) :=
  match l with
  | [] => Some []
  | None :: _ => None
  | Some x :: l' =>
      match concat_options l' with
      | Some r => Some (x ++ r)
      | None => None
      end
  end.

(** UTF-8, strict: surrogates are not encodable; overlong forms, surrogates,
    values above U+10FFFF and stray bytes are not decodable. *)
Definition utf8_encode_cp (c : N) : option bytes :=
  (if c <? 0x80 then Some [byte_of c]
   else if c <? 0x800 then
     Some [byte_of (0xC0 + c / 64); byte_of (0x80 + c mod 64)]
   else if c <? 0x10000 then
     if (0xD800 <=? c) && (c <=? 0xDFFF) then None
     else Some [byte_of (0xE0 + c / 4096);
                byte_of (0x80 + (c / 64) mod 64);
                byte_of (0x80 + c mod 64)]
   else if c <? 0x110000 then
     Some [byte_of (0xF0 + c / 262144);
           byte_of (0x80 + (c / 4096) mod 64);
           byte_of (0x80 + (c / 64) mod 64);
           byte_of (0x80 + c mod 64)]
   else None)%N.

Definition utf8_encode (s : ustring) : option bytes :=
  concat_options (map utf8_encode_cp s).

Definition in_range (lo hi n : N) : bool := ((lo <=? n) && (n <=? hi))%N.

Fixpoint utf8_decode (l : bytes) : option ustring :=
  match l with
  | [] => Some []
  | b0 :: t =>
      let n0 := Byte.to_N b0 in
      if (n0 <? 0x80)%N then option_map (cons n0) (utf8_decode t)
      else if in_range 0xC2 0xDF n0 then
        match t with
        | b1 :: t1 =>
            let n1 := Byte.to_N b1 in
            if in_range 0x80 0xBF n1
            then option_map (cons ((n0 - 0xC0) * 64 + (n1 - 0x80))%N) (utf8_decode t1)
            else None
        | _ => None
        end
      else if in_range 0xE0 0xEF n0 then
        match t with
        | b1 :: b2 :: t2 =>
            let n1 := Byte.to_N b1 in
            let n2 := Byte.to_N b2 in
            let lo := (if n0 =? 0xE0 then 0xA0 else 0x80)%N in
            let hi := (if n0 =? 0xED then 0x9F else 0xBF)%N in
            if in_range lo hi n1 && in_range 0x80 0xBF n2
            then option_map
                   (cons ((n0 - 0xE0) * 4096 + (n1 - 0x80) * 64 + (n2 - 0x80))%N)
                   (utf8_decode t2)
            else None
        | _ => None
        end
      else if in_range 0xF0 0xF4 n0 then
        match t with
        | b1 :: b2 :: b3 :: t3 =>
            let n1 := Byte.to_N b1 in
            let n2 := Byte.to_N b2 in
            let n3 := Byte.to_N b3 in
            let lo := (if n0 =? 0xF0 then 0x90 else 0x80)%N in
            let hi := (if n0 =? 0xF4 then 0x8F else 0xBF)%N in
            if in_range lo hi n1 && in_range 0x80 0xBF n2 && in_range 0x80 0xBF n3
            then option_map
                   (cons ((n0 - 0xF0) * 262144 + (n1 - 0x80) * 4096
                          + (n2 - 0x80) * 64 + (n3 - 0x80))%N)
                   (utf8_decode t3)
            else None
        | _ => None
        end
      else None
  end.

Definition utf_8 : CharCodec := mkCharCodec "utf-8" utf8_encode utf8_decode.

(** ASCII, strict: seven-bit code points and octets only. *)
Definition ascii_encode (s : ustring) : option bytes :=
  if forallb (fun c => (c <? 0x80)%N) s then Some (map byte_of s) else None.

Definition ascii_decode (b : bytes) : option ustring :=
  if forallb (fun x => (Byte.to_N x <? 0x80)%N) b then Some (map Byte.to_N b) else None.

Definition ascii_codec : CharCodec := mkCharCodec "ascii" ascii_encode ascii_decode.

(** [DEFAULT_TEXT_ENCODING = "utf-8"]. *)
Definition DEFAULT_TEXT_ENCODING : CharCodec := utf_8.

(** [bytes.decode(x, enc)] and [str.encode(x, enc)] on an arbitrary object:
    the unbound methods refuse a receiver of the wrong type. *)
Definition bytes_decode (enc : CharCodec) (x : value) : result value :=
  match x with
  | VBytes b =>
      match cc_decode enc b with
      | Some s => Ok (VStr s)
      | None => Err UnicodeDecodeError
      end
  | _ => Err (TypeError_call "descriptor 'decode' requires a 'bytes' object")
  end.

Definition str_encode (enc : CharCodec) (x : value) : result value :=
  match x with
  | VStr s =>
      match cc_encode enc s with
      | Some b => Ok (VBytes b)
      | None => Err UnicodeEncodeError
      end
  | _ => Err (TypeError_call "descriptor 'encode' requires a 'str' object")
  end.

(* ================================================================== *)
(** ** File objects *)

(** The content of a binary or of a text file object. *)
Inductive buffer : Type :=
| BytesBuf (b : bytes)
| TextBuf (s : ustring).

Record stream : Type := mkStream {
  s_buf : buffer;
  s_pos : nat;
  s_readable : bool;
  s_writable : bool
}.

Definition BytesIO : stream := mkStream (BytesBuf []) 0 true true.
Definition StringIO : stream := mkStream (TextBuf []) 0 true true.

Definition overwrite {A : Type} (old : list A) (pos : nat) (d : list A) : list A :=
  firstn pos old ++ d ++ skipn (pos + List.length d) old.

(** [f.write(v)]: a binary file takes bytes, a text file takes str. *)
Definition stream_write (f : stream) (v : value) : result stream :=
  if negb (s_writable f) then Err (UnsupportedOperation "not writable")
  else
    match s_buf f, v with
    | BytesBuf old, VBytes d =>
        Ok (mkStream (BytesBuf (overwrite old (s_pos f) d))
                     (s_pos f + List.length d) (s_readable f) (s_writable f))
    | TextBuf old, VStr d =>
        Ok (mkStream (TextBuf (overwrite old (s_pos f) d))
                     (s_pos f + List.length d) (s_readable f) (s_writable f))
    | _, _ => Err (TypeError_call "write() argument has the wrong type")
    end.

Definition buffer_length (b : buffer) : nat :=
  match b with BytesBuf x => List.length x | TextBuf x => List.length x end.

(** [f.read()]: everything from the current position to the end. *)
Definition stream_read (f : stream) : result (value * stream) :=
  if negb (s_readable f) then Err (UnsupportedOperation "not readable")
  else
    let f' := mkStream (s_buf f) (Nat.max (s_pos f) (buffer_length (s_buf f)))
                       (s_readable f) (s_writable f) in
    match s_buf f with
    | BytesBuf x => Ok (VBytes (skipn (s_pos f) x), f')
    | TextBuf x => Ok (VStr (skipn (s_pos f) x), f')
    end.

Definition stream_seek0 (f : stream) : stream :=
  mkStream (s_buf f) 0 (s_readable f) (s_writable f).

(* ================================================================== *)
(** ** Callable objects *)

(** The objects that are registered, composed and called.  A function of an
    external library is named, not defined: what it does comes from the
    environment [Lib].  The wrapper classes of the module, [compose] and the
    two bound codec methods are data with a calling rule, as in Python. *)
Inductive pyobj : Type :=
| PNone
| PInt (z : Z)
| Builtin (qualname : string)
| Lambda (f : value -> result value)
| LambdaDump (f : value -> stream -> result stream)
| LambdaLoad (f : stream -> result (value * stream))
| StreamSerializer (ser : pyobj)
| StreamDeserializer (deser : pyobj)
| StrSerializer (ser : pyobj) (binary : bool)
| StrDeserializer (deser : pyobj) (binary : bool)
| BytesDecode (enc : CharCodec)
| StrEncode (enc : CharCodec)
| Compose (fs : list pyobj).

(** The libraries the module imports (json, pickle, msgpack, the compressors,
    base64): a one-argument call, a call [(obj, file)] and a call [(file)]. *)
Record Lib : Type := mkLib {
  lib_call : string -> value -> result value;
  lib_dump : string -> value -> stream -> result stream;
  lib_load : string -> stream -> result (value * stream)
}.

Definition callable (o : pyobj) : bool :=
  match o with PNone | PInt _ => false | _ => true end.

(** Truth value, for [x or y]: [None] and zero are false, functions and
    plain instances are true. *)
Definition truthy (o : pyobj) : bool :=
  match o with
  | PNone => false
  | PInt z => negb (Z.eqb z 0)
  | _ => true
  end.

Definition py_or (a b : pyobj) : pyobj := if truthy a then a else b.

(** [io.BytesIO if binary else io.StringIO]. *)
Definition io_cls (binary : bool) : stream := if binary then BytesIO else StringIO.

Definition not_callable {A : Type} : result A :=
  Err (TypeError_call "object is not callable").
Definition bad_arguments {A : Type} : result A :=
  Err (TypeError_call "wrong arguments").

Section Calls.
Variable lib : Lib.

(** [o(x)], [o(x, file)] and [o(file)].  A [compose] object passes all its
    arguments to its last function and the result up the chain. *)
Fixpoint call1 (o : pyobj) (x : value) {struct o} : result value :=
  match o with
  | PNone | PInt _ => not_callable
  | Builtin n => lib_call lib n x
  | Lambda f => f x
  | LambdaDump _ | StreamSerializer _ => bad_arguments
  | LambdaLoad _ => bad_arguments
  | StreamDeserializer _ => Err (AttributeError "read")
  | StrSerializer ser binary =>
      f <- call_dump ser x (io_cls binary) ;;
      r <- stream_read (stream_seek0 f) ;;
      Ok (fst r)
  | StrDeserializer deser binary =>
      f <- stream_write (io_cls binary) x ;;
      r <- call_load deser (stream_seek0 f) ;;
      Ok (fst r)
  | BytesDecode enc => bytes_decode enc x
  | StrEncode enc => str_encode enc x
  | Compose fs =>
      (fix go (l : list pyobj) : result value :=
         match l with
         | [] => Ok x
         | f :: r => y <- go r ;; call1 f y
         end) fs
  end
with call_dump (o : pyobj) (x : value) (file : stream) {struct o} : result stream :=
  match o with
  | PNone | PInt _ => not_callable
  | Builtin n => lib_dump lib n x file
  | LambdaDump f => f x file
  | StreamSerializer ser =>
      s <- call1 ser x ;;
      stream_write file s
  | Compose fs =>
      r <- (fix go (l : list pyobj) : result (stream * value) :=
              match l with
              | [] => bad_arguments
              | f :: r =>
                  match r with
                  | [] => s <- call_dump f x file ;; Ok (s, VNone)
                  | _ :: _ => p <- go r ;; y <- call1 f (snd p) ;; Ok (fst p, y)
                  end
              end) fs ;;
      Ok (fst r)
  | _ => bad_arguments
  end
with call_load (o : pyobj) (file : stream) {struct o} : result (value * stream) :=
  match o with
  | PNone | PInt _ => not_callable
  | Builtin n => lib_load lib n file
  | LambdaLoad f => f file
  | StreamDeserializer deser =>
      r <- stream_read file ;;
      v <- call1 deser (fst r) ;;
      Ok (v, snd r)
  | Compose fs =>
      (fix go (l : list pyobj) : result (value * stream) :=
         match l with
         | [] => bad_arguments
         | f :: r =>
             match r with
             | [] => call_load f file
             | _ :: _ => p <- go r ;; y <- call1 f (fst p) ;; Ok (y, snd p)
             end
         end) fs
  | _ => bad_arguments
  end.
End Calls.

(** [cytoolz.compose]: a single function is returned as it is. *)
Definition compose (fs : list pyobj) : pyobj :=
  match fs with
  | [f] => f
  | _ => Compose fs
  end.

(* ================================================================== *)
(** ** IORegistry *)

(** The attributes [__init__] wraps in a ChainMap over the class-level
    table of the same name with a leading underscore. *)
Inductive fn_attr : Type :=
| dumpers | loaders | file_dumpers | file_loaders
| text_dumpers | text_loaders | text_file_dumpers | text_file_loaders
| text_encoders | text_decoders | compressors | decompressors.

Inductive ext_attr : Type :=
| compression_extensions | serialization_extensions | text_extensions.

Definition fn_attr_eqb (a b : fn_attr) : bool :=
  match a, b with
  | dumpers, dumpers | loaders, loaders
  | file_dumpers, file_dumpers | file_loaders, file_loaders
  | text_dumpers, text_dumpers | text_loaders, text_loaders
  | text_file_dumpers, text_file_dumpers | text_file_loaders, text_file_loaders
  | text_encoders, text_encoders | text_decoders, text_decoders
  | compressors, compressors | decompressors, decompressors => true
  | _, _ => false
  end.

Definition ext_attr_eqb (a b : ext_attr) : bool :=
  match a, b with
  | compression_extensions, compression_extensions
  | serialization_extensions, serialization_extensions
  | text_extensions, text_extensions => true
  | _, _ => false
  end.

(** The class-level tables, shared by every instance. *)
Record IORegistryClass : Type := mkIORegistryClass {
  cls_fns : fn_attr -> dict pyobj;
  cls_exts : ext_attr -> dict string
}.

(** The class body, followed by the module-level [if dill is not None]
    block, which adds the dill entries when the import succeeded.
    [partial(msgpack.loads, raw=False)] is named as one library function. *)
Definition IORegistry_class (dill : bool) : IORegistryClass :=
  let opt (entry : string * pyobj) := if dill then [entry] else [] in
  mkIORegistryClass
    (fun a =>
       match a with
       | dumpers =>
           [("pickle", Builtin "pickle.dumps"); ("msgpack", Builtin "msgpack.dumps")]
           ++ opt ("dill", Builtin "dill.dumps")
       | loaders =>
           [("pickle", Builtin "pickle.loads");
            ("msgpack", Builtin "msgpack.loads(raw=False)")]
           ++ opt ("dill", Builtin "dill.loads")
       | file_dumpers =>
           [("pickle", Builtin "pickle.dump"); ("msgpack", Builtin "msgpack.dump")]
           ++ opt ("dill", Builtin "dill.dump")
       | file_loaders =>
           [("pickle", Builtin "pickle.load");
            ("msgpack", Builtin "msgpack.load(raw=False)")]
           ++ opt ("dill", Builtin "dill.load")
       | text_dumpers => [("json", Builtin "ujson.dumps")]
       | text_loaders => [("json", Builtin "ujson.loads")]
       | text_file_dumpers => [("json", Builtin "ujson.dump")]
       | text_file_loaders => [("json", Builtin "ujson.load")]
       | compressors =>
           [("lzma", Builtin "lzma.compress"); ("lz4", Builtin "lz4.block.compress");
            ("bz2", Builtin "bz2.compress"); ("gzip", Builtin "gzip.compress")]
       | decompressors =>
           [("lzma", Builtin "lzma.decompress"); ("lz4", Builtin "lz4.block.decompress");
            ("bz2", Builtin "bz2.decompress"); ("gzip", Builtin "gzip.decompress")]
       | text_decoders =>
           [("base16", Builtin "base64.b16decode"); ("base32", Builtin "base64.b32decode");
            ("base64", Builtin "base64.b64decode"); ("base85", Builtin "base64.b85decode")]
       | text_encoders =>
           [("base16", Builtin "base64.b16encode"); ("base32", Builtin "base64.b32encode");
            ("base64", Builtin "base64.b64encode"); ("base85", Builtin "base64.b85encode")]
       end)
    (fun a =>
       match a with
       | compression_extensions =>
           [("lzma", ".lzma"); ("lz4", ".lz4"); ("bz2", ".bz2"); ("gzip", ".gzip")]
       | serialization_extensions =>
           [("json", ".json"); ("pickle", ".pkl"); ("msgpack", ".msgpack")]
           ++ (if dill then [("dill", ".dill")] else [])
       | text_extensions =>
           [("base16", ".b16"); ("base32", ".b32"); ("base64", ".b64"); ("base85", ".b85")]
       end).

Record IORegistry : Type := mkIORegistry {
  fns : fn_attr -> ChainMap pyobj;
  exts : ext_attr -> ChainMap string;
  text_encoders_return_str : list string;
  char_encoding : CharCodec
}.

(** [IORegistry.__init__]: every table is [ChainMap({}, class table)]. *)
Definition IORegistry_init (cls : IORegistryClass) (char_encoding : CharCodec) : IORegistry :=
  mkIORegistry (fun a => mkChainMap [] (cls_fns cls a))
               (fun a => mkChainMap [] (cls_exts cls a))
               []
               char_encoding.

(** [self.<attr>[k] = v] *)
Definition set_fn (self : IORegistry) (a : fn_attr) (k : string) (v : pyobj) : IORegistry :=
  mkIORegistry (fun a' => if fn_attr_eqb a' a then chain_set (fns self a') k v else fns self a')
               (exts self) (text_encoders_return_str self) (char_encoding self).

Definition set_ext (self : IORegistry) (a : ext_attr) (k : string) (v : string) : IORegistry :=
  mkIORegistry (fns self)
               (fun a' => if ext_attr_eqb a' a then chain_set (exts self a') k v else exts self a')
               (text_encoders_return_str self) (char_encoding self).

Definition set_mem (s : list string) (k : string) : bool :=
  existsb (String.eqb k) s.

Definition set_add (s : list string) (k : string) : list string :=
  if set_mem s k then s else s ++ [k].

Definition add_return_str (self : IORegistry) (name : string) : IORegistry :=
  mkIORegistry (fns self) (exts self)
               (set_add (text_encoders_return_str self) name) (char_encoding self).

Definition bytes_to_str_default (self : IORegistry) : pyobj :=
  BytesDecode (char_encoding self).

Definition str_to_bytes_default (self : IORegistry) : pyobj :=
  StrEncode (char_encoding self).

(** The [for alias, f in [...]: if not callable(f): raise TypeError] loop. *)
Fixpoint check_callables (l : list (string * pyobj)) : result unit :=
  match l with
  | [] => Ok tt
  | (alias, f) :: l' =>
      if callable f then check_callables l' else Err (TypeError_must_be_callable alias)
  end.

Definition register_compressor (self : IORegistry) (name : string)
    (compressor decompressor : pyobj) (extension : string) : result IORegistry :=
  if chain_mem (fns self compressors) name || chain_mem (fns self decompressors) name
  then Err (KeyError_already_registered name)
  else
    _ <- check_callables [("compressor", compressor); ("decompressor", decompressor)] ;;
    let self := set_fn self compressors name compressor in
    let self := set_fn self decompressors name decompressor in
    Ok (set_ext self compression_extensions name (dotted extension)).

Definition register_text_encoder (self : IORegistry) (name : string)
    (extension : string) (encoder decoder : pyobj) (binary : bool) : result IORegistry :=
  if chain_mem (fns self text_encoders) name || chain_mem (fns self text_decoders) name
  then Err (KeyError_already_registered name)
  else
    _ <- check_callables [("compressor", encoder); ("decompressor", decoder)] ;;
    let self := if negb binary then add_return_str self name else self in
    let self := set_fn self text_encoders name encoder in
    let self := set_fn self text_decoders name decoder in
    Ok (set_ext self text_extensions name (dotted extension)).

(** The fourth entry of the checked list is [stream_serializer] again, under
    the alias of the stream deserializer, as in the source. *)
Definition register_serializer (self : IORegistry) (name : string) (extension : string)
    (serializer deserializer stream_serializer stream_deserializer : pyobj)
    (binary : bool) : result IORegistry :=
  let '(loaders_, dumpers_, file_loaders_, file_dumpers_) :=
    if binary then (loaders, dumpers, file_loaders, file_dumpers)
    else (text_loaders, text_dumpers, text_file_loaders, text_file_dumpers) in
  if chain_mem (fns self loaders_) name || chain_mem (fns self dumpers_) name
  then Err (KeyError_already_registered name)
  else
    _ <- check_callables [("serializer", serializer);
                          ("stream_serializer", stream_serializer);
                          ("deserializer", deserializer);
                          ("stream_deserializer", stream_serializer)] ;;
    let ser := py_or serializer (StrSerializer serializer binary) in
    let stream_ser := py_or stream_serializer (StreamSerializer serializer) in
    let deser := py_or deserializer (StrDeserializer deserializer binary) in
    let stream_deser := py_or stream_deserializer (StreamDeserializer deserializer) in
    let self := set_fn self dumpers_ name ser in
    let self := set_fn self loaders_ name deser in
    let self := set_fn self file_dumpers_ name stream_ser in
    let self := set_fn self file_loaders_ name stream_deser in
    Ok (set_ext self serialization_extensions name (dotted extension)).

Definition is_binary_serialization (self : IORegistry) (serialization : string) : result bool :=
  if chain_mem (fns self loaders) serialization then Ok true
  else if chain_mem (fns self text_loaders) serialization then Ok false
  else Err (KeyError_unknown_serialization serialization).

Definition is_binary_text_encoding (self : IORegistry) (encoding : string) : result bool :=
  if set_mem (text_encoders_return_str self) encoding then Ok false
  else if chain_mem (fns self text_encoders) encoding then Ok true
  else Err (KeyError_unknown_text_encoding encoding).

(** [_get_lambda(key, dict_, kwarg)] with [allow_missing=False]. *)
Definition _get_lambda {M : Type -> Type} `{Mapping M} {V : Type}
    (key : string) (dict_ : M V) (kwarg : string) : result V :=
  match mget dict_ key with
  | Some lam => Ok lam
  | None => Err (ValueError_must_be_one_of kwarg (mkeys dict_) key)
  end.

(** [_name_from_ext]: the table is reversed into extension -> name on every
    call; among names with the same extension the last one iterated wins. *)
Definition _name_from_ext (ext : string) (dict_ : ChainMap string) (kwarg : string)
  : result string :=
  let rev := dict_of_pairs (map (fun kv => (snd kv, fst kv)) (chain_items dict_)) in
  let ext := dotted ext in
  _get_lambda ext rev kwarg.

Definition serialization_from_extension (self : IORegistry) (ext : string) : result string :=
  _name_from_ext ext (exts self serialization_extensions) "serialization extension".

Definition compression_from_extension (self : IORegistry) (ext : string) : result string :=
  _name_from_ext ext (exts self compression_extensions) "compression extension".

Definition text_encoding_from_extension (self : IORegistry) (ext : string) : result string :=
  _name_from_ext ext (exts self text_extensions) "text extension".

(** A pipeline specification: serialization, compression, text encoding. *)
Definition spec : Type := string * option string * option string.

Definition pipeline_from_extension (self : IORegistry) (ext : string) : result spec :=
  let parts := str_split dot (lstrip dot ext) in
  (* ser_ext, comp_or_text_ext, comp_ext, text_ext *)
  vars <- match parts with
          | [p0] => Ok (p0, None, None, None)
          | [p0; p1] => Ok (p0, Some p1, None, None)
          | [p0; p1; p2] => Ok (p0, None, Some p1, Some p2)
          | _ => Err (ValueError_too_many_parts ext)
          end ;;
  let '(ser_ext, comp_or_text_ext, comp_ext, text_ext) := vars in
  serialization <- serialization_from_extension self ser_ext ;;
  match comp_ext, text_ext, comp_or_text_ext with
  | Some c, Some t, _ =>
      compression <- compression_from_extension self c ;;
      text_encoding <- text_encoding_from_extension self t ;;
      Ok (serialization, Some compression, Some text_encoding)
  | Some _, None, _ | None, Some _, _ =>
      (* one of the two is None: [None.lstrip] *)
      Err (AttributeError "lstrip")
  | None, None, Some ct =>
      match compression_from_extension self ct with
      | Ok compression => Ok (serialization, Some compression, None)
      | Err e =>
          if is_ValueError e then
            text_encoding <- text_encoding_from_extension self ct ;;
            Ok (serialization, None, Some text_encoding)
          else Err e
      end
  | None, None, None => Ok (serialization, None, None)
  end.

Definition DefaultIORegistry (dill : bool) : IORegistry :=
  IORegistry_init (IORegistry_class dill) DEFAULT_TEXT_ENCODING.

(* ================================================================== *)
(** ** The pipeline compiler *)

Definition get_serializer_pairs (self : IORegistry) (serialization : string)
  : result (pyobj * pyobj * pyobj * pyobj) :=
  a <- _get_lambda serialization (fns self dumpers) "serialization" ;;
  b <- _get_lambda serialization (fns self loaders) "serialization" ;;
  c <- _get_lambda serialization (fns self file_dumpers) "serialization" ;;
  d <- _get_lambda serialization (fns self file_loaders) "serialization" ;;
  Ok (a, b, c, d).

Definition get_text_serializer_pairs (self : IORegistry) (serialization : string)
  : result (pyobj * pyobj * pyobj * pyobj) :=
  a <- _get_lambda serialization (fns self text_dumpers) "serialization" ;;
  b <- _get_lambda serialization (fns self text_loaders) "serialization" ;;
  c <- _get_lambda serialization (fns self text_file_dumpers) "serialization" ;;
  d <- _get_lambda serialization (fns self text_file_loaders) "serialization" ;;
  Ok (a, b, c, d).

Definition get_compressor_pair (self : IORegistry) (compression : string)
  : result (pyobj * pyobj) :=
  a <- _get_lambda compression (fns self compressors) "compression" ;;
  b <- _get_lambda compression (fns self decompressors) "compression" ;;
  Ok (a, b).

(** An encoder not recorded as returning str is followed by a decode with
    the registry's character encoding; its decoder is preceded by the
    matching encode. *)
Definition get_text_encoder_pair (self : IORegistry) (conversion : string)
  : result (pyobj * pyobj) :=
  encoder <- _get_lambda conversion (fns self text_encoders) "conversion" ;;
  decoder <- _get_lambda conversion (fns self text_decoders) "conversion" ;;
  if negb (set_mem (text_encoders_return_str self) conversion)
  then Ok (compose [bytes_to_str_default self; encoder],
           compose [decoder; str_to_bytes_default self])
  else Ok (encoder, decoder).

(** What [compile_pipeline] returns:
    [to_str, from_str, to_file, from_file, file_mode]. *)
Record compiled : Type := mkCompiled {
  to_str : pyobj;
  from_str : pyobj;
  to_file : pyobj;
  from_file : pyobj;
  file_mode : string
}.

(** Keyword options, [None] or a dict. *)
Definition kwargs : Type := option (dict value).

(** The body of [compile_pipeline] as it runs under [lru_cache] (see
    [compile_pipeline] below): the four keyword dicts are [None] there, so
    the [partial] rebindings under [if dump_kw:] and the like are passed
    over.  The locals [to_str_fs], [from_str_fs], [to_file_fs],
    [from_file_fs] and [file_mode] are threaded through the three stages. *)
Definition compile_pipeline_body (self : IORegistry) (serialization : string)
    (compression text_encoding : option string) : result compiled :=
  (* obj -> Union[bytes, str] *)
  binary <- is_binary_serialization self serialization ;;
  let getter := if binary then get_serializer_pairs else get_text_serializer_pairs in
  let file_mode := if binary then "b" else "" in
  quad <- getter self serialization ;;
  let '(to_str, from_str, to_file, from_file) := quad in
  let to_str_fs := [to_str] in
  let from_str_fs := [from_str] in
  let to_file_fs := Some [to_file] in
  let from_file_fs := Some [from_file] in
  (* bytes -> bytes *)
  st <- match compression with
        | Some compression =>
            pair <- get_compressor_pair self compression ;;
            let '(compress, decompress) := pair in
            let bridge_to := if negb binary then [str_to_bytes_default self] else [] in
            let bridge_from := if negb binary then [bytes_to_str_default self] else [] in
            Ok (to_str_fs ++ bridge_to ++ [compress],
                from_str_fs ++ bridge_from ++ [decompress],
                @None (list pyobj), @None (list pyobj), "b")
        | None => Ok (to_str_fs, from_str_fs, to_file_fs, from_file_fs, file_mode)
        end ;;
  let '(to_str_fs, from_str_fs, to_file_fs, from_file_fs, file_mode) := st in
  (* bytes -> str *)
  st <- match text_encoding with
        | Some text_encoding =>
            let bridge_to :=
              if negb binary && is_None compression
              then [str_to_bytes_default self] else [] in
            let bridge_from :=
              if negb binary && is_None compression
              then [bytes_to_str_default self] else [] in
            pair <- get_text_encoder_pair self text_encoding ;;
            let '(encode, decode) := pair in
            Ok (to_str_fs ++ bridge_to ++ [encode],
                from_str_fs ++ bridge_from ++ [decode],
                @None (list pyobj), @None (list pyobj), "")
        | None => Ok (to_str_fs, from_str_fs, to_file_fs, from_file_fs, file_mode)
        end ;;
  let '(to_str_fs, from_str_fs, to_file_fs, from_file_fs, file_mode) := st in
  (* reverse the composition *)
  let to_str := compose (rev to_str_fs) in
  let from_str := compose from_str_fs in
  match to_file_fs, from_file_fs with
  | Some (f :: fs), Some from_fs =>
      Ok (mkCompiled to_str from_str (compose (rev (f :: fs))) (compose from_fs) file_mode)
  | _, _ =>
      Ok (mkCompiled to_str from_str (StreamSerializer to_str) (StreamDeserializer from_str)
                     file_mode)
  end.

(** The memo table [lru_cache(None)] keeps for one registry object. *)
Definition pipeline_cache : Type := list (spec * compiled).

Definition spec_eqb (a b : spec) : bool :=
  let '(s1, c1, t1) := a in
  let '(s2, c2, t2) := b in
  let oeqb (x y : option string) :=
    match x, y with
    | Some u, Some v => String.eqb u v
    | None, None => true
    | _, _ => false
    end in
  String.eqb s1 s2 && oeqb c1 c2 && oeqb t1 t2.

Fixpoint cache_get (cache : pipeline_cache) (key : spec) : option compiled :=
  match cache with
  | [] => None
  | (k, v) :: cache' => if spec_eqb k key then Some v else cache_get cache' key
  end.

(** [compile_pipeline] under [@lru_cache(None)], for the calls
    [FlexiblePersist.__init__] makes: every argument is passed by keyword,
    in one order, and the text encoding is passed when the pipeline is
    compiled for one and left out otherwise.  [lru_cache] makes its key of
    the call as it is written, so a call written another way (the
    serialization passed by position, say, or [text_encoding=None] written
    out) has an entry of its own, which the calls modelled here neither see
    nor change; the table below is that of the calls of the facade, for one
    registry.  The key is made of the arguments and hashed before anything
    else: a dict among them is not hashable, so the call raises [TypeError]
    and the body does not run.  A hit returns the stored result; a miss runs
    the body and stores its result only when it returns; an exception passes
    through and nothing is stored. *)
Definition compile_pipeline (self : IORegistry) (cache : pipeline_cache)
    (serialization : string) (compression text_encoding : option string)
    (dump_kw load_kw compress_kw decompress_kw : kwargs)
  : result compiled * pipeline_cache :=
  match dump_kw, load_kw, compress_kw, decompress_kw with
  | None, None, None, None =>
      let key := (serialization, compression, text_encoding) in
      match cache_get cache key with
      | Some p => (Ok p, cache)
      | None =>
          match compile_pipeline_body self serialization compression text_encoding with
          | Ok p => (Ok p, (key, p) :: cache)
          | Err e => (Err e, cache)
          end
      end
  | _, _, _, _ => (Err TypeError_unhashable_dict, cache)
  end.

(* ================================================================== *)
(** ** The file system and open files *)

(** A path is kept as [os.path.join(dir, name)] was given it: a directory
    and the name of an entry in it ([""] is the working directory).  A name
    with a separator in it addresses a nested directory, which the model
    does not have: opening it fails. *)
Inductive path : Type := Path (dir : string) (name : string).

Record handle : Type := mkHandle {
  h_path : path;
  h_stream : stream;
  h_closed : bool
}.

(** The state of the outside world: the files of each directory, every file
    object opened so far (a file object is identified by its index), the
    order [os.listdir] reports names in (any permutation, chosen by the
    file system), and the locale's encoding for text files.  Within an
    existing directory any file can be created, and a directory that does
    not exist can be made. *)
Record world : Type := mkWorld {
  w_dirs : dict (dict buffer);
  w_handles : list handle;
  w_listorder : list string -> list string;
  w_locale : CharCodec
}.

Definition IO (A : Type) : Type := world -> result A * world.

Definition ret {A : Type} (a : A) : IO A := fun w => (Ok a, w).
Definition raise {A : Type} (e : exn) : IO A := fun w => (Err e, w).
Definition lift {A : Type} (m : result A) : IO A := fun w => (m, w).

Definition bindIO {A B : Type} (m : IO A) (k : A -> IO B) : IO B :=
  fun w =>
    match m w with
    | (Ok a, w') => k a w'
    | (Err e, w') => (Err e, w')
    end.

Notation "x <~ m ;; k" := (bindIO m (fun x => k))
  (at level 61, m at next level, right associativity) : py_scope.

(** A [for] loop over a list: an exception ends it. *)
Fixpoint for_each {A : Type} (l : list A) (body : A -> IO unit) : IO unit :=
  match l with
  | [] => ret tt
  | x :: l' => _ <~ body x ;; for_each l' body
  end.

Definition set_dirs (w : world) (d : dict (dict buffer)) : world :=
  mkWorld d (w_handles w) (w_listorder w) (w_locale w).

Definition set_handles (w : world) (hs : list handle) : world :=
  mkWorld (w_dirs w) hs (w_listorder w) (w_locale w).

Fixpoint list_update {A : Type} (l : list A) (n : nat) (x : A) : list A :=
  match l, n with
  | [], _ => []
  | _ :: l', O => x :: l'
  | y :: l', S n' => y :: list_update l' n' x
  end.

Definition slash : ascii := "/"%char.

Definition empty_buffer (binary : bool) : buffer :=
  if binary then BytesBuf [] else TextBuf [].

(** The content of a file as a file object of the given kind sees it; a
    kind other than the one it was written in goes through the locale's
    encoding. *)
Definition view_buffer (locale : CharCodec) (binary : bool) (b : buffer) : result buffer :=
  match b, binary with
  | BytesBuf _, true | TextBuf _, false => Ok b
  | BytesBuf x, false =>
      match cc_decode locale x with
      | Some s => Ok (TextBuf s)
      | None => Err UnicodeDecodeError
      end
  | TextBuf s, true =>
      match cc_encode locale s with
      | Some x => Ok (BytesBuf x)
      | None => Err UnicodeEncodeError
      end
  end.

Definition path_string (p : path) : string :=
  let 'Path d n := p in d ++ "/" ++ n.

(** [open(p, 'w' + mode)] creates or truncates the file at once;
    [open(p, 'r' + mode)] needs it to exist. *)
Definition io_open (p : path) (writing : bool) (binary : bool) : IO nat :=
  fun w =>
    let 'Path d n := p in
    match dict_get (w_dirs w) d with
    | None => (Err (FileNotFoundError (path_string p)), w)
    | Some files =>
        if contains_char slash n then (Err (FileNotFoundError (path_string p)), w)
        else if String.eqb n "" then (Err (IsADirectoryError (path_string p)), w)
        else if writing then
          let files' := dict_set files n (empty_buffer binary) in
          let h := mkHandle p (mkStream (empty_buffer binary) 0 false true) false in
          (Ok (List.length (w_handles w)),
           mkWorld (dict_set (w_dirs w) d files') (w_handles w ++ [h])
                   (w_listorder w) (w_locale w))
        else
          match dict_get files n with
          | None => (Err (FileNotFoundError (path_string p)), w)
          | Some content =>
              match view_buffer (w_locale w) binary content with
              | Err e => (Err e, w)
              | Ok b =>
                  let h := mkHandle p (mkStream b 0 true false) false in
                  (Ok (List.length (w_handles w)), set_handles w (w_handles w ++ [h]))
              end
          end
    end.

(** [f.close()]: what was written reaches the file; closing again does
    nothing. *)
Definition io_close (h : nat) : IO unit :=
  fun w =>
    match nth_error (w_handles w) h with
    | None => (Err (Raised "NameError"), w)
    | Some hd =>
        if h_closed hd then (Ok tt, w)
        else
          let hs := list_update (w_handles w) h (mkHandle (h_path hd) (h_stream hd) true) in
          let 'Path d n := h_path hd in
          let dirs :=
            if s_writable (h_stream hd) then
              match dict_get (w_dirs w) d with
              | Some files => dict_set (w_dirs w) d (dict_set files n (s_buf (h_stream hd)))
              | None => w_dirs w
              end
            else w_dirs w in
          (Ok tt, mkWorld dirs hs (w_listorder w) (w_locale w))
    end.

(** Run an operation on the stream of an open file object: it moves the
    position and changes the content, not what the file was opened for. *)
Definition with_stream {A : Type} (h : nat) (op : stream -> result (A * stream)) : IO A :=
  fun w =>
    match nth_error (w_handles w) h with
    | None => (Err (Raised "NameError"), w)
    | Some hd =>
        if h_closed hd then (Err ValueError_closed_file, w)
        else
          match op (h_stream hd) with
          | Ok (a, s') =>
              let s'' := mkStream (s_buf s') (s_pos s')
                                  (s_readable (h_stream hd)) (s_writable (h_stream hd)) in
              (Ok a, set_handles w (list_update (w_handles w) h
                                      (mkHandle (h_path hd) s'' false)))
          | Err e => (Err e, w)
          end
    end.

Definition io_write (h : nat) (v : value) : IO unit :=
  with_stream h (fun s => s' <- stream_write s v ;; Ok (tt, s')).

(** [with open(p, mode) as f: body]: the file is closed when the block is
    left, by its end, by [return] or by an exception. *)
Definition with_open {A : Type} (p : path) (writing binary : bool) (body : nat -> IO A) : IO A :=
  fun w =>
    match io_open p writing binary w with
    | (Err e, w1) => (Err e, w1)
    | (Ok h, w1) =>
        let '(r, w2) := body h w1 in
        let '(_, w3) := io_close h w2 in
        (r, w3)
    end.

(** Whether a file object is open, closed, or does not exist. *)
Definition is_closed (w : world) (h : nat) : option bool :=
  option_map h_closed (nth_error (w_handles w) h).

(** [os.listdir]. *)
Definition os_listdir (dir_ : string) : IO (list string) :=
  fun w =>
    match dict_get (w_dirs w) dir_ with
    | Some files => (Ok (w_listorder w (dict_keys files)), w)
    | None => (Err (FileNotFoundError dir_), w)
    end.

(** The last separator of a path: the text before it and the text after
    it, if the path has a separator. *)
Fixpoint rsplit_slash (s : string) : option (string * string) :=
  match s with
  | EmptyString => None
  | String a s' =>
      match rsplit_slash s' with
      | Some (h, t) => Some (String a h, t)
      | None => if Ascii.eqb a slash then Some (EmptyString, s') else None
      end
  end.

(** [os.path.basename] *)
Definition basename (p : string) : string :=
  match rsplit_slash p with
  | Some (_, t) => t
  | None => p
  end.

(** The directory a path names an entry of, as the world knows it: the
    working directory [""] for a path without separator, the root for a
    separator at the start. *)
Definition dirname (p : string) : string :=
  match rsplit_slash p with
  | Some (EmptyString, _) => "/"
  | Some (d, _) => d
  | None => EmptyString
  end.

(** [os.path.isdir] and [os.path.exists].  The empty path names nothing;
    ["."] and [".."] are directories wherever the process is; any other
    name is taken as it is written, so that two names of one directory are
    two directories of the model. *)
Definition os_path_isdir (w : world) (p : string) : bool :=
  negb (String.eqb p "")
  && (String.eqb p "." || String.eqb p ".." || dict_mem (w_dirs w) p).

Definition os_path_isfile (w : world) (p : string) : bool :=
  match dict_get (w_dirs w) (dirname p) with
  | Some files => negb (String.eqb (basename p) "") && dict_mem files (basename p)
  | None => false
  end.

Definition os_path_exists (w : world) (p : string) : bool :=
  os_path_isdir w p || os_path_isfile w p.

(** [os.mkdir]: the path must be new and the directory it is to be made in
    must exist. *)
Definition os_mkdir (p : string) : IO unit :=
  fun w =>
    if String.eqb p "" then (Err (FileNotFoundError p), w)
    else if os_path_exists w p then (Err (FileExistsError p), w)
    else if (if String.eqb (dirname p) "" then dict_mem (w_dirs w) ""
             else os_path_isdir w (dirname p))
    then (Ok tt, set_dirs w (dict_set (w_dirs w) p []))
    else (Err (FileNotFoundError p), w).

(** [ensure_dir]: a file of that name is in the way; a missing directory is
    made, which fails for the empty name and under a missing parent. *)
Definition ensure_dir (dir_ : string) : IO unit :=
  fun w =>
    if os_path_exists w dir_ then
      if negb (os_path_isdir w dir_) then (Err (FileExistsError dir_), w)
      else (Ok tt, w)
    else os_mkdir dir_ w.

(** [os.path.splitext] looks at what follows the last separator of the
    path, and finds an extension there when it has a dot after its first
    character that is not a dot. *)
Definition _maybe_add_extension (p : path) (extension : string) : path :=
  let 'Path d n := p in
  if contains_char dot (lstrip dot (basename n)) then p
  else Path d (n ++ extension)%string.

(* ================================================================== *)
(** ** Text helpers of the facade *)

Definition lbrace : ascii := "{"%char.
Definition rbrace : ascii := "}"%char.

(** [template.format(k, ...)] for templates whose replacement fields are all
    the automatic [{}]; doubled braces are literal braces.  Other kinds of
    field are not modelled and raise.  Returns the text and the arguments
    not yet used. *)
Fixpoint str_format (t : string) (args : list string) : result (string * list string) :=
  match t with
  | EmptyString => Ok (EmptyString, args)
  | String a t' =>
      if Ascii.eqb a lbrace then
        match t' with
        | String b t'' =>
            if Ascii.eqb b lbrace then
              r <- str_format t'' args ;; Ok (String lbrace (fst r), snd r)
            else if Ascii.eqb b rbrace then
              match args with
              | x :: args' => r <- str_format t'' args' ;; Ok ((x ++ fst r)%string, snd r)
              | [] => Err IndexError_format
              end
            else Err (Raised "str.format")
        | EmptyString => Err ValueError_format
        end
      else if Ascii.eqb a rbrace then
        match t' with
        | String b t'' =>
            if Ascii.eqb b rbrace then
              r <- str_format t'' args ;; Ok (String rbrace (fst r), snd r)
            else Err ValueError_format
        | EmptyString => Err ValueError_format
        end
      else r <- str_format t' args ;; Ok (String a (fst r), snd r)
  end.

Definition path_format (template : path) (k : string) : result path :=
  let 'Path d n := template in
  r1 <- str_format d [k] ;;
  r2 <- str_format n (snd r1) ;;
  Ok (Path (fst r1) (fst r2)).

Fixpoint str_repeat (c : ascii) (n : nat) : string :=
  match n with
  | O => EmptyString
  | S n' => String c (str_repeat c n')
  end.

(** [s.rjust(width, fill)] *)
Definition rjust (width : nat) (fill : ascii) (s : string) : string :=
  str_repeat fill (width - String.length s) ++ s.

(** [str(i)] for an index, and [int(k)] for a string of decimal digits. *)
Definition str_of_N (n : N) : string :=
  NilEmpty.string_of_uint (N.to_uint n).

Definition int_of_str (k : string) : result N :=
  match k, NilEmpty.uint_of_string k with
  | String _ _, Some d => Ok (N.of_uint d)
  | _, _ => Err (Raised "ValueError")
  end.

Fixpoint strip_prefix (p s : string) : option string :=
  match p, s with
  | EmptyString, _ => Some s
  | String a p', String b s' => if Ascii.eqb a b then strip_prefix p' s' else None
  | String _ _, EmptyString => None
  end.

Fixpoint strip_suffix (suf s : string) : option string :=
  if String.eqb s suf then Some EmptyString
  else match s with
       | EmptyString => None
       | String a s' => option_map (String a) (strip_suffix suf s')
       end.

(** [re.compile(re.escape(prefix) + "(?P<k>pattern)" + re.escape(ext)).fullmatch(name)]:
    the name is the prefix, a text the pattern accepts as a whole, and the
    extension; the result is the group [k]. *)
Definition fullmatch (prefix : string) (pattern : string -> bool) (ext : string)
    (name : string) : option string :=
  match strip_prefix prefix name with
  | None => None
  | Some rest =>
      match strip_suffix ext rest with
      | Some k => if pattern k then Some k else None
      | None => None
      end
  end.

(** The pattern [[0-9]+]. *)
Definition digits_pattern (k : string) : bool :=
  match k, NilEmpty.uint_of_string k with
  | String _ _, Some _ => true
  | _, _ => false
  end.

(** The pattern [.*]: any text without a newline. *)
Definition any_pattern (k : string) : bool := negb (contains_char "010"%char k).

(** Insertion of [x] after the elements whose key is not greater: [sorted]
    is stable. *)
Fixpoint insert_by_key {A : Type} (x : N * A) (l : list (N * A)) : list (N * A) :=
  match l with
  | [] => [x]
  | y :: l' => if (fst y <=? fst x)%N then y :: insert_by_key x l' else x :: y :: l'
  end.

(** [sorted(fs, key=itemgetter(0))] *)
Definition sorted_by_key {A : Type} (l : list (N * A)) : list (N * A) :=
  fold_left (fun acc x => insert_by_key x acc) l [].

Fixpoint enumerate_from {A : Type} (i : N) (l : list A) : list (N * A) :=
  match l with
  | [] => []
  | x :: l' => (i, x) :: enumerate_from (N.succ i) l'
  end.

Definition enumerate {A : Type} (l : list A) : list (N * A) := enumerate_from 0%N l.

(* ================================================================== *)
(** ** FlexiblePersist *)

(** The facade keeps the registry it was built with, the specification, the
    mode and the callables the compiler returned.  [to_line] and
    [from_line] are [PNone] when the facade has no text interface. *)
Record FlexiblePersist : Type := mkFlexiblePersist {
  _io_registry : IORegistry;
  _serialization : string;
  _compression : option string;
  _text_encoding : option string;
  _mode : string;
  _always_use_text_encoding : bool;
  _dump : pyobj;
  _load : pyobj;
  dumps : pyobj;
  loads : pyobj;
  to_line : pyobj;
  from_line : pyobj;
  _text_io : bool
}.

Definition is_not_None (o : pyobj) : bool :=
  match o with PNone => false | _ => true end.

(** [FlexiblePersist.__init__] *)
Definition FlexiblePersist_init (serialization : string)
    (compression text_encoding : option string)
    (dump_kw load_kw compress_kw decompress_kw : kwargs)
    (always_use_text_encoding : bool)
    (_io_registry : IORegistry) (cache : pipeline_cache)
  : result FlexiblePersist * pipeline_cache :=
  let compile cache text_encoding :=
    compile_pipeline _io_registry cache serialization compression text_encoding
                     dump_kw load_kw compress_kw decompress_kw in
  let build (p : compiled) (to_line from_line : pyobj) :=
    mkFlexiblePersist _io_registry serialization compression text_encoding
                      (file_mode p) always_use_text_encoding
                      (to_file p) (from_file p) (to_str p) (from_str p)
                      to_line from_line
                      (is_not_None to_line || is_not_None from_line) in
  if always_use_text_encoding then
    match text_encoding with
    | None => (Err ValueError_text_encoding_required, cache)
    | Some _ =>
        match compile cache text_encoding with
        | (Ok p, cache1) => (Ok (build p (to_str p) (from_str p)), cache1)
        | (Err e, cache1) => (Err e, cache1)
        end
    end
  else
    match compile cache None with
    | (Err e, cache1) => (Err e, cache1)
    | (Ok p, cache1) =>
        match text_encoding with
        | None =>
            if negb (String.eqb (file_mode p) "")
            then (Ok (build p PNone PNone), cache1)
            else (Ok (build p (to_str p) (from_str p)), cache1)
        | Some _ =>
            match compile cache1 text_encoding with
            | (Ok q, cache2) => (Ok (build p (to_str q) (from_str q)), cache2)
            | (Err e, cache2) => (Err e, cache2)
            end
        end
    end.

(** [FlexiblePersist.from_extension] *)
Definition from_extension (ext : string)
    (dump_kw load_kw compress_kw decompress_kw : kwargs)
    (_io_registry : IORegistry) (cache : pipeline_cache)
  : result FlexiblePersist * pipeline_cache :=
  match pipeline_from_extension _io_registry ext with
  | Err e => (Err e, cache)
  | Ok (serialization, compression, text_encoding) =>
      FlexiblePersist_init serialization compression text_encoding
                           dump_kw load_kw compress_kw decompress_kw
                           (negb (is_None text_encoding)) _io_registry cache
  end.

(** The [text] property. *)
Definition text (self : FlexiblePersist) : result FlexiblePersist :=
  if _text_io self then Ok self else Err NoTextIOMethodsAvailable.

(** [m[k]] on a ChainMap. *)
Definition chain_subscript {V : Type} (m : ChainMap V) (k : option string) : result V :=
  match k with
  | Some key =>
      match chain_get m key with
      | Some v => Ok v
      | None => Err (KeyError_subscript k)
      end
  | None => Err (KeyError_subscript None)
  end.

Definition _get_extension (self : FlexiblePersist) (text : bool) : result string :=
  let reg := _io_registry self in
  ext <- chain_subscript (exts reg serialization_extensions) (Some (_serialization self)) ;;
  ext <- match _compression self with
         | Some c =>
             e <- chain_subscript (exts reg compression_extensions) (Some c) ;;
             Ok (ext ++ e)%string
         | None => Ok ext
         end ;;
  if text || _always_use_text_encoding self then
    e <- chain_subscript (exts reg text_extensions) (_text_encoding self) ;;
    Ok (ext ++ e)%string
  else Ok ext.

(** The [extension] and [text_extension] properties. *)
Definition extension (self : FlexiblePersist) : result string := _get_extension self false.
Definition text_extension (self : FlexiblePersist) : result string := _get_extension self true.

(** The [file] argument: a path ([PATH_TYPES]) or an open file object. *)
Inductive target : Type :=
| TPath (p : path)
| TFile (f : nat).

Definition binary_mode (self : FlexiblePersist) : bool := String.eqb (_mode self) "b".

Section Facade.
Variable lib : Lib.

Definition run_dump (self : FlexiblePersist) (obj : value) (f : nat) : IO unit :=
  with_stream f (fun s => s' <- call_dump lib (_dump self) obj s ;; Ok (tt, s')).

Definition run_load (self : FlexiblePersist) (f : nat) : IO value :=
  with_stream f (fun s => call_load lib (_load self) s).

Definition auto_path (p : path) (auto_extension : bool) (ext : result string) : IO path :=
  if auto_extension then e <~ lift ext ;; ret (_maybe_add_extension p e) else ret p.

Definition dump (self : FlexiblePersist) (obj : value) (file : target)
    (auto_extension : bool) : IO unit :=
  match file with
  | TPath p =>
      file <~ auto_path p auto_extension (extension self) ;;
      with_open file true (binary_mode self) (fun f => run_dump self obj f)
  | TFile f => run_dump self obj f
  end.

Definition load (self : FlexiblePersist) (file : target) (auto_extension : bool) : IO value :=
  match file with
  | TPath p =>
      file <~ auto_path p auto_extension (extension self) ;;
      with_open file false (binary_mode self) (fun f => run_load self f)
  | TFile f => run_load self f
  end.

Definition _dump_stream_to_dir (self : FlexiblePersist) (items : list (string * value))
    (dir_ prefix : string) : IO unit :=
  _ <~ ensure_dir dir_ ;;
  ext <~ lift (extension self) ;;
  let template := Path dir_ (prefix ++ "{}" ++ ext) in
  for_each items
    (fun kv =>
       p <~ lift (path_format template (fst kv)) ;;
       with_open p true (binary_mode self) (fun outfile => run_dump self (snd kv) outfile)).

Definition dump_stream_to_dir (self : FlexiblePersist) (iterable : list value)
    (dir_ prefix : string) (ndigits : nat) : IO unit :=
  let items := map (fun io => (rjust ndigits "0" (str_of_N (fst io)), snd io))
                   (enumerate iterable) in
  _dump_stream_to_dir self items dir_ prefix.

Fixpoint map_result {A B : Type} (f : A -> result B) (l : list A) : result (list B) :=
  match l with
  | [] => Ok []
  | x :: l' => y <- f x ;; ys <- map_result f l' ;; Ok (y :: ys)
  end.

(** [load_stream_from_dir], that is [_load_stream_from_dir] with the
    pattern [[0-9]+], [key_type=int], [sort=True] and [yield_keys=False].
    The directory is listed and the names sorted when it is called; what
    it returns is the generator that loads the files one by one, kept
    here as the list of paths still to load. *)
Definition load_stream_from_dir (self : FlexiblePersist) (dir_ prefix : string)
    (ext : option string) : IO (list path) :=
  ext <~ lift (match ext with
               | None => extension self
               | Some e => Ok (dotted e)
               end) ;;
  names <~ os_listdir dir_ ;;
  let fs := flat_map (fun name =>
                        match fullmatch prefix digits_pattern ext name with
                        | Some k => [(k, Path dir_ name)]
                        | None => []
                        end) names in
  fs <~ lift (map_result (fun kf => n <- int_of_str (fst kf) ;; Ok (n, snd kf)) fs) ;;
  ret (map snd (sorted_by_key fs)).

(** [list(generator)]: every pending file is loaded, in order. *)
Fixpoint list_of_generator (self : FlexiblePersist) (pending : list path) : IO (list value) :=
  match pending with
  | [] => ret []
  | f :: pending' =>
      v <~ load self (TPath f) false ;;
      vs <~ list_of_generator self pending' ;;
      ret (v :: vs)
  end.

(* ---------------------------------------------------------------- *)
(** *** _TextIOMethods *)

Definition newline : N := 10%N.

(** The lines a text file object iterates over, each with its newline. *)
Fixpoint split_lines (s : ustring) : list ustring :=
  match s with
  | [] => []
  | c :: s' =>
      if (c =? newline)%N then [c] :: split_lines s'
      else match split_lines s' with
           | l :: ls => (c :: l) :: ls
           | [] => [[c]]
           end
  end.

(** [line.rstrip('\n')] *)
Fixpoint rstrip_newline (s : ustring) : ustring :=
  match s with
  | [] => []
  | c :: s' =>
      match rstrip_newline s' with
      | [] => if (c =? newline)%N then [] else [c]
      | r => c :: r
      end
  end.

(** The file a text method works on, and whether the method opened it. *)
Definition text_target (self : FlexiblePersist) (file : target) (auto_extension writing : bool)
  : IO (nat * bool) :=
  match file with
  | TPath p =>
      file <~ auto_path p auto_extension (text_extension self) ;;
      f <~ io_open file writing false ;;
      ret (f, true)
  | TFile f => ret (f, false)
  end.

Definition dump_stream_to_file (self : FlexiblePersist) (iterable : list value)
    (file : target) (auto_extension : bool) : IO unit :=
  let encode := to_line self in
  fc <~ text_target self file auto_extension true ;;
  let '(file, close) := fc in
  _ <~ for_each iterable
         (fun x =>
            line <~ lift (call1 lib encode x) ;;
            _ <~ io_write file line ;;
            io_write file (VStr [newline])) ;;
  if close then io_close file else ret tt.

Fixpoint decode_lines (decode : pyobj) (lines : list ustring) (pulls : option nat)
  : result (list value) * bool :=
  match lines, pulls with
  | _, Some O => (Ok [], false)
  | [], _ => (Ok [], true)
  | l :: lines', _ =>
      match call1 lib decode (VStr (rstrip_newline l)) with
      | Err e => (Err e, false)
      | Ok v =>
          let '(r, finished) := decode_lines decode lines' (option_map Nat.pred pulls) in
          (match r with Ok vs => Ok (v :: vs) | Err e => Err e end, finished)
      end
  end.

(** [load_stream_from_file] is a generator: nothing runs before the first
    item is asked for, and the statements after the loop run only when an
    item is asked for after the last line.  [pulls] is how many items the
    consumer asks for ([None]: until the generator is exhausted). *)
Definition load_stream_from_file (self : FlexiblePersist) (file : target)
    (auto_extension : bool) (pulls : option nat) : IO (list value) :=
  match pulls with
  | Some O => ret []
  | _ =>
      let decode := from_line self in
      fc <~ text_target self file auto_extension false ;;
      let '(file, close) := fc in
      content <~ with_stream file stream_read ;;
      lines <~ lift (match content with
                     | VStr s => Ok (split_lines s)
                     | VBytes [] => Ok []
                     | _ => Err (TypeError_call "a bytes-like object is required, not 'str'")
                     end) ;;
      let '(r, finished) := decode_lines decode lines pulls in
      vs <~ lift r ;;
      if finished && close then _ <~ io_close file ;; ret vs else ret vs
  end.
End Facade.

(* ================================================================== *)
(** ** Caller-supplied codecs used in the examples *)

(** A serializer of [bytes] objects that stores the object as it is, one of
    [str] objects that stores the text as it is, and their stream forms. *)
Definition bytes_only (v : value) : result value :=
  match v with VBytes _ => Ok v | _ => Err (Raised "TypeError") end.

Definition str_only (v : value) : result value :=
  match v with VStr _ => Ok v | _ => Err (Raised "TypeError") end.

Definition raw_dumps : pyobj := Lambda bytes_only.
Definition raw_loads : pyobj := Lambda bytes_only.
Definition raw_dump : pyobj :=
  LambdaDump (fun v f => b <- bytes_only v ;; stream_write f b).
Definition raw_load : pyobj :=
  LambdaLoad (fun f => r <- stream_read f ;; b <- bytes_only (fst r) ;; Ok (b, snd r)).

Definition plain_dumps : pyobj := Lambda str_only.
Definition plain_loads : pyobj := Lambda str_only.
Definition plain_dump : pyobj :=
  LambdaDump (fun v f => s <- str_only v ;; stream_write f s).
Definition plain_load : pyobj :=
  LambdaLoad (fun f => r <- stream_read f ;; s <- str_only (fst r) ;; Ok (s, snd r)).

(** A compressor that stores the bytes in reverse order. *)
Definition rev_bytes (v : value) : result value :=
  match v with VBytes b => Ok (VBytes (rev b)) | _ => Err (Raised "TypeError") end.

(** A text encoder that returns str: one code point per octet, and back. *)
Definition latin_encode (v : value) : result value :=
  match v with
  | VBytes b => Ok (VStr (map Byte.to_N b))
  | _ => Err (Raised "TypeError")
  end.

Definition latin_decode (v : value) : result value :=
  match v with
  | VStr s =>
      if forallb (fun c => (c <? 256)%N) s then Ok (VBytes (map byte_of s))
      else Err (Raised "ValueError")
  | _ => Err (Raised "TypeError")
  end.

(** A text encoder that returns bytes, two seven-bit octets for each octet:
    its upper seven bits and its lowest bit. *)
Definition halves_of (b : bytes) : bytes :=
  flat_map (fun x => [byte_of (Byte.to_N x / 2); byte_of (Byte.to_N x mod 2)]) b.

Fixpoint halves_back (l : bytes) : option bytes :=
  match l with
  | [] => Some []
  | h :: l' =>
      match l' with
      | lo :: l'' =>
          option_map (cons (byte_of (2 * Byte.to_N h + Byte.to_N lo))) (halves_back l'')
      | [] => None
      end
  end.

Definition halves_encode (v : value) : result value :=
  match v with VBytes b => Ok (VBytes (halves_of b)) | _ => Err (Raised "TypeError") end.

Definition halves_decode (v : value) : result value :=
  match v with
  | VBytes l =>
      match halves_back l with
      | Some b => Ok (VBytes b)
      | None => Err (Raised "ValueError")
      end
  | _ => Err (Raised "TypeError")
  end.

(** An environment in which no library function is available: the examples
    call caller-supplied functions only. *)
Definition no_lib : Lib :=
  mkLib (fun _ _ => Err (Raised "NotImplementedError"))
        (fun _ _ _ => Err (Raised "NotImplementedError"))
        (fun _ _ => Err (Raised "NotImplementedError")).

(** The value of a call that is known to return. *)
Definition returned {A : Type} (default : A) (m : result A) : A :=
  match m with Ok a => a | Err _ => default end.

(** The default registry after a caller has registered: the serializers
    "raw" (binary) and "plain" (text), the compressor "rev", and the text
    encoders "ident" (binary: the bytes as they are), "halves" (binary) and
    "latin" (returning str). *)
Definition sample_registry : IORegistry :=
  let r := DefaultIORegistry false in
  let r := returned r (register_serializer r "raw" "raw"
                         raw_dumps raw_loads raw_dump raw_load true) in
  let r := returned r (register_serializer r "plain" "txt"
                         plain_dumps plain_loads plain_dump plain_load false) in
  let r := returned r (register_compressor r "rev" (Lambda rev_bytes) (Lambda rev_bytes)
                         "rev") in
  let r := returned r (register_text_encoder r "ident" "ident"
                         (Lambda bytes_only) (Lambda bytes_only) true) in
  let r := returned r (register_text_encoder r "halves" "halves"
                         (Lambda halves_encode) (Lambda halves_decode) true) in
  returned r (register_text_encoder r "latin" "latin"
                (Lambda latin_encode) (Lambda latin_decode) false).

(* ================================================================== *)
(** * Properties *)

(** ** Extension resolution *)

(** The resolver by cases on the segments [ext.lstrip('.').split('.')]. *)
Definition resolve_by_segments (self : IORegistry) (ext : string) : result spec :=
  match str_split dot (lstrip dot ext) with
  | [s] =>
      serialization <- serialization_from_extension self s ;;
      Ok (serialization, None, None)
  | [s; x] =>
      serialization <- serialization_from_extension self s ;;
      match compression_from_extension self x with
      | Ok compression => Ok (serialization, Some compression, None)
      | Err _ =>
          match text_encoding_from_extension self x with
          | Ok text_encoding => Ok (serialization, None, Some text_encoding)
          | Err e => Err e
          end
      end
  | [s; c; t] =>
      serialization <- serialization_from_extension self s ;;
      compression <- compression_from_extension self c ;;
      text_encoding <- text_encoding_from_extension self t ;;
      Ok (serialization, Some compression, Some text_encoding)
  | _ => Err (ValueError_too_many_parts ext)
  end.

Lemma _name_from_ext_raises_ValueError (ext : string) (m : ChainMap string)
    (kwarg : string) (e : exn) :
  _name_from_ext ext m kwarg = Err e -> is_ValueError e = true.
Proof.
  unfold _name_from_ext, _get_lambda.
  destruct (mget _ _); intros H; inversion H; reflexivity.
Qed.

Lemma lstrip_no_char (c : ascii) (s : string) :
  contains_char c s = false -> lstrip c s = s.
Proof.
  destruct s as [|a s]; simpl; [reflexivity|].
  destruct (Ascii.eqb a c); simpl; [discriminate|reflexivity].
Qed.

Lemma str_split_no_char (c : ascii) (s : string) :
  contains_char c s = false -> str_split c s = [s].
Proof.
  induction s as [|a s IH]; simpl; [reflexivity|].
  destruct (Ascii.eqb a c); simpl; [discriminate|].
  intros H. now rewrite (IH H).
Qed.

Lemma str_split_app (c : ascii) (a rest : string) :
  contains_char c a = false ->
  str_split c (a ++ String c rest) = a :: str_split c rest.
Proof.
  induction a as [|x a IH]; simpl.
  - now rewrite Ascii.eqb_refl.
  - destruct (Ascii.eqb x c); simpl; [discriminate|].
    intros H. now rewrite (IH H).
Qed.

Lemma str_split_nonempty (c : ascii) (s : string) : str_split c s <> [].
Proof.
  destruct s as [|a s]; simpl; [discriminate|].
  destruct (Ascii.eqb a c); [discriminate|].
  destruct (str_split c s); discriminate.
Qed.

(** The source function, with its variables and the test on the kind of the
    exception, is the case distinction on the list of segments. *)
Lemma pipeline_from_extension_by_segments (self : IORegistry) (ext : string) :
  pipeline_from_extension self ext = resolve_by_segments self ext.
Proof.
  unfold pipeline_from_extension, resolve_by_segments.
  destruct (str_split dot (lstrip dot ext)) as [|p0 [|p1 [|p2 [|p3 rest]]]]; simpl;
    try reflexivity;
    destruct (serialization_from_extension self p0) as [ser|]; simpl; try reflexivity.
  destruct (compression_from_extension self p1) as [c|e] eqn:Hc; [reflexivity|].
  unfold compression_from_extension in Hc.
  rewrite (_name_from_ext_raises_ValueError _ _ _ Hc).
  destruct (text_encoding_from_extension self p1); reflexivity.
Qed.

(** Four or more segments fail whatever is registered. *)
Lemma too_many_segments_fail (self : IORegistry) (ext : string) :
  4 <= List.length (str_split dot (lstrip dot ext)) ->
  pipeline_from_extension self ext = Err (ValueError_too_many_parts ext).
Proof.
  rewrite pipeline_from_extension_by_segments. unfold resolve_by_segments.
  destruct (str_split dot (lstrip dot ext)) as [|p0 [|p1 [|p2 [|p3 rest]]]]; simpl;
    intros H; try lia; reflexivity.
Qed.

(** What is done with the segments of an extension: one segment gives the
    serializer alone; with two, the second one is a compression extension
    or, only when that look-up fails, a text-encoding extension; three are
    serializer, compression and text encoding by position; any other number
    fails. *)
Definition resolve_segments (self : IORegistry) (ext : string) (parts : list string)
  : result spec :=
  match parts with
  | [s] =>
      serialization <- serialization_from_extension self s ;;
      Ok (serialization, None, None)
  | [s; x] =>
      serialization <- serialization_from_extension self s ;;
      match compression_from_extension self x with
      | Ok compression => Ok (serialization, Some compression, None)
      | Err _ =>
          match text_encoding_from_extension self x with
          | Ok text_encoding => Ok (serialization, None, Some text_encoding)
          | Err e => Err e
          end
      end
  | [s; c; t] =>
      serialization <- serialization_from_extension self s ;;
      compression <- compression_from_extension self c ;;
      text_encoding <- text_encoding_from_extension self t ;;
      Ok (serialization, Some compression, Some text_encoding)
  | _ => Err (ValueError_too_many_parts ext)
  end.

(** Segments: texts without a dot, the first of which is not empty unless it
    is the only one.  Joined by dots, after any number of dots, they make an
    extension, and every extension is made so. *)
Definition segments (parts : list string) : bool :=
  forallb (fun s => negb (contains_char dot s)) parts
  && match parts with
     | [] => false
     | [_] => true
     | s :: _ => negb (String.eqb s "")
     end.

Definition extension_of_segments (n : nat) (parts : list string) : string :=
  (str_repeat dot n ++ String.concat "." parts)%string.

(** The resolver as the specification words it: the leading dot is
    stripped, one dot. *)
Definition strip_leading_dot (s : string) : string :=
  match s with
  | String a s' => if Ascii.eqb a dot then s' else s
  | EmptyString => EmptyString
  end.

Definition resolve_as_specified (self : IORegistry) (ext : string) : result spec :=
  resolve_segments self ext (str_split dot (strip_leading_dot ext)).

Lemma lstrip_dots (n : nat) (s : string) :
  lstrip dot (str_repeat dot n ++ s) = lstrip dot s.
Proof. induction n as [|n IH]; simpl; [reflexivity|exact IH]. Qed.

Lemma str_split_concat (parts : list string) :
  parts <> [] ->
  forallb (fun s => negb (contains_char dot s)) parts = true ->
  str_split dot (String.concat "." parts) = parts.
Proof.
  induction parts as [|s parts IH]; [congruence|]. intros _ H.
  cbn [forallb] in H. apply andb_prop in H as [Hs Hrest].
  apply negb_true_iff in Hs.
  destruct parts as [|s' parts'].
  - cbn [String.concat]. now apply str_split_no_char.
  - change (String.concat "." (s :: s' :: parts'))
      with (s ++ String dot (String.concat "." (s' :: parts')))%string.
    rewrite str_split_app by exact Hs. f_equal. apply IH; [discriminate|exact Hrest].
Qed.

Lemma lstrip_concat_segments (parts : list string) :
  segments parts = true -> lstrip dot (String.concat "." parts) = String.concat "." parts.
Proof.
  unfold segments. intros H. apply andb_prop in H as [Hfree Hfirst].
  destruct parts as [|s parts]; [discriminate|].
  cbn [forallb] in Hfree. apply andb_prop in Hfree as [Hs _]. apply negb_true_iff in Hs.
  destruct parts as [|s' parts'].
  - cbn [String.concat]. now apply lstrip_no_char.
  - change (String.concat "." (s :: s' :: parts'))
      with (s ++ String dot (String.concat "." (s' :: parts')))%string.
    destruct s as [|a s]; [discriminate|].
    cbn in Hs |- *. destruct (Ascii.eqb a dot); [discriminate|reflexivity].
Qed.

Lemma segments_nonempty (parts : list string) : segments parts = true -> parts <> [].
Proof. unfold segments. destruct parts; [now rewrite andb_false_r|discriminate]. Qed.

Lemma str_split_dot_free (s : string) :
  forallb (fun p => negb (contains_char dot p)) (str_split dot s) = true.
Proof.
  induction s as [|a s IH]; [reflexivity|]. cbn [str_split].
  destruct (Ascii.eqb a dot) eqn:E.
  - cbn [forallb]. now rewrite IH.
  - destruct (str_split dot s) as [|h t]; cbn [forallb contains_char] in *.
    + now rewrite E.
    + now rewrite E.
Qed.

Lemma concat_str_split (s : string) : String.concat "." (str_split dot s) = s.
Proof.
  induction s as [|a s IH]; [reflexivity|]. cbn [str_split].
  destruct (Ascii.eqb_spec a dot) as [->|_].
  - pose proof (@str_split_nonempty dot s) as Hne.
    destruct (str_split dot s) as [|h t]; [congruence|].
    change (String.concat "." ("" :: h :: t)) with (String dot (String.concat "." (h :: t))).
    now rewrite IH.
  - pose proof (@str_split_nonempty dot s) as Hne.
    destruct (str_split dot s) as [|h t]; [congruence|].
    destruct t as [|h' t'].
    + cbn [String.concat] in *. now rewrite IH.
    + change (String.concat "." (String a h :: h' :: t'))
        with (String a (String.concat "." (h :: h' :: t'))).
      now rewrite IH.
Qed.

Lemma lstrip_dots_count (s : string) :
  exists n, s = (str_repeat dot n ++ lstrip dot s)%string.
Proof.
  induction s as [|a s [n IH]]; [exists 0; reflexivity|]. cbn [lstrip].
  destruct (Ascii.eqb_spec a dot) as [->|_].
  - exists (S n). cbn [str_repeat append]. now rewrite <- IH.
  - exists 0. reflexivity.
Qed.

Lemma lstrip_first_not_dot (s : string) :
  match lstrip dot s with
  | String a _ => Ascii.eqb a dot = false
  | EmptyString => True
  end.
Proof.
  induction s as [|a s IH]; [exact I|]. cbn [lstrip].
  destruct (Ascii.eqb a dot) eqn:E; [exact IH|exact E].
Qed.

Lemma segments_of_stripped (s : string) : segments (str_split dot (lstrip dot s)) = true.
Proof.
  unfold segments. rewrite str_split_dot_free. cbn [andb].
  pose proof (lstrip_first_not_dot s) as H.
  destruct (lstrip dot s) as [|a r]; [reflexivity|]. cbn [str_split]. rewrite H.
  destruct (str_split dot r) as [|h t]; [reflexivity|]. destruct t; reflexivity.
Qed.

(** C5, as the code has it: an extension is any number of dots followed by
    segments joined by dots; every leading dot is dropped, and the segments
    decide: one gives the serializer alone; with two the second one is
    looked up as a compression extension and, only when that fails, as a
    text-encoding extension, whose failure is the failure of the call;
    three are serializer, compression and text encoding by position, each
    looked up on its own; four or more fail.  Every extension is of this
    form. *)
Theorem extension_resolution_by_segments (self : IORegistry) :
  (forall (n : nat) (parts : list string),
      segments parts = true ->
      pipeline_from_extension self (extension_of_segments n parts)
      = resolve_segments self (extension_of_segments n parts) parts)
  /\ (forall ext : string,
        exists n parts, segments parts = true /\ ext = extension_of_segments n parts).
Proof.
  split.
  - intros n parts Hseg. rewrite pipeline_from_extension_by_segments.
    unfold resolve_by_segments, resolve_segments, extension_of_segments.
    rewrite lstrip_dots, lstrip_concat_segments by exact Hseg.
    rewrite str_split_concat; [reflexivity|now apply segments_nonempty|].
    unfold segments in Hseg. now apply andb_prop in Hseg as [H _].
  - intros ext. destruct (lstrip_dots_count ext) as [n Hn].
    exists n, (str_split dot (lstrip dot ext)). split; [apply segments_of_stripped|].
    unfold extension_of_segments. now rewrite concat_str_split.
Qed.

Lemma extension_resolution_by_segments_witness :
  pipeline_from_extension (DefaultIORegistry false) "..json.gzip"
  = Ok ("json", Some "gzip", None)
  /\ pipeline_from_extension (DefaultIORegistry false) ".json.b64"
     = Ok ("json", None, Some "base64")
  /\ pipeline_from_extension (DefaultIORegistry false) "a.b.c.d"
     = Err (ValueError_too_many_parts "a.b.c.d").
Proof.
  destruct (extension_resolution_by_segments (DefaultIORegistry false)) as [H _].
  split; [|split].
  - change "..json.gzip" with (extension_of_segments 2 ["json"; "gzip"]).
    rewrite (H 2 ["json"; "gzip"] eq_refl). reflexivity.
  - change ".json.b64" with (extension_of_segments 1 ["json"; "b64"]).
    rewrite (H 1 ["json"; "b64"] eq_refl). reflexivity.
  - change "a.b.c.d" with (extension_of_segments 0 ["a"; "b"; "c"; "d"]).
    rewrite (H 0 ["a"; "b"; "c"; "d"] eq_refl). reflexivity.
Defined.

(** C5 as stated fails: stripping the leading dot of ["..json"] leaves
    [".json"], two segments the first of which is empty and is no
    serializer's extension; the code strips both dots and resolves the one
    segment ["json"]. *)
Lemma every_leading_dot_is_stripped :
  pipeline_from_extension (DefaultIORegistry false) "..json" = Ok ("json", None, None)
  /\ str_split dot (strip_leading_dot "..json") = [""; "json"]
  /\ resolve_as_specified (DefaultIORegistry false) "..json"
     = Err (ValueError_must_be_one_of "serialization extension"
              [".json"; ".pkl"; ".msgpack"] ".").
Proof. repeat split. Qed.

(** C2, as the code has it: [".json.lz4"] resolves to json with lz4
    compression and no text encoding; the extension of the base64 text
    encoding is [".b64"], and [".json.b64"] resolves to json with base64 text
    encoding and no compression.  Both hold with and without dill. *)
Theorem resolve_json_lz4_and_json_b64 (dill : bool) :
  pipeline_from_extension (DefaultIORegistry dill) ".json.lz4"
    = Ok ("json", Some "lz4", None)
  /\ pipeline_from_extension (DefaultIORegistry dill) ".json.b64"
    = Ok ("json", None, Some "base64").
Proof. destruct dill; split; reflexivity. Qed.

(** C2 as stated fails: [".json.base64"] is not resolved, because no
    compression and no text encoding has the extension [".base64"]. *)
Lemma resolve_json_base64_fails :
  pipeline_from_extension (DefaultIORegistry false) ".json.base64"
    = Err (ValueError_must_be_one_of "text extension"
             [".b16"; ".b32"; ".b64"; ".b85"] ".base64")
  /\ pipeline_from_extension (DefaultIORegistry true) ".json.base64"
    = Err (ValueError_must_be_one_of "text extension"
             [".b16"; ".b32"; ".b64"; ".b85"] ".base64").
Proof. split; reflexivity. Qed.

(* ------------------------------------------------------------------ *)
(** ** Registration *)

Lemma dict_get_set_same {V : Type} (d : dict V) (k : string) (v : V) :
  dict_get (dict_set d k v) k = Some v.
Proof.
  induction d as [|[k' v'] d IH]; simpl.
  - now rewrite String.eqb_refl.
  - destruct (String.eqb k' k) eqn:E; simpl; rewrite E; auto.
Qed.

Lemma dict_get_set_other {V : Type} (d : dict V) (k k' : string) (v : V) :
  k' <> k -> dict_get (dict_set d k v) k' = dict_get d k'.
Proof.
  intros Hne. induction d as [|[k0 v0] d IH]; simpl.
  - destruct (String.eqb_spec k k'); [congruence|reflexivity].
  - destruct (String.eqb_spec k0 k) as [->|Hk]; simpl.
    + destruct (String.eqb_spec k k'); [congruence|reflexivity].
    + destruct (String.eqb_spec k0 k'); [reflexivity|exact IH].
Qed.

Lemma chain_get_set_same {V : Type} (m : ChainMap V) (k : string) (v : V) :
  chain_get (chain_set m k v) k = Some v.
Proof. unfold chain_get, chain_set; simpl. now rewrite dict_get_set_same. Qed.

Lemma chain_get_set_other {V : Type} (m : ChainMap V) (k k' : string) (v : V) :
  k' <> k -> chain_get (chain_set m k v) k' = chain_get m k'.
Proof.
  intros H. unfold chain_get, chain_set; simpl. now rewrite dict_get_set_other.
Qed.

Lemma fn_attr_eqb_spec (a b : fn_attr) : reflect (a = b) (fn_attr_eqb a b).
Proof. destruct a, b; simpl; constructor; congruence. Qed.

Lemma ext_attr_eqb_spec (a b : ext_attr) : reflect (a = b) (ext_attr_eqb a b).
Proof. destruct a, b; simpl; constructor; congruence. Qed.

Lemma parent_set_fn (self : IORegistry) (a a' : fn_attr) (k : string) (v : pyobj) :
  parent (fns (set_fn self a k v) a') = parent (fns self a').
Proof. simpl. destruct (fn_attr_eqb a' a); reflexivity. Qed.

Lemma parent_set_ext (self : IORegistry) (a a' : ext_attr) (k v : string) :
  parent (exts (set_ext self a k v) a') = parent (exts self a').
Proof. simpl. destruct (ext_attr_eqb a' a); reflexivity. Qed.

Lemma check_callables_error (l : list (string * pyobj)) (e : exn) :
  check_callables l = Err e -> exists alias, e = TypeError_must_be_callable alias.
Proof.
  induction l as [|[alias f] l IH]; simpl; [discriminate|].
  destruct (callable f); [exact IH|].
  intros H; inversion H; eauto.
Qed.

(** A registry differs from another in its own layers only. *)
Definition same_parents (self self' : IORegistry) : Prop :=
  (forall a, parent (fns self' a) = parent (fns self a))
  /\ (forall a, parent (exts self' a) = parent (exts self a)).

Lemma same_parents_refl (self : IORegistry) : same_parents self self.
Proof. split; reflexivity. Qed.

Lemma same_parents_trans (a b c : IORegistry) :
  same_parents a b -> same_parents b c -> same_parents a c.
Proof. intros [H1 H2] [H3 H4]; split; intros x; [rewrite H3|rewrite H4]; auto. Qed.

Lemma same_parents_set_fn (self : IORegistry) (a : fn_attr) (k : string) (v : pyobj) :
  same_parents self (set_fn self a k v).
Proof. split; intros a'; [apply parent_set_fn|reflexivity]. Qed.

Lemma same_parents_set_ext (self : IORegistry) (a : ext_attr) (k v : string) :
  same_parents self (set_ext self a k v).
Proof. split; intros a'; [reflexivity|apply parent_set_ext]. Qed.

Lemma same_parents_add_return_str (self : IORegistry) (name : string) :
  same_parents self (add_return_str self name).
Proof. split; reflexivity. Qed.

Create HintDb registry.

#[local] Hint Resolve same_parents_refl same_parents_set_fn same_parents_set_ext
  same_parents_add_return_str : registry.

Ltac chain_parents :=
  repeat (eapply same_parents_trans; [|solve [eauto with registry]]);
  eauto with registry.

Lemma register_compressor_spec (self : IORegistry) (name : string)
    (c d : pyobj) (extension : string) :
  (register_compressor self name c d extension = Err (KeyError_already_registered name)
   <-> chain_mem (fns self compressors) name || chain_mem (fns self decompressors) name = true)
  /\ (forall self', register_compressor self name c d extension = Ok self' ->
        same_parents self self').
Proof.
  unfold register_compressor.
  destruct (chain_mem (fns self compressors) name || chain_mem (fns self decompressors) name).
  - split; [tauto|discriminate].
  - destruct (check_callables _) as [[]|e] eqn:Hc; simpl.
    + split; [split; discriminate|]. intros self' H; inversion H; subst. chain_parents.
    + apply check_callables_error in Hc as [alias ->].
      split; [split; discriminate|discriminate].
Qed.

Lemma register_text_encoder_spec (self : IORegistry) (name extension : string)
    (enc dec : pyobj) (binary : bool) :
  (register_text_encoder self name extension enc dec binary
     = Err (KeyError_already_registered name)
   <-> chain_mem (fns self text_encoders) name || chain_mem (fns self text_decoders) name = true)
  /\ (forall self', register_text_encoder self name extension enc dec binary = Ok self' ->
        same_parents self self').
Proof.
  unfold register_text_encoder.
  destruct (chain_mem (fns self text_encoders) name || chain_mem (fns self text_decoders) name).
  - split; [tauto|discriminate].
  - destruct (check_callables _) as [[]|e] eqn:Hc; simpl.
    + split; [split; discriminate|]. intros self' H; inversion H; subst.
      destruct binary; simpl; chain_parents.
    + apply check_callables_error in Hc as [alias ->].
      split; [split; discriminate|discriminate].
Qed.

(** The pair of tables [register_serializer] tests the name against. *)
Definition loaders_of (binary : bool) : fn_attr := if binary then loaders else text_loaders.
Definition dumpers_of (binary : bool) : fn_attr := if binary then dumpers else text_dumpers.
Definition file_loaders_of (binary : bool) : fn_attr :=
  if binary then file_loaders else text_file_loaders.
Definition file_dumpers_of (binary : bool) : fn_attr :=
  if binary then file_dumpers else text_file_dumpers.

Lemma register_serializer_spec (self : IORegistry) (name extension : string)
    (ser deser sser sdeser : pyobj) (binary : bool) :
  (register_serializer self name extension ser deser sser sdeser binary
     = Err (KeyError_already_registered name)
   <-> chain_mem (fns self (loaders_of binary)) name
       || chain_mem (fns self (dumpers_of binary)) name = true)
  /\ (forall self', register_serializer self name extension ser deser sser sdeser binary
                    = Ok self' -> same_parents self self').
Proof.
  unfold register_serializer, loaders_of, dumpers_of.
  destruct binary;
    match goal with |- context [if ?c then Err _ else _] => destruct c end;
    try (split; [tauto|discriminate]);
    (destruct (check_callables _) as [[]|e] eqn:Hc; simpl;
     [ split; [split; discriminate|]; intros self' H; inversion H; subst; chain_parents
     | apply check_callables_error in Hc as [alias ->];
       split; [split; discriminate|discriminate] ]).
Qed.

Lemma register_serializer_returns (self : IORegistry) (name extension : string)
    (ser deser sser sdeser : pyobj) (binary : bool) :
  chain_mem (fns self (loaders_of binary)) name
  || chain_mem (fns self (dumpers_of binary)) name = false ->
  callable ser = true -> callable deser = true -> callable sser = true ->
  exists self',
    register_serializer self name extension ser deser sser sdeser binary = Ok self'
    /\ chain_get (exts self' serialization_extensions) name = Some (dotted extension).
Proof.
  intros Hfree Hs Hd Hss. unfold register_serializer, loaders_of, dumpers_of in *.
  destruct binary; rewrite Hfree; cbn [check_callables]; rewrite Hs, Hss, Hd; cbn [bind];
    (eexists; split; [reflexivity|]); cbn [exts set_ext set_fn];
    destruct (ext_attr_eqb_spec serialization_extensions serialization_extensions);
    try congruence; apply chain_get_set_same.
Qed.

(** C4, as the code has it: a registration fails with the duplicate-name
    error exactly when the name is in the tables the method tests, the
    registry's own layer and the class-level tables it inherits taken
    together: the compressors and decompressors, the text encoders and
    decoders, and for a serializer the loaders and dumpers of the kind given
    by [binary] and of that kind only.  A serializer under a name not in the
    tables of its kind is registered once its serializer, deserializer and
    stream serializer are callable, whatever the tables of the other kind
    hold, and the name then has the extension given.  A registration that
    succeeds writes to the registry's own layer only, and the inherited
    tables stay as they were. *)
Theorem register_checks_the_tables_of_its_kind (self : IORegistry)
    (name extension : string) :
  (forall c d,
      register_compressor self name c d extension = Err (KeyError_already_registered name)
      <-> chain_mem (fns self compressors) name
          || chain_mem (fns self decompressors) name = true)
  /\ (forall enc dec binary,
      register_text_encoder self name extension enc dec binary
        = Err (KeyError_already_registered name)
      <-> chain_mem (fns self text_encoders) name
          || chain_mem (fns self text_decoders) name = true)
  /\ (forall ser deser sser sdeser binary,
      register_serializer self name extension ser deser sser sdeser binary
        = Err (KeyError_already_registered name)
      <-> chain_mem (fns self (loaders_of binary)) name
          || chain_mem (fns self (dumpers_of binary)) name = true)
  /\ (forall ser deser sser sdeser binary,
      chain_mem (fns self (loaders_of binary)) name
      || chain_mem (fns self (dumpers_of binary)) name = false ->
      callable ser = true -> callable deser = true -> callable sser = true ->
      exists self',
        register_serializer self name extension ser deser sser sdeser binary = Ok self'
        /\ chain_get (exts self' serialization_extensions) name = Some (dotted extension))
  /\ (forall self',
        (exists c d, register_compressor self name c d extension = Ok self')
        \/ (exists enc dec binary,
              register_text_encoder self name extension enc dec binary = Ok self')
        \/ (exists ser deser sser sdeser binary,
              register_serializer self name extension ser deser sser sdeser binary = Ok self')
        -> same_parents self self').
Proof.
  split; [|split; [|split; [|split]]].
  - intros c d. apply register_compressor_spec.
  - intros enc dec binary. apply register_text_encoder_spec.
  - intros ser deser sser sdeser binary. apply register_serializer_spec.
  - intros ser deser sser sdeser binary. apply register_serializer_returns.
  - intros self' [(c & d & H)|[(enc & dec & b & H)|(s1 & s2 & s3 & s4 & b & H)]].
    + eapply register_compressor_spec; eauto.
    + eapply register_text_encoder_spec; eauto.
    + eapply register_serializer_spec; eauto.
Qed.

(** In the default registry "json" is a text serializer and "pickle" a
    binary one, both inherited.  A binary serializer is registered under
    "json" and a text serializer under "pickle": the first makes "json" a
    binary serialization of the registry, the second leaves "pickle" binary
    and gives it the extension [".txt"], so that [".pkl"] is no longer
    resolved. *)
Lemma register_checks_the_tables_of_its_kind_witness :
  exists r1 r2,
    register_serializer (DefaultIORegistry false) "json" "bj"
      raw_dumps raw_loads raw_dump raw_load true = Ok r1
    /\ register_serializer (DefaultIORegistry false) "pickle" "txt"
         plain_dumps plain_loads plain_dump plain_load false = Ok r2
    /\ is_binary_serialization (DefaultIORegistry false) "json" = Ok false
    /\ is_binary_serialization r1 "json" = Ok true
    /\ chain_get (exts r1 serialization_extensions) "json" = Some ".bj"
    /\ is_binary_serialization r2 "pickle" = Ok true
    /\ chain_get (exts r2 serialization_extensions) "pickle" = Some ".txt"
    /\ is_ok (pipeline_from_extension r2 ".pkl") = false.
Proof.
  destruct (register_checks_the_tables_of_its_kind (DefaultIORegistry false) "json" "bj")
    as (_ & _ & _ & H1 & _).
  destruct (register_checks_the_tables_of_its_kind (DefaultIORegistry false) "pickle" "txt")
    as (_ & _ & _ & H2 & _).
  destruct (H1 raw_dumps raw_loads raw_dump raw_load true eq_refl eq_refl eq_refl eq_refl)
    as (r1 & E1 & X1).
  destruct (H2 plain_dumps plain_loads plain_dump plain_load false
              eq_refl eq_refl eq_refl eq_refl) as (r2 & E2 & X2).
  exists r1, r2.
  assert (F1 : match register_serializer (DefaultIORegistry false) "json" "bj"
                       raw_dumps raw_loads raw_dump raw_load true with
               | Ok r => is_binary_serialization r "json" = Ok true
               | Err _ => False
               end) by (vm_compute; reflexivity).
  assert (F2 : match register_serializer (DefaultIORegistry false) "pickle" "txt"
                       plain_dumps plain_loads plain_dump plain_load false with
               | Ok r => is_binary_serialization r "pickle" = Ok true
                         /\ is_ok (pipeline_from_extension r ".pkl") = false
               | Err _ => False
               end) by (vm_compute; split; reflexivity).
  rewrite E1 in F1. rewrite E2 in F2. destruct F2 as [F2 F3].
  repeat split; assumption.
Defined.

(** C4 as stated fails: "pickle" is not in the default registry's own layer,
    only in the tables it inherits, and registering a serializer under that
    name is refused as a duplicate all the same. *)
Lemma inherited_name_is_refused :
  dict_mem (own (fns (DefaultIORegistry false) loaders)) "pickle" = false
  /\ dict_mem (own (fns (DefaultIORegistry false) dumpers)) "pickle" = false
  /\ dict_mem (parent (fns (DefaultIORegistry false) loaders)) "pickle" = true
  /\ register_serializer (DefaultIORegistry false) "pickle" "pkl"
        raw_dumps raw_loads raw_dump raw_load true
      = Err (KeyError_already_registered "pickle").
Proof. repeat split. Qed.

Lemma callable_truthy (o : pyobj) : callable o = true -> truthy o = true.
Proof. destruct o; simpl; congruence. Qed.

Lemma py_or_callable (a b : pyobj) : callable a = true -> py_or a b = a.
Proof. intros H. unfold py_or. now rewrite (callable_truthy _ H). Qed.

Lemma fns_set_fn_same (self : IORegistry) (a : fn_attr) (k : string) (v : pyobj) :
  fns (set_fn self a k v) a = chain_set (fns self a) k v.
Proof. simpl. now destruct (fn_attr_eqb_spec a a). Qed.

Lemma fns_set_fn_other (self : IORegistry) (a a' : fn_attr) (k : string) (v : pyobj) :
  a' <> a -> fns (set_fn self a k v) a' = fns self a'.
Proof. intros H. simpl. now destruct (fn_attr_eqb_spec a' a). Qed.

Lemma fns_set_ext (self : IORegistry) (a : ext_attr) (k v : string) (a' : fn_attr) :
  fns (set_ext self a k v) a' = fns self a'.
Proof. reflexivity. Qed.

(** What a registration that returns has checked and stored. *)
Lemma register_serializer_stores (self self' : IORegistry) (name extension : string)
    (ser deser sser sdeser : pyobj) (binary : bool) :
  register_serializer self name extension ser deser sser sdeser binary = Ok self' ->
  (callable ser = true /\ callable deser = true /\ callable sser = true)
  /\ chain_get (fns self' (dumpers_of binary)) name = Some ser
  /\ chain_get (fns self' (loaders_of binary)) name = Some deser
  /\ chain_get (fns self' (file_dumpers_of binary)) name = Some sser
  /\ chain_get (fns self' (file_loaders_of binary)) name
     = Some (py_or sdeser (StreamDeserializer deser)).
Proof.
  unfold register_serializer, dumpers_of, loaders_of, file_dumpers_of, file_loaders_of.
  destruct binary;
    match goal with |- context [if ?c then Err _ else _] => destruct c end;
    try discriminate; unfold check_callables;
    destruct (callable ser) eqn:H1; try discriminate;
    destruct (callable sser) eqn:H2; try discriminate;
    destruct (callable deser) eqn:H3; try discriminate;
    unfold bind; intros H; inversion H; subst; clear H;
    rewrite !py_or_callable by assumption;
    (split; [auto|]);
    rewrite !fns_set_ext;
    repeat split;
    repeat (first [ rewrite fns_set_fn_same
                  | rewrite fns_set_fn_other by discriminate ]);
    apply chain_get_set_same.
Qed.



(** A non-callable stream deserializer is accepted and stored. *)
Lemma non_callable_stream_deserializer_is_stored :
  exists self',
    register_serializer (DefaultIORegistry false) "plain" "txt"
      plain_dumps plain_loads plain_dump (PInt 5) false = Ok self'
    /\ chain_get (fns self' text_file_loaders) "plain" = Some (PInt 5).
Proof. eexists. split; reflexivity. Qed.

(* ------------------------------------------------------------------ *)
(** ** The canonical extension and its resolution *)

Lemma contains_char_app (c : ascii) (a b : string) :
  contains_char c (a ++ b) = contains_char c a || contains_char c b.
Proof.
  induction a as [|x a IH]; simpl; [reflexivity|].
  rewrite IH. now rewrite orb_assoc.
Qed.

Lemma dotted_plain (b : string) :
  contains_char dot b = false -> dotted b = String dot b.
Proof. intros H. unfold dotted. now rewrite lstrip_no_char. Qed.

(** [dict(pairs)] at a key all of whose pairs carry the same value. *)
Lemma dict_get_fold_set {V : Type} (l : list (string * V)) (acc : dict V)
    (k : string) (v : V) :
  (forall v', In (k, v') l -> v' = v) ->
  (In (k, v) l \/ dict_get acc k = Some v) ->
  dict_get (fold_left (fun d kv => dict_set d (fst kv) (snd kv)) l acc) k = Some v.
Proof.
  revert acc. induction l as [|[k1 v1] l IH]; intros acc Huniq Hin; simpl.
  - destruct Hin as [[]|H]; exact H.
  - apply IH.
    + intros v' H. apply Huniq. now right.
    + destruct (String.eqb_spec k1 k) as [->|Hne].
      * right. rewrite (Huniq v1 (or_introl eq_refl)). apply dict_get_set_same.
      * destruct Hin as [[H|H]|H].
        -- inversion H; congruence.
        -- now left.
        -- right. rewrite dict_get_set_other by congruence. exact H.
Qed.

Lemma dict_get_fold_set_none {V : Type} (l : list (string * V)) (acc : dict V) (k : string) :
  (forall v', ~ In (k, v') l) ->
  dict_get acc k = None ->
  dict_get (fold_left (fun d kv => dict_set d (fst kv) (snd kv)) l acc) k = None.
Proof.
  revert acc. induction l as [|[k1 v1] l IH]; intros acc Hno Hacc; simpl; [exact Hacc|].
  apply IH.
  - intros v' H. apply (Hno v'). now right.
  - rewrite dict_get_set_other; [exact Hacc|].
    intros ->. apply (Hno v1). now left.
Qed.

Lemma dict_get_In_keys {V : Type} (d : dict V) (k : string) (v : V) :
  dict_get d k = Some v -> In k (dict_keys d).
Proof.
  induction d as [|[k' v'] d IH]; simpl; [discriminate|].
  destruct (String.eqb_spec k' k); [now left|]. intros H. right. now apply IH.
Qed.

Lemma chain_get_In_keys {V : Type} (m : ChainMap V) (k : string) (v : V) :
  chain_get m k = Some v -> In k (chain_keys m).
Proof.
  unfold chain_get, chain_keys. intros H. apply in_or_app.
  destruct (dict_get (parent m) k) as [vp|] eqn:Hp.
  - left. eapply dict_get_In_keys; eauto.
  - destruct (dict_get (own m) k) as [vo|] eqn:Ho; [|congruence].
    right. apply filter_In. split; [eapply dict_get_In_keys; eauto|].
    unfold dict_mem. now rewrite Hp.
Qed.

Lemma chain_items_of_In {V : Type} (m : ChainMap V) (ks : list string) (k : string) (v : V) :
  In (k, v) (chain_items_of m ks) <-> In k ks /\ chain_get m k = Some v.
Proof.
  induction ks as [|k0 ks IH]; simpl; [tauto|].
  destruct (chain_get m k0) as [v0|] eqn:H0; simpl; rewrite IH; split.
  - intros [H|H]; [inversion H; subst; tauto|tauto].
  - intros [[->|H] Hg]; [left; congruence|tauto].
  - tauto.
  - intros [[->|H] Hg]; [congruence|tauto].
Qed.

Lemma chain_items_In {V : Type} (m : ChainMap V) (k : string) (v : V) :
  In (k, v) (chain_items m) <-> chain_get m k = Some v.
Proof.
  unfold chain_items. rewrite chain_items_of_In. split; [tauto|].
  intros H. split; [eapply chain_get_In_keys; eauto|exact H].
Qed.

(** No other name of the table has the extension [e]. *)
Definition sole_owner (m : ChainMap string) (n e : string) : bool :=
  forallb (fun kv => implb (String.eqb (snd kv) e) (String.eqb (fst kv) n)) (chain_items m).

(** No name of the table has the extension [e]. *)
Definition unused_extension (m : ChainMap string) (e : string) : bool :=
  forallb (fun kv => negb (String.eqb (snd kv) e)) (chain_items m).

Lemma _name_from_ext_owner (m : ChainMap string) (n b kwarg : string) :
  contains_char dot b = false ->
  chain_get m n = Some (String dot b) ->
  sole_owner m n (String dot b) = true ->
  _name_from_ext b m kwarg = Ok n.
Proof.
  intros Hb Hget Hsole. unfold _name_from_ext, _get_lambda. simpl mget.
  rewrite (dotted_plain _ Hb). unfold dict_of_pairs.
  rewrite (@dict_get_fold_set _ _ _ _ n); [reflexivity| |].
  - intros n' Hin. apply in_map_iff in Hin as [[k e] [Heq Hin]].
    simpl in Heq. inversion Heq; subst.
    unfold sole_owner in Hsole. rewrite forallb_forall in Hsole.
    specialize (Hsole _ Hin). simpl in Hsole. rewrite String.eqb_refl in Hsole.
    simpl in Hsole. now apply String.eqb_eq in Hsole.
  - left. apply in_map_iff. exists (n, String dot b). split; [reflexivity|].
    now apply chain_items_In.
Qed.

Lemma _name_from_ext_unused (m : ChainMap string) (b kwarg : string) :
  contains_char dot b = false ->
  unused_extension m (String dot b) = true ->
  exists e, _name_from_ext b m kwarg = Err e.
Proof.
  intros Hb Hun. unfold _name_from_ext, _get_lambda. simpl mget.
  rewrite (dotted_plain _ Hb). unfold dict_of_pairs.
  rewrite dict_get_fold_set_none; [eauto| |reflexivity].
  intros n' Hin. apply in_map_iff in Hin as [[k e] [Heq Hin]].
  simpl in Heq. inversion Heq; subst.
  unfold unused_extension in Hun. rewrite forallb_forall in Hun.
  specialize (Hun _ Hin). simpl in Hun. now rewrite String.eqb_refl in Hun.
Qed.

(** The body of the extension of [n] in a table, when that extension is a
    dot followed by a body without dots and no other name has it. *)
Definition owned_body (m : ChainMap string) (n : string) : option string :=
  match chain_get m n with
  | Some (String a b) =>
      if Ascii.eqb a dot && negb (contains_char dot b) && sole_owner m n (String a b)
      then Some b else None
  | _ => None
  end.

(** What the registry has to offer for the extension of a specification to
    be read back: each extension is a dot and a dot-free body of its own
    (not empty for the serializer), and, without a compression, the text
    extension is not a compression extension as well. *)
Definition resolvable (self : IORegistry) (sp : spec) : bool :=
  let '(serialization, compression, text_encoding) := sp in
  match owned_body (exts self serialization_extensions) serialization with
  | None => false
  | Some body =>
      negb (String.eqb body "")
      && match compression with
         | Some c =>
             match owned_body (exts self compression_extensions) c with
             | Some _ => true
             | None => false
             end
         | None => true
         end
      && match text_encoding with
         | Some t =>
             match owned_body (exts self text_extensions) t with
             | Some text_body =>
                 match compression with
                 | Some _ => true
                 | None =>
                     unused_extension (exts self compression_extensions)
                                      (String dot text_body)
                 end
             | None => false
             end
         | None => true
         end
  end.

Lemma owned_body_inv (m : ChainMap string) (n b : string) :
  owned_body m n = Some b ->
  chain_get m n = Some (String dot b)
  /\ contains_char dot b = false
  /\ sole_owner m n (String dot b) = true.
Proof.
  unfold owned_body. destruct (chain_get m n) as [[|a b']|]; try discriminate.
  destruct (Ascii.eqb_spec a dot) as [->|]; simpl; [|discriminate].
  destruct (contains_char dot b') eqn:Hc; simpl; [discriminate|].
  destruct (sole_owner m n (String dot b')) eqn:Hs; [|discriminate].
  intros H; inversion H; subst. auto.
Qed.

Lemma FlexiblePersist_init_fields (S : string) (C T : option string)
    (k1 k2 k3 k4 : kwargs) (always : bool) (self : IORegistry)
    (cache cache' : pipeline_cache) (fp : FlexiblePersist) :
  FlexiblePersist_init S C T k1 k2 k3 k4 always self cache = (Ok fp, cache') ->
  _io_registry fp = self /\ _serialization fp = S /\ _compression fp = C
  /\ _text_encoding fp = T /\ _always_use_text_encoding fp = always.
Proof.
  unfold FlexiblePersist_init.
  destruct always.
  - destruct T as [t|]; [|discriminate].
    destruct (compile_pipeline _ _ _ _ _ _ _ _ _) as [[p|e] c1]; [|discriminate].
    intros H; inversion H; subst; simpl; auto.
  - destruct (compile_pipeline self cache S C None k1 k2 k3 k4) as [[p|e] c1]; [|discriminate].
    destruct T as [t|].
    + destruct (compile_pipeline _ _ _ _ _ _ _ _ _) as [[q|e] c2]; [|discriminate].
      intros H; inversion H; subst; simpl; auto.
    + destruct (negb _); intros H; inversion H; subst; simpl; auto.
Qed.

Lemma lstrip_dot_body (b rest : string) :
  b <> "" -> contains_char dot b = false ->
  lstrip dot (String dot (b ++ rest)) = (b ++ rest)%string.
Proof.
  intros Hne Hb. destruct b as [|a b]; [congruence|].
  simpl in *.
  destruct (Ascii.eqb a dot); simpl in *; [discriminate|reflexivity].
Qed.

Lemma append_empty_r (s : string) : (s ++ "")%string = s.
Proof. induction s; simpl; congruence. Qed.

Lemma append_assoc (a b c : string) : ((a ++ b) ++ c = a ++ (b ++ c))%string.
Proof. induction a; simpl; congruence. Qed.

(** Every combination of the built-in names is resolvable in the default
    registry. *)
Definition builtin_specs (dill : bool) : list spec :=
  let sers := ["json"; "pickle"; "msgpack"] ++ (if dill then ["dill"] else []) in
  let comps := None :: map Some ["lzma"; "lz4"; "bz2"; "gzip"] in
  let texts := None :: map Some ["base16"; "base32"; "base64"; "base85"] in
  flat_map (fun s => flat_map (fun c => map (fun t => (s, c, t)) texts) comps) sers.

Lemma builtin_specs_resolvable (dill : bool) :
  forallb (resolvable (DefaultIORegistry dill)) (builtin_specs dill) = true.
Proof. destruct dill; vm_compute; reflexivity. Qed.

Lemma FlexiblePersist_init_returns (S : string) (C T : option string) (always : bool)
    (self : IORegistry) :
  is_ok (fst (FlexiblePersist_init S C T None None None None always self [])) = true ->
  exists fp cache',
    FlexiblePersist_init S C T None None None None always self [] = (Ok fp, cache').
Proof.
  destruct (FlexiblePersist_init S C T None None None None always self [])
    as [[fp|e] cache']; simpl; [eauto|discriminate].
Qed.

Lemma result_is_ok {A : Type} (m : result A) : is_ok m = true -> exists a, m = Ok a.
Proof. destruct m; simpl; [eauto|discriminate]. Qed.

(** The canonical extension of a specification, as the specification words
    it: the serializer's extension, then the compression's if a compression
    is set, then the text encoding's if a text encoding is set. *)
Definition canonical_extension (self : IORegistry) (sp : spec) : result string :=
  let '(serialization, compression, text_encoding) := sp in
  head <- chain_subscript (exts self serialization_extensions) (Some serialization) ;;
  middle <- match compression with
            | Some c => chain_subscript (exts self compression_extensions) (Some c)
            | None => Ok ""
            end ;;
  tail <- match text_encoding with
          | Some t => chain_subscript (exts self text_extensions) (Some t)
          | None => Ok ""
          end ;;
  Ok (head ++ middle ++ tail)%string.

Lemma canonical_extension_resolves (self : IORegistry) (S : string) (C T : option string) :
  resolvable self (S, C, T) = true ->
  exists e, canonical_extension self (S, C, T) = Ok e
            /\ pipeline_from_extension self e = Ok (S, C, T).
Proof.
  intros Hres. unfold canonical_extension. unfold resolvable in Hres.
  destruct (owned_body (exts self serialization_extensions) S) as [bS|] eqn:HbS;
    [|discriminate].
  apply owned_body_inv in HbS as (HgS & HdS & HoS).
  apply andb_prop in Hres as [Hres HresT]. apply andb_prop in Hres as [HneS HresC].
  assert (HbSne : bS <> "") by (intros ->; discriminate).
  unfold chain_subscript. rewrite HgS. cbn [bind].
  pose proof (@_name_from_ext_owner _ S bS "serialization extension" HdS HgS HoS) as HnS.
  destruct C as [c|]; destruct T as [t|].
  - (* compression and text encoding *)
    destruct (owned_body (exts self compression_extensions) c) as [bC|] eqn:HbC;
      [|discriminate].
    destruct (owned_body (exts self text_extensions) t) as [bT|] eqn:HbT; [|discriminate].
    apply owned_body_inv in HbC as (HgC & HdC & HoC).
    apply owned_body_inv in HbT as (HgT & HdT & HoT).
    rewrite HgC, HgT. cbn [bind append]. eexists; split; [reflexivity|].
    rewrite pipeline_from_extension_by_segments; unfold resolve_by_segments.
    rewrite lstrip_dot_body by assumption.
    rewrite str_split_app by assumption.
    rewrite str_split_app by assumption. rewrite str_split_no_char by assumption.
    unfold serialization_from_extension, compression_from_extension,
      text_encoding_from_extension.
    rewrite HnS. cbn [bind].
    rewrite (@_name_from_ext_owner _ c bC _ HdC HgC HoC). cbn [bind].
    rewrite (@_name_from_ext_owner _ t bT _ HdT HgT HoT). reflexivity.
  - (* compression only *)
    destruct (owned_body (exts self compression_extensions) c) as [bC|] eqn:HbC;
      [|discriminate].
    apply owned_body_inv in HbC as (HgC & HdC & HoC).
    rewrite HgC. cbn [bind]. rewrite append_empty_r. cbn [append].
    eexists; split; [reflexivity|].
    rewrite pipeline_from_extension_by_segments; unfold resolve_by_segments.
    rewrite lstrip_dot_body by assumption.
    rewrite str_split_app by assumption. rewrite str_split_no_char by assumption.
    unfold serialization_from_extension, compression_from_extension.
    rewrite HnS. cbn [bind].
    rewrite (@_name_from_ext_owner _ c bC _ HdC HgC HoC). reflexivity.
  - (* text encoding only *)
    destruct (owned_body (exts self text_extensions) t) as [bT|] eqn:HbT; [|discriminate].
    apply owned_body_inv in HbT as (HgT & HdT & HoT).
    rewrite HgT. cbn [bind append]. eexists; split; [reflexivity|].
    rewrite pipeline_from_extension_by_segments; unfold resolve_by_segments.
    rewrite lstrip_dot_body by assumption.
    rewrite str_split_app by assumption. rewrite str_split_no_char by assumption.
    unfold serialization_from_extension, compression_from_extension,
      text_encoding_from_extension.
    rewrite HnS. cbn [bind].
    destruct (@_name_from_ext_unused (exts self compression_extensions) bT
                "compression extension" HdT HresT) as [e He].
    rewrite He.
    rewrite (@_name_from_ext_owner _ t bT _ HdT HgT HoT). reflexivity.
  - (* serializer alone *)
    cbn [bind append]. eexists; split; [reflexivity|].
    rewrite pipeline_from_extension_by_segments; unfold resolve_by_segments.
    rewrite lstrip_dot_body by assumption. rewrite append_empty_r.
    rewrite str_split_no_char by assumption.
    unfold serialization_from_extension. rewrite HnS. reflexivity.
Qed.

(** [_get_extension] in terms of the canonical extension: the text
    extension is part of it under [text or always_use_text_encoding]
    only. *)
Lemma _get_extension_canonical (fp : FlexiblePersist) (text : bool) :
  (text || _always_use_text_encoding fp = false ->
   _get_extension fp text
   = canonical_extension (_io_registry fp) (_serialization fp, _compression fp, None))
  /\ (text || _always_use_text_encoding fp = true -> _text_encoding fp <> None ->
      _get_extension fp text
      = canonical_extension (_io_registry fp)
          (_serialization fp, _compression fp, _text_encoding fp)).
Proof.
  unfold _get_extension, canonical_extension. split.
  - intros ->.
    destruct (chain_subscript _ (Some (_serialization fp))) as [h|]; [|reflexivity].
    cbn [bind]. destruct (_compression fp) as [c|]; cbn [bind].
    + destruct (chain_subscript _ (Some c)) as [m|]; [|reflexivity].
      cbn [bind]. now rewrite append_empty_r.
    + now rewrite append_empty_r.
  - intros -> Ht.
    destruct (chain_subscript _ (Some (_serialization fp))) as [h|]; [|reflexivity].
    cbn [bind]. destruct (_text_encoding fp) as [t|]; [|congruence].
    destruct (_compression fp) as [c|]; cbn [bind].
    + destruct (chain_subscript _ (Some c)) as [m|]; [|reflexivity].
      cbn [bind]. destruct (chain_subscript _ (Some t)) as [x|]; [|reflexivity].
      cbn [bind]. now rewrite append_assoc.
    + destruct (chain_subscript _ (Some t)) as [x|]; reflexivity.
Qed.

Lemma resolvable_without_text (self : IORegistry) (S : string) (C T : option string) :
  resolvable self (S, C, T) = true -> resolvable self (S, C, None) = true.
Proof.
  unfold resolvable.
  destruct (owned_body (exts self serialization_extensions) S); [|discriminate].
  intros H. apply andb_prop in H as [H _]. now rewrite H.
Qed.

(** The extension a table has for a name that may not be set: nothing is
    added for a name that is not set. *)
Definition extension_of (m : ChainMap string) (name : option string) : option string :=
  match name with
  | Some k => chain_get m k
  | None => Some EmptyString
  end.

Lemma canonical_extension_parts (self : IORegistry) (S : string) (C T : option string)
    (e : string) :
  canonical_extension self (S, C, T) = Ok e ->
  exists eS eC eT,
    chain_get (exts self serialization_extensions) S = Some eS
    /\ extension_of (exts self compression_extensions) C = Some eC
    /\ extension_of (exts self text_extensions) T = Some eT
    /\ e = (eS ++ eC ++ eT)%string.
Proof.
  unfold canonical_extension, chain_subscript, extension_of.
  destruct (chain_get (exts self serialization_extensions) S) as [eS|]; [|discriminate].
  cbn [bind]. intros H. exists eS.
  destruct C as [c|], T as [t|];
    repeat match type of H with
           | context [chain_get ?m ?k] => destruct (chain_get m k); [|discriminate H]
           end;
    cbn [bind] in H; inversion H; eauto 8.
Qed.

(** C3, as the code has it: in a registry where the extensions of the
    specification can be told apart (each of them a dot and a body without
    dots that no other name of its kind has, the serializer's body not
    empty, and, without a compression, the text extension not a compression
    extension as well), the canonical extension, the serializer's extension
    followed by the compression's and the text encoding's where they are
    set, resolves to the specification.  On a facade built from the
    specification the canonical extension is [text_extension] when a text
    encoding is set and [extension] when none is set or
    [always_use_text_encoding] is; under the default
    [always_use_text_encoding=False] the [extension] of a facade with a text
    encoding leaves the text extension out and resolves to the
    specification without the text encoding. *)
Theorem canonical_extension_resolves_to_spec (self : IORegistry)
    (S : string) (C T : option string) :
  resolvable self (S, C, T) = true ->
  exists eS eC eT,
    chain_get (exts self serialization_extensions) S = Some eS
    /\ extension_of (exts self compression_extensions) C = Some eC
    /\ extension_of (exts self text_extensions) T = Some eT
    /\ canonical_extension self (S, C, T) = Ok (eS ++ eC ++ eT)%string
    /\ pipeline_from_extension self (eS ++ eC ++ eT) = Ok (S, C, T)
    /\ pipeline_from_extension self (eS ++ eC) = Ok (S, C, None)
    /\ forall (cache cache' : pipeline_cache) (always : bool) (fp : FlexiblePersist),
         FlexiblePersist_init S C T None None None None always self cache
           = (Ok fp, cache') ->
         (T <> None -> text_extension fp = Ok (eS ++ eC ++ eT)%string)
         /\ (T = None \/ always = true -> extension fp = Ok (eS ++ eC ++ eT)%string)
         /\ (always = false -> extension fp = Ok (eS ++ eC)%string).
Proof.
  intros Hres.
  destruct (canonical_extension_resolves _ _ _ _ Hres) as (e & He & Hpe).
  destruct (canonical_extension_resolves _ _ _ _ (resolvable_without_text _ _ _ _ Hres))
    as (e' & He' & Hpe').
  destruct (canonical_extension_parts _ _ _ _ He) as (eS & eC & eT & HS & HC & HT & ->).
  destruct (canonical_extension_parts _ _ _ _ He') as (eS' & eC' & eT' & HS' & HC' & HT' & ->).
  assert (eS' = eS) by congruence. assert (eC' = eC) by congruence.
  assert (eT' = "") by (cbn [extension_of] in HT'; congruence).
  subst eS' eC' eT'. rewrite append_empty_r in He', Hpe'.
  exists eS, eC, eT. repeat (split; [assumption|]).
  intros cache cache' always fp Hinit.
  assert (Halways : always = true -> T <> None).
  { intros -> ->. unfold FlexiblePersist_init in Hinit. cbn in Hinit. discriminate Hinit. }
  apply FlexiblePersist_init_fields in Hinit as (Hr & HS0 & HC0 & HT0 & Ha).
  unfold text_extension, extension.
  destruct (_get_extension_canonical fp true) as [_ Htrue].
  destruct (_get_extension_canonical fp false) as [Hfalse0 Hfalse1].
  rewrite Hr, HS0, HC0, HT0, Ha in *. cbn [orb] in *.
  split; [|split].
  - intros Ht. now rewrite Htrue.
  - intros [-> | ->].
    + destruct always.
      * exfalso. now apply Halways.
      * rewrite Hfalse0 by reflexivity. cbn [extension_of] in HT.
        assert (eT = "") by congruence. subst eT. now rewrite append_empty_r.
    + rewrite Hfalse1; [exact He|reflexivity|now apply Halways].
  - intros ->. now rewrite Hfalse0.
Qed.

Lemma canonical_extension_resolves_to_spec_witness :
  exists fp cache',
    FlexiblePersist_init "pickle" (Some "gzip") (Some "base85") None None None None
      false (DefaultIORegistry false) [] = (Ok fp, cache')
    /\ canonical_extension (DefaultIORegistry false)
         ("pickle", Some "gzip", Some "base85") = Ok ".pkl.gzip.b85"
    /\ text_extension fp = Ok ".pkl.gzip.b85"
    /\ pipeline_from_extension (DefaultIORegistry false) ".pkl.gzip.b85"
       = Ok ("pickle", Some "gzip", Some "base85")
    /\ extension fp = Ok ".pkl.gzip"
    /\ pipeline_from_extension (DefaultIORegistry false) ".pkl.gzip"
       = Ok ("pickle", Some "gzip", None).
Proof.
  destruct (@FlexiblePersist_init_returns "pickle" (Some "gzip") (Some "base85") false
              (DefaultIORegistry false) eq_refl) as [fp [cache' E]].
  destruct (@canonical_extension_resolves_to_spec (DefaultIORegistry false) "pickle"
              (Some "gzip") (Some "base85") eq_refl)
    as (eS & eC & eT & HS & HC & HT & H1 & H2 & H4 & H5).
  destruct (H5 _ _ _ _ E) as (H6 & _ & H7).
  assert (eS = ".pkl") by (vm_compute in HS; congruence).
  assert (eC = ".gzip") by (vm_compute in HC; congruence).
  assert (eT = ".b85") by (vm_compute in HT; congruence).
  subst eS eC eT. exists fp, cache'.
  split; [exact E|]. split; [exact H1|]. split; [apply H6; discriminate|].
  split; [exact H2|]. split; [now apply H7|exact H4].
Defined.

(** C3 as stated fails: nothing keeps two names of a kind from having the
    same extension.  After a second compressor is registered with the
    extension of gzip, the pipeline of json with gzip still compiles, its
    canonical extension is [".json.gzip"] as before, and that extension
    resolves to the compressor registered last. *)
Lemma shared_extension_resolves_to_other_name :
  exists r p,
    register_compressor (DefaultIORegistry false) "fast"
      (Lambda rev_bytes) (Lambda rev_bytes) "gzip" = Ok r
    /\ compile_pipeline_body r "json" (Some "gzip") None = Ok p
    /\ canonical_extension r ("json", Some "gzip", None) = Ok ".json.gzip"
    /\ pipeline_from_extension r ".json.gzip" = Ok ("json", Some "fast", None).
Proof.
  destruct (@result_is_ok _ (register_compressor (DefaultIORegistry false) "fast"
                               (Lambda rev_bytes) (Lambda rev_bytes) "gzip") eq_refl)
    as [r Hr].
  assert (H : match register_compressor (DefaultIORegistry false) "fast"
                      (Lambda rev_bytes) (Lambda rev_bytes) "gzip" with
              | Ok r =>
                  is_ok (compile_pipeline_body r "json" (Some "gzip") None) = true
                  /\ canonical_extension r ("json", Some "gzip", None) = Ok ".json.gzip"
                  /\ pipeline_from_extension r ".json.gzip"
                     = Ok ("json", Some "fast", None)
              | Err _ => False
              end) by (vm_compute; repeat split).
  rewrite Hr in H. destruct H as (H1 & H2 & H3).
  destruct (result_is_ok _ H1) as [p Hp].
  exists r, p. repeat split; assumption.
Qed.

(* ------------------------------------------------------------------ *)
(** ** Compilation failures and the memo table *)

(** A registry and the memo table of its [compile_pipeline], as they evolve
    from a fresh registry: codecs are registered and pipelines compiled, in
    any order. *)
Definition state : Type := (IORegistry * pipeline_cache)%type.

Inductive step : state -> state -> Prop :=
| step_register_compressor (r r' : IORegistry) (c : pipeline_cache)
    (name extension : string) (f g : pyobj) :
    register_compressor r name f g extension = Ok r' -> step (r, c) (r', c)
| step_register_text_encoder (r r' : IORegistry) (c : pipeline_cache)
    (name extension : string) (f g : pyobj) (binary : bool) :
    register_text_encoder r name extension f g binary = Ok r' -> step (r, c) (r', c)
| step_register_serializer (r r' : IORegistry) (c : pipeline_cache)
    (name extension : string) (f g h k : pyobj) (binary : bool) :
    register_serializer r name extension f g h k binary = Ok r' -> step (r, c) (r', c)
| step_compile (r : IORegistry) (c c' : pipeline_cache) (serialization : string)
    (compression text_encoding : option string) (k1 k2 k3 k4 : kwargs)
    (res : result compiled) :
    compile_pipeline r c serialization compression text_encoding k1 k2 k3 k4 = (res, c') ->
    step (r, c) (r, c').

Inductive reachable (cls : IORegistryClass) (enc : CharCodec) : state -> Prop :=
| reachable_init : reachable cls enc (IORegistry_init cls enc, [])
| reachable_step (s s' : state) : reachable cls enc s -> step s s' -> reachable cls enc s'.

(** Every memoized specification names a serialization the registry knows. *)
Definition cache_sound (s : state) : Prop :=
  forall key p, In (key, p) (snd s) ->
    is_ok (is_binary_serialization (fst s) (fst (fst key))) = true.

(** Registration only adds names. *)
Definition names_kept (r r' : IORegistry) : Prop :=
  forall a k, chain_mem (fns r a) k = true -> chain_mem (fns r' a) k = true.

Lemma dict_mem_set_mono {V : Type} (d : dict V) (k k' : string) (v : V) :
  dict_mem d k' = true -> dict_mem (dict_set d k v) k' = true.
Proof.
  unfold dict_mem. destruct (String.eqb_spec k' k) as [->|Hne].
  - now rewrite dict_get_set_same.
  - now rewrite dict_get_set_other.
Qed.

Lemma names_kept_refl (r : IORegistry) : names_kept r r.
Proof. intros a k H; exact H. Qed.

Lemma names_kept_trans (a b c : IORegistry) :
  names_kept a b -> names_kept b c -> names_kept a c.
Proof. intros H1 H2 x k H. apply H2, H1, H. Qed.

Lemma names_kept_set_fn (r : IORegistry) (a : fn_attr) (k : string) (v : pyobj) :
  names_kept r (set_fn r a k v).
Proof.
  intros a' k' H. simpl. destruct (fn_attr_eqb a' a); [|exact H].
  unfold chain_mem in *. simpl. apply orb_true_iff in H as [H|H].
  - now rewrite dict_mem_set_mono.
  - rewrite H. apply orb_true_r.
Qed.

Lemma names_kept_set_ext (r : IORegistry) (a : ext_attr) (k v : string) :
  names_kept r (set_ext r a k v).
Proof. intros a' k' H; exact H. Qed.

Lemma names_kept_add_return_str (r : IORegistry) (name : string) :
  names_kept r (add_return_str r name).
Proof. intros a' k' H; exact H. Qed.

#[local] Hint Resolve names_kept_refl names_kept_set_fn names_kept_set_ext
  names_kept_add_return_str : registry.

Ltac chain_names :=
  repeat (eapply names_kept_trans; [|solve [eauto with registry]]);
  eauto with registry.

Lemma register_compressor_keeps_names (r r' : IORegistry) (name extension : string)
    (f g : pyobj) :
  register_compressor r name f g extension = Ok r' -> names_kept r r'.
Proof.
  unfold register_compressor.
  destruct (_ || _); [discriminate|].
  destruct (check_callables _) as [[]|e]; simpl; [|discriminate].
  intros H; inversion H; subst. chain_names.
Qed.

Lemma register_text_encoder_keeps_names (r r' : IORegistry) (name extension : string)
    (f g : pyobj) (binary : bool) :
  register_text_encoder r name extension f g binary = Ok r' -> names_kept r r'.
Proof.
  unfold register_text_encoder.
  destruct (_ || _); [discriminate|].
  destruct (check_callables _) as [[]|e]; simpl; [|discriminate].
  intros H; inversion H; subst. destruct binary; simpl; chain_names.
Qed.

Lemma register_serializer_keeps_names (r r' : IORegistry) (name extension : string)
    (f g h k : pyobj) (binary : bool) :
  register_serializer r name extension f g h k binary = Ok r' -> names_kept r r'.
Proof.
  unfold register_serializer.
  destruct binary;
    (destruct (_ || _); [discriminate|]);
    (destruct (check_callables _) as [[]|e]; simpl; [|discriminate]);
    intros H; inversion H; subst; chain_names.
Qed.

Lemma is_binary_serialization_kept (r r' : IORegistry) (name : string) :
  names_kept r r' ->
  is_ok (is_binary_serialization r name) = true ->
  is_ok (is_binary_serialization r' name) = true.
Proof.
  intros Hk. unfold is_binary_serialization.
  destruct (chain_mem (fns r loaders) name) eqn:H1.
  - now rewrite (Hk _ _ H1).
  - destruct (chain_mem (fns r text_loaders) name) eqn:H2; [|discriminate].
    rewrite (Hk _ _ H2). now destruct (chain_mem (fns r' loaders) name).
Qed.

Lemma compile_pipeline_body_known (r : IORegistry) (S : string) (C T : option string)
    (p : compiled) :
  compile_pipeline_body r S C T = Ok p ->
  is_ok (is_binary_serialization r S) = true.
Proof.
  unfold compile_pipeline_body.
  destruct (is_binary_serialization r S); [reflexivity|discriminate].
Qed.

Lemma compile_pipeline_cache (r : IORegistry) (c c' : pipeline_cache) (S : string)
    (C T : option string) (k1 k2 k3 k4 : kwargs) (res : result compiled) :
  compile_pipeline r c S C T k1 k2 k3 k4 = (res, c') ->
  c' = c
  \/ (exists p, compile_pipeline_body r S C T = Ok p /\ res = Ok p /\ c' = ((S, C, T), p) :: c).
Proof.
  unfold compile_pipeline.
  destruct k1, k2, k3, k4; try (intros H; inversion H; now left).
  destruct (cache_get c (S, C, T)); [intros H; inversion H; now left|].
  destruct (compile_pipeline_body r S C T) as [p|e] eqn:E; intros H; inversion H; subst.
  - right. eauto.
  - now left.
Qed.

Lemma step_keeps_cache_sound (s s' : state) :
  cache_sound s -> step s s' -> cache_sound s'.
Proof.
  intros Hs Hstep. destruct Hstep; unfold cache_sound in *; simpl in *.
  - intros key p Hin. eapply is_binary_serialization_kept;
      [eapply register_compressor_keeps_names; eauto|eauto].
  - intros key p Hin. eapply is_binary_serialization_kept;
      [eapply register_text_encoder_keeps_names; eauto|eauto].
  - intros key p Hin. eapply is_binary_serialization_kept;
      [eapply register_serializer_keeps_names; eauto|eauto].
  - apply compile_pipeline_cache in H as [->|(p & Hb & _ & ->)]; [exact Hs|].
    intros key q [Hin|Hin]; [|eauto].
    inversion Hin; subst; simpl. eapply compile_pipeline_body_known; eauto.
Qed.

Lemma reachable_cache_sound (cls : IORegistryClass) (enc : CharCodec) (s : state) :
  reachable cls enc s -> cache_sound s.
Proof.
  induction 1 as [|s s' _ IH Hstep].
  - intros key p [].
  - eapply step_keeps_cache_sound; eauto.
Qed.

Lemma spec_eqb_eq (a b : spec) : spec_eqb a b = true -> a = b.
Proof.
  destruct a as [[s1 c1] t1], b as [[s2 c2] t2]. simpl.
  intros H. apply andb_prop in H as [H Ht]. apply andb_prop in H as [Hs Hc].
  apply String.eqb_eq in Hs. subst.
  destruct c1, c2; try discriminate; destruct t1, t2; try discriminate;
    repeat match goal with
           | H : String.eqb _ _ = true |- _ => apply String.eqb_eq in H; subst
           end; reflexivity.
Qed.

Lemma cache_get_In (c : pipeline_cache) (key : spec) (p : compiled) :
  cache_get c key = Some p -> In (key, p) c.
Proof.
  induction c as [|[k v] c IH]; simpl; [discriminate|].
  destruct (spec_eqb k key) eqn:E.
  - intros H; inversion H; subst. left. now rewrite (spec_eqb_eq _ _ E).
  - intros H. right. now apply IH.
Qed.



(* ------------------------------------------------------------------ *)
(** ** The compiled chains *)

(** The stages of the forward chain in the order they are applied, and the
    stages of the inverse chain in the order they are listed (the last one
    is applied first). *)
Definition forward_stages (self : IORegistry) (binary : bool) (ser : pyobj)
    (comp enc : option pyobj) : list pyobj :=
  [ser]
  ++ match comp with
     | Some c => (if binary then [] else [str_to_bytes_default self]) ++ [c]
     | None => []
     end
  ++ match enc with
     | Some e =>
         (if negb binary && is_None comp then [str_to_bytes_default self] else []) ++ [e]
     | None => []
     end.

Definition backward_stages (self : IORegistry) (binary : bool) (deser : pyobj)
    (decomp dec : option pyobj) : list pyobj :=
  [deser]
  ++ match decomp with
     | Some d => (if binary then [] else [bytes_to_str_default self]) ++ [d]
     | None => []
     end
  ++ match dec with
     | Some d =>
         (if negb binary && is_None decomp then [bytes_to_str_default self] else []) ++ [d]
     | None => []
     end.

Definition lookup_opt {A : Type} (f : string -> result A) (o : option string)
  : result (option A) :=
  match o with
  | Some n => a <- f n ;; Ok (Some a)
  | None => Ok None
  end.

Definition assemble (self : IORegistry) (binary : bool)
    (quad : pyobj * pyobj * pyobj * pyobj) (comp enc : option (pyobj * pyobj)) : compiled :=
  let '(ser, deser, fser, fdeser) := quad in
  let fwd := forward_stages self binary ser (option_map fst comp) (option_map fst enc) in
  let bwd := backward_stages self binary deser (option_map snd comp) (option_map snd enc) in
  let mode := match enc, comp with
              | Some _, _ => ""
              | None, Some _ => "b"
              | None, None => if binary then "b" else ""
              end in
  match comp, enc with
  | None, None => mkCompiled (compose (rev fwd)) (compose bwd) fser fdeser mode
  | _, _ =>
      mkCompiled (compose (rev fwd)) (compose bwd)
                 (StreamSerializer (compose (rev fwd))) (StreamDeserializer (compose bwd))
                 mode
  end.

Lemma compile_pipeline_body_eq (self : IORegistry) (S : string) (C T : option string) :
  compile_pipeline_body self S C T
  = (binary <- is_binary_serialization self S ;;
     quad <- (if binary then get_serializer_pairs else get_text_serializer_pairs) self S ;;
     comp <- lookup_opt (get_compressor_pair self) C ;;
     enc <- lookup_opt (get_text_encoder_pair self) T ;;
     Ok (assemble self binary quad comp enc)).
Proof.
  unfold compile_pipeline_body.
  destruct (is_binary_serialization self S) as [binary|e]; simpl; [|reflexivity].
  destruct ((if binary then get_serializer_pairs else get_text_serializer_pairs) self S)
    as [[[[ser deser] fser] fdeser]|e]; simpl; [|reflexivity].
  destruct C as [c|]; simpl.
  - destruct (get_compressor_pair self c) as [[a b]|e]; simpl; [|reflexivity].
    destruct T as [t|]; simpl.
    + destruct (get_text_encoder_pair self t) as [[a' b']|e]; simpl; [|reflexivity].
      destruct binary; reflexivity.
    + destruct binary; reflexivity.
  - destruct T as [t|]; simpl.
    + destruct (get_text_encoder_pair self t) as [[a' b']|e]; simpl; [|reflexivity].
      destruct binary; reflexivity.
    + destruct binary; reflexivity.
Qed.

Section Chains.
Variable lib : Lib.

(** Apply the functions of a list from the last to the first. *)
Definition run_chain (fs : list pyobj) (x : value) : result value :=
  fold_right (fun f acc => y <- acc ;; call1 lib f y) (Ok x) fs.

Lemma call1_Compose (fs : list pyobj) (x : value) :
  call1 lib (Compose fs) x = run_chain fs x.
Proof.
  simpl. induction fs as [|f fs IH]; simpl; [reflexivity|].
  now rewrite IH.
Qed.

Lemma call1_compose (fs : list pyobj) (x : value) :
  call1 lib (compose fs) x = run_chain fs x.
Proof.
  destruct fs as [|f [|g fs]]; try apply call1_Compose.
  reflexivity.
Qed.

Lemma run_chain_app (fs gs : list pyobj) (x : value) :
  run_chain (fs ++ gs) x = (y <- run_chain gs x ;; run_chain fs y).
Proof.
  induction fs as [|f fs IH]; simpl.
  - destruct (run_chain gs x); reflexivity.
  - rewrite IH. destruct (run_chain gs x); reflexivity.
Qed.

Lemma bytes_decode_str (enc : CharCodec) (v y : value) :
  bytes_decode enc v = Ok y -> is_str y = true.
Proof.
  destruct v; simpl; try discriminate.
  destruct (cc_decode enc b); intros H; inversion H; reflexivity.
Qed.

Lemma str_encode_needs_str (enc : CharCodec) (v : value) :
  is_str v = false -> is_ok (str_encode enc v) = false.
Proof. destruct v; simpl; intros H; try reflexivity; discriminate. Qed.

End Chains.

Lemma get_text_encoder_pair_inv (self : IORegistry) (T : string) (e d : pyobj) :
  get_text_encoder_pair self T = Ok (e, d) ->
  exists encoder decoder,
    chain_get (fns self text_encoders) T = Some encoder
    /\ chain_get (fns self text_decoders) T = Some decoder
    /\ (if set_mem (text_encoders_return_str self) T
        then e = encoder /\ d = decoder
        else e = Compose [bytes_to_str_default self; encoder]
             /\ d = Compose [decoder; str_to_bytes_default self]).
Proof.
  unfold get_text_encoder_pair, _get_lambda. simpl mget.
  destruct (chain_get (fns self text_encoders) T) as [encoder|]; simpl; [|discriminate].
  destruct (chain_get (fns self text_decoders) T) as [decoder|]; simpl; [|discriminate].
  destruct (set_mem (text_encoders_return_str self) T); simpl;
    intros H; inversion H; subst; eauto 6.
Qed.

Lemma forward_stages_last (self : IORegistry) (binary : bool) (ser : pyobj)
    (comp : option pyobj) (e : pyobj) :
  exists rest, rev (forward_stages self binary ser comp (Some e)) = e :: rest.
Proof.
  unfold forward_stages. rewrite !app_assoc, rev_app_distr. simpl. eauto.
Qed.

Lemma backward_stages_last (self : IORegistry) (binary : bool) (deser : pyobj)
    (decomp : option pyobj) (d : pyobj) :
  exists front, backward_stages self binary deser decomp (Some d) = front ++ [d].
Proof.
  unfold backward_stages. rewrite !app_assoc. eauto.
Qed.


(** What the sample registry holds. *)
Lemma sample_registry_tables :
  is_binary_serialization sample_registry "raw" = Ok true
  /\ is_binary_serialization sample_registry "plain" = Ok false
  /\ chain_get (fns sample_registry dumpers) "raw" = Some raw_dumps
  /\ chain_get (fns sample_registry loaders) "raw" = Some raw_loads
  /\ chain_get (fns sample_registry text_dumpers) "plain" = Some plain_dumps
  /\ chain_get (fns sample_registry text_loaders) "plain" = Some plain_loads
  /\ chain_get (fns sample_registry compressors) "rev" = Some (Lambda rev_bytes)
  /\ chain_get (fns sample_registry decompressors) "rev" = Some (Lambda rev_bytes)
  /\ chain_get (fns sample_registry text_encoders) "ident" = Some (Lambda bytes_only)
  /\ chain_get (fns sample_registry text_decoders) "ident" = Some (Lambda bytes_only)
  /\ chain_get (fns sample_registry text_encoders) "halves" = Some (Lambda halves_encode)
  /\ chain_get (fns sample_registry text_decoders) "halves" = Some (Lambda halves_decode)
  /\ chain_get (fns sample_registry text_encoders) "latin" = Some (Lambda latin_encode)
  /\ chain_get (fns sample_registry text_decoders) "latin" = Some (Lambda latin_decode)
  /\ text_encoders_return_str sample_registry = ["latin"].
Proof. repeat split. Qed.



(* ------------------------------------------------------------------ *)
(** ** Round trip of a compiled pipeline *)

(** The kind of data a codec registered as binary, or as text, returns. *)
Definition kind_of (binary : bool) : value -> bool :=
  if binary then is_bytes else is_str.

Section Contracts.
Variable lib : Lib.

(** The stage contract: on every input of its kind [forward] returns a
    value of the kind it is registered with, and [inverse] gives the input
    back. *)
Definition codec_contract (forward inverse : pyobj) (dom cod : value -> bool) : Prop :=
  forall x, dom x = true ->
    exists y, call1 lib forward x = Ok y /\ cod y = true /\ call1 lib inverse y = Ok x.

(** [x] is serializable by the serializer registered as [S], which returns
    the kind of data it is registered with and whose deserializer gives [x]
    back. *)
Definition serializer_contract (self : IORegistry) (S : string) (x : value) : Prop :=
  forall binary ser deser,
    is_binary_serialization self S = Ok binary ->
    chain_get (fns self (dumpers_of binary)) S = Some ser ->
    chain_get (fns self (loaders_of binary)) S = Some deser ->
    exists y, call1 lib ser x = Ok y /\ kind_of binary y = true /\ call1 lib deser y = Ok x.

Definition compressor_contract (self : IORegistry) (C : option string) : Prop :=
  forall c f g,
    C = Some c ->
    chain_get (fns self compressors) c = Some f ->
    chain_get (fns self decompressors) c = Some g ->
    codec_contract f g is_bytes is_bytes.

Definition text_encoder_contract (self : IORegistry) (T : option string) : Prop :=
  forall t f g,
    T = Some t ->
    chain_get (fns self text_encoders) t = Some f ->
    chain_get (fns self text_decoders) t = Some g ->
    codec_contract f g is_bytes (kind_of (negb (set_mem (text_encoders_return_str self) t))).

(** The two places where the compiler puts the registry's character
    encoding between stages: a text encodes to bytes that decode to it, and
    bytes decode to a text that encodes to them. *)
Definition text_round_trips (enc : CharCodec) (s : ustring) : Prop :=
  exists b, cc_encode enc s = Some b /\ cc_decode enc b = Some s.

Definition bytes_round_trip (enc : CharCodec) (b : bytes) : Prop :=
  exists s, cc_decode enc b = Some s /\ cc_encode enc s = Some b.

(** The output of a text serializer that goes on to a compressor or a text
    encoder passes the first bridge, and whatever a binary text encoder
    returns passes the second. *)
Definition bridges_contract (self : IORegistry) (S : string) (C T : option string)
    (x : value) : Prop :=
  (forall ser s,
      is_binary_serialization self S = Ok false ->
      is_None C && is_None T = false ->
      chain_get (fns self text_dumpers) S = Some ser ->
      call1 lib ser x = Ok (VStr s) ->
      text_round_trips (char_encoding self) s)
  /\ (forall t f v b,
      T = Some t ->
      set_mem (text_encoders_return_str self) t = false ->
      chain_get (fns self text_encoders) t = Some f ->
      call1 lib f v = Ok (VBytes b) ->
      bytes_round_trip (char_encoding self) b).

(** One stage and its inverse on the value that reaches it. *)
Definition stage_ok (f g : pyobj) (x y : value) : Prop :=
  call1 lib f x = Ok y /\ call1 lib g y = Ok x.

(** A list of stages applied in order from [x] reaches [z], and at every
    stage the inverse undoes the step taken. *)
Inductive stagewise : list pyobj -> list pyobj -> value -> value -> Prop :=
| stagewise_nil (x : value) : stagewise [] [] x x
| stagewise_cons (f g : pyobj) (fs gs : list pyobj) (x y z : value) :
    stage_ok f g x y -> stagewise fs gs y z -> stagewise (f :: fs) (g :: gs) x z.

Lemma stagewise_app (fs gs fs' gs' : list pyobj) (x y z : value) :
  stagewise fs gs x y -> stagewise fs' gs' y z -> stagewise (fs ++ fs') (gs ++ gs') x z.
Proof.
  induction 1 as [x|f g fs gs x y0 y Hs Hrest IH]; intros H2; simpl; [exact H2|].
  econstructor; eauto.
Qed.

Lemma stagewise_one (f g : pyobj) (x y : value) :
  stage_ok f g x y -> stagewise [f] [g] x y.
Proof. intros H. econstructor; [exact H|constructor]. Qed.

(** The compositional core: when every stage is undone by its inverse, the
    chain of the inverses undoes the chain of the stages. *)
Lemma stagewise_round_trip (fs gs : list pyobj) (x z : value) :
  stagewise fs gs x z ->
  run_chain lib (rev fs) x = Ok z /\ run_chain lib gs z = Ok x.
Proof.
  induction 1 as [x|f g fs gs x y z [Hf Hg] Hrest [IH1 IH2]]; [split; reflexivity|].
  split.
  - simpl rev. rewrite run_chain_app. simpl. rewrite Hf. simpl. exact IH1.
  - simpl. rewrite IH2. simpl. exact Hg.
Qed.

Lemma bridge_stage (enc : CharCodec) (s : ustring) :
  text_round_trips enc s ->
  exists b, stage_ok (StrEncode enc) (BytesDecode enc) (VStr s) (VBytes b).
Proof.
  intros [b [He Hd]]. exists b. unfold stage_ok. simpl. now rewrite He, Hd.
Qed.

Lemma codec_stage (f g : pyobj) (dom cod : value -> bool) (x : value) :
  codec_contract f g dom cod -> dom x = true ->
  exists y, cod y = true /\ stage_ok f g x y.
Proof. intros H Hx. destruct (H x Hx) as (y & H1 & H2 & H3). exists y. split; [|split]; auto. Qed.

End Contracts.

Lemma forward_stages_eq (self : IORegistry) (binary : bool) (ser : pyobj)
    (comp enc : option (pyobj * pyobj)) :
  forward_stages self binary ser (option_map fst comp) (option_map fst enc)
  = [ser]
    ++ (if negb binary && negb (is_None comp && is_None enc)
        then [str_to_bytes_default self] else [])
    ++ match comp with Some c => [fst c] | None => [] end
    ++ match enc with Some e => [fst e] | None => [] end.
Proof. destruct binary, comp, enc; reflexivity. Qed.

Lemma backward_stages_eq (self : IORegistry) (binary : bool) (deser : pyobj)
    (comp enc : option (pyobj * pyobj)) :
  backward_stages self binary deser (option_map snd comp) (option_map snd enc)
  = [deser]
    ++ (if negb binary && negb (is_None comp && is_None enc)
        then [bytes_to_str_default self] else [])
    ++ match comp with Some c => [snd c] | None => [] end
    ++ match enc with Some e => [snd e] | None => [] end.
Proof. destruct binary, comp, enc; reflexivity. Qed.

Lemma assemble_chains (self : IORegistry) (binary : bool) (ser deser fser fdeser : pyobj)
    (comp enc : option (pyobj * pyobj)) :
  to_str (assemble self binary (ser, deser, fser, fdeser) comp enc)
  = compose (rev (forward_stages self binary ser (option_map fst comp) (option_map fst enc)))
  /\ from_str (assemble self binary (ser, deser, fser, fdeser) comp enc)
     = compose (backward_stages self binary deser (option_map snd comp) (option_map snd enc)).
Proof. destruct comp, enc; split; reflexivity. Qed.

Lemma serializer_pairs_inv (self : IORegistry) (binary : bool) (S : string)
    (ser deser fser fdeser : pyobj) :
  (if binary then get_serializer_pairs else get_text_serializer_pairs) self S
  = Ok (ser, deser, fser, fdeser) ->
  chain_get (fns self (dumpers_of binary)) S = Some ser
  /\ chain_get (fns self (loaders_of binary)) S = Some deser
  /\ chain_get (fns self (file_dumpers_of binary)) S = Some fser
  /\ chain_get (fns self (file_loaders_of binary)) S = Some fdeser.
Proof.
  destruct binary; simpl;
    unfold get_serializer_pairs, get_text_serializer_pairs, _get_lambda; simpl mget;
    repeat match goal with
           | |- context [chain_get ?m ?k] => destruct (chain_get m k); simpl; try discriminate
           end;
    intros H; inversion H; subst; auto.
Qed.

Lemma compressor_pair_inv (self : IORegistry) (C : option string)
    (comp : option (pyobj * pyobj)) :
  lookup_opt (get_compressor_pair self) C = Ok comp ->
  match comp with
  | Some (f, g) =>
      exists c, C = Some c
                /\ chain_get (fns self compressors) c = Some f
                /\ chain_get (fns self decompressors) c = Some g
  | None => C = None
  end.
Proof.
  destruct C as [c|]; simpl; [|intros H; inversion H; reflexivity].
  unfold get_compressor_pair, _get_lambda. simpl mget.
  destruct (chain_get (fns self compressors) c) eqn:Hf; simpl; [|discriminate].
  destruct (chain_get (fns self decompressors) c) eqn:Hg; simpl; [|discriminate].
  intros H; inversion H; subst. eauto.
Qed.

Lemma text_encoder_pair_inv (self : IORegistry) (T : option string)
    (enc : option (pyobj * pyobj)) :
  lookup_opt (get_text_encoder_pair self) T = Ok enc ->
  match enc with
  | Some (e, d) => exists t, T = Some t /\ get_text_encoder_pair self t = Ok (e, d)
  | None => T = None
  end.
Proof.
  destruct T as [t|]; simpl; [|intros H; inversion H; reflexivity].
  destruct (get_text_encoder_pair self t) as [[e d]|] eqn:E; simpl; [|discriminate].
  intros H; inversion H; subst. eauto.
Qed.

Lemma is_bytes_inv (v : value) : is_bytes v = true -> exists b, v = VBytes b.
Proof. destruct v; simpl; try discriminate; eauto. Qed.

Lemma is_str_inv (v : value) : is_str v = true -> exists s, v = VStr s.
Proof. destruct v; simpl; try discriminate; eauto. Qed.

(** C1, as the code has it: the pipeline compiled from (S, C, T) gives back
    every object [x] that S serializes, when S, C and T keep their stage
    contracts and return the kind of data they are registered with, and
    when, besides, the registry's character encoding carries the data
    across the two implicit bridges: the text a text serializer returns
    encodes to bytes that decode to it, and the bytes a binary text encoder
    returns decode to a text that encodes to them. *)
Theorem compiled_pipeline_round_trips (lib : Lib) (self : IORegistry) (S : string)
    (C T : option string) (p : compiled) (x : value) :
  compile_pipeline_body self S C T = Ok p ->
  serializer_contract lib self S x ->
  compressor_contract lib self C ->
  text_encoder_contract lib self T ->
  bridges_contract lib self S C T x ->
  exists y, call1 lib (to_str p) x = Ok y /\ call1 lib (from_str p) y = Ok x.
Proof.
  intros Hc HS HC HT [HB1 HB2]. rewrite compile_pipeline_body_eq in Hc.
  destruct (is_binary_serialization self S) as [binary|] eqn:Hbin; cbn [bind] in Hc;
    [|discriminate].
  destruct ((if binary then get_serializer_pairs else get_text_serializer_pairs) self S)
    as [[[[ser deser] fser] fdeser]|] eqn:Hq; cbn [bind] in Hc; [|discriminate].
  destruct (lookup_opt (get_compressor_pair self) C) as [comp|] eqn:Hcomp; cbn [bind] in Hc;
    [|discriminate].
  destruct (lookup_opt (get_text_encoder_pair self) T) as [enc|] eqn:Henc; cbn [bind] in Hc;
    [|discriminate].
  assert (Hp : assemble self binary (ser, deser, fser, fdeser) comp enc = p) by congruence.
  subst p. clear Hc.
  destruct (assemble_chains self binary ser deser fser fdeser comp enc) as [-> ->].
  rewrite forward_stages_eq, backward_stages_eq.
  apply serializer_pairs_inv in Hq as (Hser & Hdeser & _).
  apply compressor_pair_inv in Hcomp. apply text_encoder_pair_inv in Henc.
  (* the serializer *)
  destruct (HS binary ser deser Hbin Hser Hdeser) as (y1 & Hs1 & Hk1 & Hs1').
  (* the first bridge *)
  assert (H2 : exists y2,
             stagewise lib
               (if negb binary && negb (is_None comp && is_None enc)
                then [str_to_bytes_default self] else [])
               (if negb binary && negb (is_None comp && is_None enc)
                then [bytes_to_str_default self] else [])
               y1 y2
             /\ (negb (is_None comp && is_None enc) = true -> is_bytes y2 = true)).
  { destruct binary; simpl in *.
    - exists y1. split; [constructor|auto].
    - destruct (is_None comp && is_None enc) eqn:Hn; simpl.
      + exists y1. split; [constructor|discriminate].
      + apply is_str_inv in Hk1 as [s ->].
        assert (HCT : is_None C && is_None T = false).
        { destruct comp as [[f g]|]; [destruct Hcomp as (c & -> & _); reflexivity|].
          destruct enc as [[e d]|]; [|discriminate].
          destruct Henc as (t & -> & _). apply andb_false_r. }
        destruct (bridge_stage lib (HB1 ser s eq_refl HCT Hser Hs1)) as [b Hb].
        exists (VBytes b). split; [|reflexivity].
        apply stagewise_one. exact Hb. }
  destruct H2 as (y2 & Hst2 & Hb2).
  (* the compressor *)
  assert (H3 : exists y3,
             stagewise lib (match comp with Some c => [fst c] | None => [] end)
                       (match comp with Some c => [snd c] | None => [] end) y2 y3
             /\ (negb (is_None comp && is_None enc) = true -> is_bytes y3 = true)).
  { destruct comp as [[f g]|]; simpl in *.
    - destruct Hcomp as (c & -> & Hf & Hg).
      destruct (@codec_stage lib f g _ _ y2 (HC c f g eq_refl Hf Hg) (Hb2 eq_refl))
        as (y3 & Hk3 & Hs3).
      exists y3. split; [apply stagewise_one; exact Hs3|auto].
    - exists y2. split; [constructor|exact Hb2]. }
  destruct H3 as (y3 & Hst3 & Hb3).
  (* the text encoder *)
  assert (H4 : exists y4,
             stagewise lib (match enc with Some e => [fst e] | None => [] end)
                       (match enc with Some e => [snd e] | None => [] end) y3 y4).
  { destruct enc as [[e d]|]; simpl in *; [|exists y3; constructor].
    destruct Henc as (t & -> & Hpair).
    apply get_text_encoder_pair_inv in Hpair as (encoder & decoder & Hge & Hgd & Hed).
    assert (Hy3 : is_bytes y3 = true).
    { apply Hb3. destruct (is_None comp); reflexivity. }
    destruct (@codec_stage lib encoder decoder _ _ y3 (HT t encoder decoder eq_refl Hge Hgd)
                Hy3) as (y4 & Hk4 & Hs4 & Hs4').
    destruct (set_mem (text_encoders_return_str self) t) eqn:Hm; simpl in Hk4.
    - destruct Hed as [-> ->]. exists y4. apply stagewise_one. split; assumption.
    - destruct Hed as [-> ->]. apply is_bytes_inv in Hk4 as [b ->].
      destruct (HB2 t encoder y3 b eq_refl Hm Hge Hs4) as (s & Hd & He).
      exists (VStr s). apply stagewise_one. split.
      + rewrite call1_Compose. simpl. rewrite Hs4. simpl. now rewrite Hd.
      + rewrite call1_Compose. simpl. rewrite He. simpl. exact Hs4'. }
  destruct H4 as (y4 & Hst4).
  exists y4. rewrite !call1_compose.
  apply stagewise_round_trip.
  apply (stagewise_app (stagewise_one (conj Hs1 Hs1'))).
  apply (stagewise_app Hst2). apply (stagewise_app Hst3). exact Hst4.
Qed.

(** C1 as stated fails: "raw" and "ident" keep their stage contracts, and
    "ident" is registered as binary and returns bytes, yet the pipeline
    compiled from them raises on the object [b'\xff']: the decode that is
    added after a binary text encoder does not take its output. *)
Lemma binary_text_encoder_breaks_round_trip :
  serializer_contract no_lib sample_registry "raw" (VBytes [xff])
  /\ compressor_contract no_lib sample_registry None
  /\ text_encoder_contract no_lib sample_registry (Some "ident")
  /\ exists p,
       compile_pipeline_body sample_registry "raw" None (Some "ident") = Ok p
       /\ call1 no_lib (to_str p) (VBytes [xff]) = Err UnicodeDecodeError.
Proof.
  destruct sample_registry_tables
    as (Hraw & _ & Hd & Hl & _ & _ & _ & _ & He & Hdec & _ & _ & _ & _ & Hrs).
  split; [|split; [|split]].
  - intros binary ser deser Hb Hs Hld.
    rewrite Hraw in Hb. inversion Hb; subst binary.
    unfold dumpers_of in Hs. unfold loaders_of in Hld.
    rewrite Hd in Hs. rewrite Hl in Hld. inversion Hs; inversion Hld; subst.
    exists (VBytes [xff]). repeat split.
  - intros c f g H. discriminate H.
  - intros t f g Ht Hf Hg. inversion Ht; subst t.
    rewrite He in Hf. rewrite Hdec in Hg. inversion Hf; inversion Hg; subst.
    rewrite Hrs. intros x Hx. apply is_bytes_inv in Hx as [b ->].
    exists (VBytes b). repeat split.
  - destruct (@result_is_ok _ (compile_pipeline_body sample_registry "raw" None
                                 (Some "ident")) eq_refl) as [p Hp].
    exists p. split; [exact Hp|].
    assert (H : match compile_pipeline_body sample_registry "raw" None (Some "ident") with
                | Ok q => call1 no_lib (to_str q) (VBytes [xff])
                | Err e => Err e
                end = Err UnicodeDecodeError) by reflexivity.
    rewrite Hp in H. exact H.
Qed.

(** Seven-bit octets are their own UTF-8. *)
Definition seven_bit (b : bytes) : bool :=
  forallb (fun x => (Byte.to_N x <? 0x80)%N) b.

Lemma utf8_decode_seven_bit (b : bytes) :
  seven_bit b = true -> utf8_decode b = Some (map Byte.to_N b).
Proof.
  induction b as [|a b IH]; [reflexivity|].
  unfold seven_bit. cbn [forallb]. intros H. apply andb_prop in H as [Ha Hb].
  cbn [utf8_decode map]. cbv zeta. rewrite Ha, (IH Hb). reflexivity.
Qed.

Lemma utf8_encode_seven_bit (b : bytes) :
  seven_bit b = true -> utf8_encode (map Byte.to_N b) = Some b.
Proof.
  unfold utf8_encode.
  induction b as [|a b IH]; [reflexivity|].
  unfold seven_bit. cbn [forallb]. intros H. apply andb_prop in H as [Ha Hb].
  cbn [map concat_options]. unfold utf8_encode_cp at 1. rewrite Ha.
  unfold byte_of. rewrite Byte.of_to_N. rewrite (IH Hb). reflexivity.
Qed.

Lemma halves_of_seven_bit (b : bytes) : seven_bit (halves_of b) = true.
Proof.
  induction b as [|a b IH]; [reflexivity|].
  unfold seven_bit, halves_of in *. cbn [flat_map app forallb]. rewrite IH.
  destruct a; vm_compute; reflexivity.
Qed.

Lemma halves_back_of (b : bytes) : halves_back (halves_of b) = Some b.
Proof.
  induction b as [|a b IH]; [reflexivity|].
  unfold halves_of in *. cbn [flat_map app halves_back]. rewrite IH.
  cbn [option_map]. f_equal. f_equal. destruct a; vm_compute; reflexivity.
Qed.

Lemma compiled_pipeline_round_trips_witness :
  exists p y,
    compile_pipeline_body sample_registry "plain" (Some "rev") (Some "halves") = Ok p
    /\ call1 no_lib (to_str p) (VStr [104%N; 105%N]) = Ok y
    /\ call1 no_lib (from_str p) y = Ok (VStr [104%N; 105%N]).
Proof.
  destruct sample_registry_tables
    as (_ & Hplain & _ & _ & Hd & Hl & Hc & Hdc & _ & _ & He & Hdec & _ & _ & Hrs).
  destruct (@result_is_ok _ (compile_pipeline_body sample_registry "plain" (Some "rev")
                               (Some "halves")) eq_refl) as [p Hp].
  destruct (@compiled_pipeline_round_trips no_lib sample_registry "plain" (Some "rev")
              (Some "halves") p (VStr [104%N; 105%N]) Hp) as [y Hy].
  - intros binary ser deser Hb Hs Hld.
    rewrite Hplain in Hb. inversion Hb; subst binary.
    unfold dumpers_of in Hs. unfold loaders_of in Hld.
    rewrite Hd in Hs. rewrite Hl in Hld. inversion Hs; inversion Hld; subst.
    exists (VStr [104%N; 105%N]). repeat split.
  - intros c f g H Hf Hg. inversion H; subst c.
    rewrite Hc in Hf. rewrite Hdc in Hg. inversion Hf; inversion Hg; subst.
    intros x Hx. apply is_bytes_inv in Hx as [b ->].
    exists (VBytes (rev b)). simpl. rewrite rev_involutive. repeat split.
  - intros t f g Ht Hf Hg. inversion Ht; subst t.
    rewrite He in Hf. rewrite Hdec in Hg. inversion Hf; inversion Hg; subst.
    rewrite Hrs. intros x Hx. apply is_bytes_inv in Hx as [b ->].
    exists (VBytes (halves_of b)). simpl. rewrite halves_back_of. repeat split.
  - split.
    + intros ser s _ _ Hs Hcall. rewrite Hd in Hs. inversion Hs; subst ser.
      simpl in Hcall. inversion Hcall; subst s.
      exists [x68; x69]. split; reflexivity.
    + intros t f v b Ht _ Hf Hcall. inversion Ht; subst t.
      rewrite He in Hf. inversion Hf; subst f.
      destruct v; simpl in Hcall; try discriminate. inversion Hcall; subst b.
      exists (map Byte.to_N (halves_of b0)).
      change (char_encoding sample_registry) with utf_8. simpl cc_decode. simpl cc_encode.
      split; [apply utf8_decode_seven_bit|apply utf8_encode_seven_bit];
        apply halves_of_seven_bit.
  - exists p, y. split; [exact Hp|exact Hy].
Defined.

(* ------------------------------------------------------------------ *)
(** ** Open files *)

(** For every file object opened so far, whether it is closed. *)
Definition closed_flags (w : world) : list bool := map h_closed (w_handles w).

(** A world with an empty working directory and no file object. *)
Definition empty_world : world :=
  mkWorld [("", [])] [] (fun names => names) utf_8.

Lemma map_list_update {A B : Type} (f : A -> B) (l : list A) (n : nat) (x y : A) :
  nth_error l n = Some y -> f x = f y -> map f (list_update l n x) = map f l.
Proof.
  revert n. induction l as [|a l IH]; intros [|n] Hn Hf; simpl in *; try discriminate.
  - inversion Hn; subst. now rewrite Hf.
  - now rewrite (IH n Hn Hf).
Qed.

Lemma with_stream_flags {A : Type} (h : nat) (op : stream -> result (A * stream))
    (w w' : world) (r : result A) :
  with_stream h op w = (r, w') -> closed_flags w' = closed_flags w.
Proof.
  unfold with_stream.
  destruct (nth_error (w_handles w) h) as [hd|] eqn:Hn; [|intros H; inversion H; reflexivity].
  destruct (h_closed hd) eqn:Hc; [intros H; inversion H; reflexivity|].
  destruct (op (h_stream hd)) as [[a s']|e]; intros H; inversion H; subst; [|reflexivity].
  unfold closed_flags. simpl. eapply map_list_update; eauto.
Qed.

Lemma io_open_flags (p : path) (writing binary : bool) (w w' : world) (r : result nat) :
  io_open p writing binary w = (r, w') ->
  match r with
  | Ok h => h = List.length (closed_flags w) /\ closed_flags w' = closed_flags w ++ [false]
  | Err _ => w' = w
  end.
Proof.
  unfold io_open, closed_flags. destruct p as [d n].
  destruct (dict_get (w_dirs w) d) as [files|]; [|intros H; inversion H; reflexivity].
  destruct (contains_char slash n); [intros H; inversion H; reflexivity|].
  destruct (String.eqb n ""); [intros H; inversion H; reflexivity|].
  destruct writing.
  - intros H; inversion H; subst; simpl. rewrite length_map, map_app. auto.
  - destruct (dict_get files n) as [content|]; [|intros H; inversion H; reflexivity].
    destruct (view_buffer _ _ _); intros H; inversion H; subst; simpl; [|reflexivity].
    rewrite length_map, map_app. auto.
Qed.

Lemma list_update_last {A : Type} (l : list A) (x y : A) :
  list_update (l ++ [x]) (List.length l) y = l ++ [y].
Proof. induction l as [|a l IH]; simpl; [reflexivity|now rewrite IH]. Qed.

Lemma map_list_update_map {A B : Type} (f : A -> B) (l : list A) (n : nat) (x : A) :
  map f (list_update l n x) = list_update (map f l) n (f x).
Proof.
  revert n. induction l as [|a l IH]; intros [|n]; simpl; try reflexivity.
  now rewrite IH.
Qed.

Lemma io_close_last (fl : list bool) (c : bool) (w w' : world) (r : result unit) :
  closed_flags w = fl ++ [c] ->
  io_close (List.length fl) w = (r, w') ->
  closed_flags w' = fl ++ [true].
Proof.
  unfold io_close, closed_flags. intros Hfl.
  destruct (nth_error (w_handles w) (List.length fl)) as [hd|] eqn:Hn.
  - destruct (h_closed hd) eqn:Hc.
    + intros H. assert (Hw : w' = w) by congruence. subst w'. rewrite Hfl.
      assert (Hnth : nth_error (map h_closed (w_handles w)) (List.length fl) = Some true).
      { now rewrite nth_error_map, Hn; simpl; rewrite Hc. }
      rewrite Hfl, nth_error_app2, Nat.sub_diag in Hnth by lia.
      simpl in Hnth. inversion Hnth; reflexivity.
    + destruct (h_path hd) as [d n]. intros H; inversion H; subst. simpl.
      rewrite map_list_update_map, Hfl. simpl. apply list_update_last.
  - apply nth_error_None in Hn.
    assert (Hlen : List.length (map h_closed (w_handles w)) = List.length (fl ++ [c]))
      by now rewrite Hfl.
    rewrite length_map, length_app in Hlen. simpl in Hlen. lia.
Qed.

(** [with open(...) as f]: whatever the block does with open streams, the
    file is closed when the block is left, also by an exception. *)
Lemma with_open_flags {A : Type} (p : path) (writing binary : bool) (body : nat -> IO A)
    (w w' : world) (r : result A) :
  (forall h w1 r1 w2, body h w1 = (r1, w2) -> closed_flags w2 = closed_flags w1) ->
  with_open p writing binary body w = (r, w') ->
  closed_flags w' = closed_flags w \/ closed_flags w' = closed_flags w ++ [true].
Proof.
  intros Hbody. unfold with_open.
  destruct (io_open p writing binary w) as [[h|e] w1] eqn:Ho;
    apply io_open_flags in Ho.
  - destruct Ho as [-> Hf1].
    destruct (body (List.length (closed_flags w)) w1) as [r1 w2] eqn:Hb.
    apply Hbody in Hb.
    destruct (io_close (List.length (closed_flags w)) w2) as [r3 w3] eqn:Hcl.
    intros H; inversion H; subst. right.
    eapply io_close_last; [|exact Hcl]. now rewrite Hb, Hf1.
  - subst w1. intros H; inversion H; subst. now left.
Qed.

Lemma auto_path_world (p : path) (auto : bool) (ext : result string) (w w' : world)
    (r : result path) :
  auto_path p auto ext w = (r, w') -> w' = w.
Proof.
  unfold auto_path. destruct auto; [|intros H; inversion H; reflexivity].
  unfold bindIO, lift, ret. destruct ext; intros H; inversion H; reflexivity.
Qed.

(** [dump] and [load]: a file opened from a path is closed on every way
    out, and a stream of the caller's is left as it was, like every other
    file object. *)
Lemma dump_closes_what_it_opens (lib : Lib) (self : FlexiblePersist) (obj : value)
    (file : target) (auto : bool) (w w' : world) (r : result unit) :
  dump lib self obj file auto w = (r, w') ->
  match file with
  | TPath _ => closed_flags w' = closed_flags w \/ closed_flags w' = closed_flags w ++ [true]
  | TFile _ => closed_flags w' = closed_flags w
  end.
Proof.
  unfold dump. destruct file as [p|f].
  - unfold bindIO. destruct (auto_path p auto (extension self) w) as [[q|e] w1] eqn:Ha;
      apply auto_path_world in Ha; subst w1.
    + apply with_open_flags. intros h w1 r1 w2. apply with_stream_flags.
    + intros H; inversion H; subst. now left.
  - apply with_stream_flags.
Qed.

Lemma load_closes_what_it_opens (lib : Lib) (self : FlexiblePersist)
    (file : target) (auto : bool) (w w' : world) (r : result value) :
  load lib self file auto w = (r, w') ->
  match file with
  | TPath _ => closed_flags w' = closed_flags w \/ closed_flags w' = closed_flags w ++ [true]
  | TFile _ => closed_flags w' = closed_flags w
  end.
Proof.
  unfold load. destruct file as [p|f].
  - unfold bindIO. destruct (auto_path p auto (extension self) w) as [[q|e] w1] eqn:Ha;
      apply auto_path_world in Ha; subst w1.
    + apply with_open_flags. intros h w1 r1 w2. apply with_stream_flags.
    + intros H; inversion H; subst. now left.
  - apply with_stream_flags.
Qed.

Lemma for_each_flags {A : Type} (l : list A) (body : A -> IO unit) (w w' : world)
    (r : result unit) :
  (forall x w1 r1 w2, body x w1 = (r1, w2) -> closed_flags w2 = closed_flags w1) ->
  for_each l body w = (r, w') -> closed_flags w' = closed_flags w.
Proof.
  intros Hbody. revert w. induction l as [|x l IH]; intros w; simpl.
  - intros H; inversion H; reflexivity.
  - unfold bindIO. destruct (body x w) as [[[]|e] w1] eqn:Hb; apply Hbody in Hb.
    + intros H. rewrite (IH _ H). exact Hb.
    + intros H; inversion H; subst. exact Hb.
Qed.

(** The text methods do not close a stream of the caller's either. *)
Lemma dump_stream_to_file_keeps_caller_stream (lib : Lib) (self : FlexiblePersist)
    (iterable : list value) (f : nat) (auto : bool) (w w' : world) (r : result unit) :
  dump_stream_to_file lib self iterable (TFile f) auto w = (r, w') ->
  closed_flags w' = closed_flags w.
Proof.
  unfold dump_stream_to_file, text_target, bindIO, ret.
  destruct (for_each iterable _ w) as [[[]|e] w1] eqn:Hf; intros H; inversion H; subst;
    (eapply for_each_flags; [|exact Hf]);
    intros x w2 r1 w3; unfold bindIO, lift;
    (destruct (call1 lib (to_line self) x); [|intros H'; inversion H'; reflexivity]);
    unfold io_write;
    (destruct (with_stream f _ w2) as [[[]|e'] w4] eqn:H1; apply with_stream_flags in H1);
    intros H2; try (apply with_stream_flags in H2); try (inversion H2; subst); congruence.
Qed.

(** C6 fails for the text methods.  [dump_stream_to_file] opens the file
    from the path and closes it after the loop, with nothing to close it
    when the loop is left by an exception: here the second object is not
    serializable, the call raises, and the file object it opened (the
    first of this world, number 0) stays open. *)
Lemma dump_stream_to_file_leaves_file_open_on_error :
  exists fp cache,
    FlexiblePersist_init "plain" None (Some "latin") None None None None false
      sample_registry [] = (Ok fp, cache)
    /\ fst (dump_stream_to_file no_lib fp [VStr [97%N]; VInt 1]
              (TPath (Path "" "out")) true empty_world)
       = Err (Raised "TypeError")
    /\ is_closed (snd (dump_stream_to_file no_lib fp [VStr [97%N]; VInt 1]
                         (TPath (Path "" "out")) true empty_world)) 0
       = Some false.
Proof.
  destruct (@FlexiblePersist_init_returns "plain" None (Some "latin") false
              sample_registry eq_refl) as [fp [cache E]].
  exists fp, cache. split; [exact E|].
  assert (H : match fst (FlexiblePersist_init "plain" None (Some "latin") None None None
                           None false sample_registry []) with
              | Ok q =>
                  let run := dump_stream_to_file no_lib q [VStr [97%N]; VInt 1]
                               (TPath (Path "" "out")) true empty_world in
                  (fst run, is_closed (snd run) 0)
              | Err e => (Err e, None)
              end = (Err (Raised "TypeError"), Some false)) by (vm_compute; reflexivity).
  rewrite E in H. simpl fst in H. cbv zeta in H. inversion H as [[H1 H2]].
  rewrite H1, H2. split; reflexivity.
Qed.

(** A world whose working directory holds a text file of two lines. *)
Definition two_line_world : world :=
  mkWorld [("", [("in", TextBuf [97%N; 10%N; 98%N; 10%N])])] [] (fun names => names) utf_8.

(** [load_stream_from_file] is a generator that closes the file after its
    loop: a consumer that takes one item and stops leaves the file open. *)
Lemma load_stream_from_file_leaves_file_open_on_early_exit :
  exists fp cache,
    FlexiblePersist_init "plain" None None None None None None false
      sample_registry [] = (Ok fp, cache)
    /\ fst (load_stream_from_file no_lib fp (TPath (Path "" "in")) false (Some 1)
              two_line_world)
       = Ok [VStr [97%N]]
    /\ is_closed (snd (load_stream_from_file no_lib fp (TPath (Path "" "in")) false
                         (Some 1) two_line_world)) 0
       = Some false
    /\ is_closed (snd (load_stream_from_file no_lib fp (TPath (Path "" "in")) false
                         None two_line_world)) 0
       = Some true.
Proof.
  destruct (@FlexiblePersist_init_returns "plain" None None false
              sample_registry eq_refl) as [fp [cache E]].
  exists fp, cache. split; [exact E|].
  assert (H : match fst (FlexiblePersist_init "plain" None None None None None
                           None false sample_registry []) with
              | Ok q =>
                  fst (load_stream_from_file no_lib q (TPath (Path "" "in")) false
                         (Some 1) two_line_world) = Ok [VStr [97%N]]
                  /\ is_closed (snd (load_stream_from_file no_lib q (TPath (Path "" "in"))
                                       false (Some 1) two_line_world)) 0 = Some false
                  /\ is_closed (snd (load_stream_from_file no_lib q (TPath (Path "" "in"))
                                       false None two_line_world)) 0 = Some true
              | Err e => False
              end) by (vm_compute; repeat split).
  rewrite E in H. exact H.
Qed.

(* ------------------------------------------------------------------ *)
(** ** Names of the files of a streamed collection *)

Lemma strip_prefix_app (p s : string) : strip_prefix p (p ++ s) = Some s.
Proof.
  induction p as [|a p IH]; simpl; [now destruct s|].
  now rewrite Ascii.eqb_refl.
Qed.

Lemma length_append (a b : string) :
  String.length (a ++ b) = String.length a + String.length b.
Proof. induction a as [|x a IH]; simpl; [reflexivity|now rewrite IH]. Qed.

Lemma eqb_length (s t : string) :
  String.length s <> String.length t -> String.eqb s t = false.
Proof.
  intros H. destruct (String.eqb_spec s t) as [->|]; [congruence|reflexivity].
Qed.

Lemma strip_suffix_app (suf k : string) : strip_suffix suf (k ++ suf) = Some k.
Proof.
  induction k as [|a k IH].
  - simpl. destruct suf; simpl; now rewrite ?String.eqb_refl, ?Ascii.eqb_refl.
  - cbn [append strip_suffix]. rewrite eqb_length.
    + now rewrite IH.
    + simpl. rewrite length_append. lia.
Qed.

Lemma fullmatch_name (prefix ext k : string) (pattern : string -> bool) :
  pattern k = true -> fullmatch prefix pattern ext (prefix ++ k ++ ext) = Some k.
Proof.
  intros H. unfold fullmatch. now rewrite strip_prefix_app, strip_suffix_app, H.
Qed.

(** A text without braces. *)
Definition brace_free (t : string) : bool :=
  negb (contains_char lbrace t) && negb (contains_char rbrace t).

Lemma brace_free_cons (a : ascii) (t : string) :
  brace_free (String a t) = true ->
  Ascii.eqb a lbrace = false /\ Ascii.eqb a rbrace = false /\ brace_free t = true.
Proof.
  unfold brace_free. simpl.
  destruct (Ascii.eqb a lbrace), (Ascii.eqb a rbrace); simpl; try discriminate; auto.
  intros H. destruct (contains_char lbrace t); discriminate.
Qed.

Lemma str_format_brace_free (t : string) (args : list string) :
  brace_free t = true -> str_format t args = Ok (t, args).
Proof.
  induction t as [|a t IH]; [reflexivity|].
  intros H. apply brace_free_cons in H as (Hl & Hr & Ht).
  cbn [str_format]. rewrite Hl, Hr, (IH Ht). reflexivity.
Qed.

Lemma str_format_template (prefix ext k : string) :
  brace_free prefix = true -> brace_free ext = true ->
  str_format (prefix ++ "{}" ++ ext) [k] = Ok ((prefix ++ k ++ ext)%string, []).
Proof.
  intros Hp He.
  change (prefix ++ "{}" ++ ext)%string
    with (prefix ++ String lbrace (String rbrace ext))%string.
  induction prefix as [|a p IH].
  - cbn [append str_format]. rewrite !Ascii.eqb_refl.
    change (Ascii.eqb rbrace lbrace) with false. cbv iota.
    rewrite (@str_format_brace_free ext [] He). reflexivity.
  - apply brace_free_cons in Hp as (Hl & Hr & Hp).
    cbn [append str_format]. rewrite Hl, Hr, (IH Hp). reflexivity.
Qed.

Lemma path_format_template (dir_ prefix ext k : string) :
  brace_free dir_ = true -> brace_free prefix = true -> brace_free ext = true ->
  path_format (Path dir_ (prefix ++ "{}" ++ ext)) k = Ok (Path dir_ (prefix ++ k ++ ext)).
Proof.
  intros Hd Hp He. unfold path_format.
  rewrite (@str_format_brace_free dir_ [k] Hd). cbn [bind fst snd].
  rewrite (@str_format_template prefix ext k Hp He). reflexivity.
Qed.

(** The zero-padded decimal text of an index. *)
Definition index_text (ndigits : nat) (i : N) : string :=
  rjust ndigits "0" (str_of_N i).

Lemma uint_of_string_zeros (m : nat) (s : string) (d : Decimal.uint) :
  NilEmpty.uint_of_string s = Some d ->
  exists d', NilEmpty.uint_of_string (str_repeat "0" m ++ s) = Some d'
             /\ N.of_uint d' = N.of_uint d.
Proof.
  intros H. induction m as [|m [d' [Hd' Hn]]]; simpl; [eauto|].
  rewrite Hd'. simpl. exists (Decimal.D0 d'). split; [reflexivity|]. exact Hn.
Qed.

Lemma str_of_N_uint (i : N) :
  NilEmpty.uint_of_string (str_of_N i) = Some (N.to_uint i).
Proof. apply NilEmpty.usu. Qed.

Lemma str_of_N_nonempty (i : N) : str_of_N i <> "".
Proof.
  unfold str_of_N. destruct i as [|p]; simpl; [discriminate|].
  pose proof (DecimalPos.Unsigned.to_uint_nonnil p) as H.
  destruct (Pos.to_uint p); simpl; try discriminate. congruence.
Qed.

Lemma append_nonempty_r (a b : string) : b <> "" -> (a ++ b)%string <> "".
Proof. destruct a; simpl; [auto|discriminate]. Qed.

Lemma index_text_int (ndigits : nat) (i : N) : int_of_str (index_text ndigits i) = Ok i.
Proof.
  unfold int_of_str, index_text, rjust.
  destruct (@uint_of_string_zeros (ndigits - String.length (str_of_N i)) _ _
              (str_of_N_uint i)) as (d' & Hd' & Hn).
  pose proof (@append_nonempty_r (str_repeat "0" (ndigits - String.length (str_of_N i)))
                _ (str_of_N_nonempty i)) as Hne.
  remember (str_repeat "0" (ndigits - String.length (str_of_N i)) ++ str_of_N i)%string
    as k eqn:Hk.
  destruct k as [|a k]; [congruence|].
  now rewrite Hd', Hn, DecimalN.Unsigned.of_to.
Qed.

Lemma index_text_digits (ndigits : nat) (i : N) :
  digits_pattern (index_text ndigits i) = true.
Proof.
  pose proof (index_text_int ndigits i) as H. unfold int_of_str in H.
  unfold digits_pattern. destruct (index_text ndigits i); [discriminate|].
  destruct (NilEmpty.uint_of_string _); [reflexivity|discriminate].
Qed.

(** A text of decimal digits has no other character in it. *)
Lemma digits_no_char (c : ascii) (k : string) (d : Decimal.uint) :
  NilEmpty.uint_of_string (String c "") = None ->
  NilEmpty.uint_of_string k = Some d -> contains_char c k = false.
Proof.
  intros Hc. revert d. induction k as [|a k IH]; intros d; [reflexivity|].
  cbn [NilEmpty.uint_of_string contains_char].
  destruct (NilEmpty.uint_of_string k) as [d0|] eqn:Hk.
  - rewrite (IH d0 eq_refl). destruct (Ascii.eqb_spec a c) as [->|]; [|reflexivity].
    cbn [NilEmpty.uint_of_string] in Hc. intros H.
    destruct c as [[] [] [] [] [] [] [] []]; simpl in *; congruence.
  - intros H. destruct a as [[] [] [] [] [] [] [] []]; simpl in H; discriminate.
Qed.

Lemma digits_pattern_no_char (c : ascii) (k : string) :
  NilEmpty.uint_of_string (String c "") = None ->
  digits_pattern k = true -> contains_char c k = false.
Proof.
  intros Hc. unfold digits_pattern. destruct k as [|a k]; [discriminate|].
  destruct (NilEmpty.uint_of_string (String a k)) as [d|] eqn:E; [|discriminate].
  intros _. eapply digits_no_char; eauto.
Qed.

(* ================================================================== *)
(** * Further properties *)

(** ** Registering and looking up *)

Lemma _name_from_ext_found (m : ChainMap string) (n e kwarg : string) :
  chain_get m n = Some (dotted e) ->
  sole_owner m n (dotted e) = true ->
  _name_from_ext e m kwarg = Ok n.
Proof.
  intros Hget Hsole. unfold _name_from_ext, _get_lambda. simpl mget.
  unfold dict_of_pairs.
  rewrite (@dict_get_fold_set _ _ _ _ n); [reflexivity| |].
  - intros n' Hin. apply in_map_iff in Hin as [[k v] [Heq Hin]].
    simpl in Heq. inversion Heq; subst.
    unfold sole_owner in Hsole. rewrite forallb_forall in Hsole.
    specialize (Hsole _ Hin). simpl in Hsole. rewrite String.eqb_refl in Hsole.
    simpl in Hsole. now apply String.eqb_eq in Hsole.
  - left. apply in_map_iff. exists (n, dotted e). split; [reflexivity|].
    now apply chain_items_In.
Qed.

Lemma sole_owner_after_set (m : ChainMap string) (n e : string) :
  unused_extension m e = true -> sole_owner (chain_set m n e) n e = true.
Proof.
  intros Hun. unfold sole_owner. apply forallb_forall. intros [k v] Hin. simpl.
  apply chain_items_In in Hin.
  destruct (String.eqb_spec k n) as [->|Hne]; [apply Bool.implb_true_r|].
  rewrite chain_get_set_other in Hin by assumption.
  apply chain_items_In in Hin.
  unfold unused_extension in Hun. rewrite forallb_forall in Hun.
  specialize (Hun _ Hin). simpl in Hun.
  destruct (String.eqb v e); [discriminate|reflexivity].
Qed.

Lemma exts_set_ext_same (self : IORegistry) (a : ext_attr) (k v : string) :
  exts (set_ext self a k v) a = chain_set (exts self a) k v.
Proof. simpl. now destruct (ext_attr_eqb_spec a a). Qed.

Lemma exts_set_fn (self : IORegistry) (a : fn_attr) (k : string) (v : pyobj)
    (a' : ext_attr) :
  exts (set_fn self a k v) a' = exts self a'.
Proof. reflexivity. Qed.

(** X1: a compressor that has been registered is found again: by name its
    pair is the two functions given, both callable; by extension, in
    whatever spelling of the leading dots, its name comes back, provided no
    compression had that extension before; and nothing registered under
    another name has changed. *)
Theorem register_compressor_then_lookup (self self' : IORegistry) (name extension : string)
    (c d : pyobj) :
  register_compressor self name c d extension = Ok self' ->
  get_compressor_pair self' name = Ok (c, d)
  /\ callable c = true /\ callable d = true
  /\ (unused_extension (exts self compression_extensions) (dotted extension) = true ->
      compression_from_extension self' extension = Ok name
      /\ compression_from_extension self' (String dot extension) = Ok name)
  /\ (forall other a, other <> name -> chain_get (fns self' a) other = chain_get (fns self a) other).
Proof.
  unfold register_compressor.
  destruct (_ || _); [discriminate|].
  unfold check_callables.
  destruct (callable c) eqn:Hc; [|discriminate].
  destruct (callable d) eqn:Hd; [|discriminate].
  unfold bind. intros H; inversion H; subst; clear H.
  split; [|split; [reflexivity|split; [reflexivity|split]]].
  - unfold get_compressor_pair, _get_lambda. simpl mget.
    rewrite !fns_set_ext.
    rewrite fns_set_fn_other by discriminate. rewrite !fns_set_fn_same.
    now rewrite !chain_get_set_same.
  - intros Hun.
    assert (Hgo : forall e, dotted e = dotted extension ->
                    compression_from_extension
                      (set_ext (set_fn (set_fn self compressors name c) decompressors name d)
                               compression_extensions name (dotted extension)) e = Ok name).
    { intros e He. unfold compression_from_extension.
      apply _name_from_ext_found; rewrite exts_set_ext_same, !exts_set_fn, He.
      - apply chain_get_set_same.
      - now apply sole_owner_after_set. }
    split; apply Hgo; reflexivity.
  - intros other a Hne. rewrite fns_set_ext.
    destruct (fn_attr_eqb_spec a decompressors) as [->|Ha].
    + rewrite fns_set_fn_same, chain_get_set_other by assumption.
      now rewrite fns_set_fn_other by discriminate.
    + rewrite fns_set_fn_other by assumption.
      destruct (fn_attr_eqb_spec a compressors) as [->|Ha'].
      * now rewrite fns_set_fn_same, chain_get_set_other.
      * now rewrite fns_set_fn_other.
Qed.

Lemma register_compressor_then_lookup_witness :
  exists self',
    register_compressor (DefaultIORegistry false) "rev" (Lambda rev_bytes) (Lambda rev_bytes)
      ".rev" = Ok self'
    /\ get_compressor_pair self' "rev" = Ok (Lambda rev_bytes, Lambda rev_bytes)
    /\ compression_from_extension self' ".rev" = Ok "rev"
    /\ chain_get (fns self' compressors) "lz4" = Some (Builtin "lz4.block.compress").
Proof.
  destruct (@result_is_ok _ (register_compressor (DefaultIORegistry false) "rev"
                               (Lambda rev_bytes) (Lambda rev_bytes) ".rev") eq_refl)
    as [self' H].
  exists self'. split; [exact H|].
  destruct (@register_compressor_then_lookup _ _ _ _ _ _ H) as (H1 & _ & _ & H2 & H3).
  split; [exact H1|]. split; [apply H2; reflexivity|].
  rewrite H3 by discriminate. reflexivity.
Defined.

Lemma chain_mem_get {V : Type} (m : ChainMap V) (k : string) :
  chain_mem m k = match chain_get m k with Some _ => true | None => false end.
Proof.
  unfold chain_mem, chain_get, dict_mem.
  destruct (dict_get (own m) k); [reflexivity|].
  now destruct (dict_get (parent m) k).
Qed.

(** The tables a serializer registration does not write to. *)
Lemma register_serializer_frame (self self' : IORegistry) (name extension : string)
    (ser deser sser sdeser : pyobj) (binary : bool) (a : fn_attr) :
  register_serializer self name extension ser deser sser sdeser binary = Ok self' ->
  a <> dumpers_of binary -> a <> loaders_of binary ->
  a <> file_dumpers_of binary -> a <> file_loaders_of binary ->
  fns self' a = fns self a.
Proof.
  unfold register_serializer, dumpers_of, loaders_of, file_dumpers_of, file_loaders_of.
  destruct binary;
    (destruct (_ || _); [discriminate|]);
    (destruct (check_callables _) as [[]|e]; cbn [bind]; [|discriminate]);
    intros H H1 H2 H3 H4; inversion H; subst; clear H;
    rewrite fns_set_ext, !fns_set_fn_other by assumption; reflexivity.
Qed.



(* ------------------------------------------------------------------ *)
(** ** The memo table over the life of a registry *)

(** The parameters of [compile_pipeline] after [self]. *)
Inductive param : Type :=
| p_serialization
| p_compression
| p_text_encoding
| p_dump_kw
| p_load_kw
| p_compress_kw
| p_decompress_kw.

Definition param_code (p : param) : nat :=
  match p with
  | p_serialization => 0
  | p_compression => 1
  | p_text_encoding => 2
  | p_dump_kw => 3
  | p_load_kw => 4
  | p_compress_kw => 5
  | p_decompress_kw => 6
  end.

Definition param_eqb (a b : param) : bool := Nat.eqb (param_code a) (param_code b).

(** How a call is written: the parameters passed by keyword, in the order
    they are written in.  The serialization is passed by position when it is
    not among them; the other parameters are keyword-only and have their
    default [None] when they are left out.  [lru_cache] makes the key of a
    call of the positional arguments and of the keywords with their values
    in the order written, so two calls have the same key when they are
    written the same way with the same values. *)
Definition call_form : Type := list param.

Fixpoint form_eqb (a b : call_form) : bool :=
  match a, b with
  | [], [] => true
  | x :: a', y :: b' => param_eqb x y && form_eqb a' b'
  | _, _ => false
  end.

Definition is_written (form : call_form) (p : param) : bool :=
  existsb (param_eqb p) form.

(** The value a parameter has in the call: the one written, or [None]. *)
Definition bound {A : Type} (form : call_form) (p : param) (v : option A) : option A :=
  if is_written form p then v else None.

Definition written_key : Type := (call_form * spec)%type.

Definition written_key_eqb (a b : written_key) : bool :=
  form_eqb (fst a) (fst b) && spec_eqb (snd a) (snd b).

Definition written_cache : Type := list (written_key * compiled).

Fixpoint written_cache_get (cache : written_cache) (key : written_key) : option compiled :=
  match cache with
  | [] => None
  | (k, v) :: cache' =>
      if written_key_eqb k key then Some v else written_cache_get cache' key
  end.

(** [compile_pipeline] under [@lru_cache(None)], for a call written in any
    way. *)
Definition compile_pipeline_as (form : call_form) (self : IORegistry)
    (cache : written_cache) (serialization : string)
    (compression text_encoding : option string)
    (dump_kw load_kw compress_kw decompress_kw : kwargs)
  : result compiled * written_cache :=
  let compression := bound form p_compression compression in
  let text_encoding := bound form p_text_encoding text_encoding in
  match bound form p_dump_kw dump_kw, bound form p_load_kw load_kw,
        bound form p_compress_kw compress_kw,
        bound form p_decompress_kw decompress_kw with
  | None, None, None, None =>
      let key := (form, (serialization, compression, text_encoding)) in
      match written_cache_get cache key with
      | Some p => (Ok p, cache)
      | None =>
          match compile_pipeline_body self serialization compression text_encoding with
          | Ok p => (Ok p, (key, p) :: cache)
          | Err e => (Err e, cache)
          end
      end
  | _, _, _, _ => (Err TypeError_unhashable_dict, cache)
  end.

(** The two ways [FlexiblePersist.__init__] writes the call: with the text
    encoding, and without it when the pipeline is compiled for none. *)
Definition form_with_text : call_form :=
  [p_serialization; p_compression; p_text_encoding;
   p_load_kw; p_dump_kw; p_compress_kw; p_decompress_kw].

Definition form_without_text : call_form :=
  [p_serialization; p_compression; p_load_kw; p_dump_kw; p_compress_kw; p_decompress_kw].

Definition init_form (text_encoding : option string) : call_form :=
  match text_encoding with
  | Some _ => form_with_text
  | None => form_without_text
  end.

(** A registry and the memo table of its [compile_pipeline], as they evolve:
    codecs are registered and pipelines compiled by calls written in any
    way, in any order. *)
Definition written_state : Type := (IORegistry * written_cache)%type.

Inductive step_as : written_state -> written_state -> Prop :=
| step_as_register_compressor (r r' : IORegistry) (c : written_cache)
    (name extension : string) (f g : pyobj) :
    register_compressor r name f g extension = Ok r' -> step_as (r, c) (r', c)
| step_as_register_text_encoder (r r' : IORegistry) (c : written_cache)
    (name extension : string) (f g : pyobj) (binary : bool) :
    register_text_encoder r name extension f g binary = Ok r' -> step_as (r, c) (r', c)
| step_as_register_serializer (r r' : IORegistry) (c : written_cache)
    (name extension : string) (f g h k : pyobj) (binary : bool) :
    register_serializer r name extension f g h k binary = Ok r' -> step_as (r, c) (r', c)
| step_as_compile (form : call_form) (r : IORegistry) (c c' : written_cache)
    (serialization : string) (compression text_encoding : option string)
    (k1 k2 k3 k4 : kwargs) (res : result compiled) :
    compile_pipeline_as form r c serialization compression text_encoding k1 k2 k3 k4
      = (res, c') ->
    step_as (r, c) (r, c').

Inductive steps_as : written_state -> written_state -> Prop :=
| steps_as_refl (s : written_state) : steps_as s s
| steps_as_step (s1 s2 s3 : written_state) :
    steps_as s1 s2 -> step_as s2 s3 -> steps_as s1 s3.

Lemma spec_eqb_refl (k : spec) : spec_eqb k k = true.
Proof.
  destruct k as [[s c] t]. simpl. rewrite String.eqb_refl.
  destruct c, t; simpl; now rewrite ?String.eqb_refl.
Qed.

Lemma param_eqb_eq (a b : param) : param_eqb a b = true <-> a = b.
Proof. destruct a, b; split; intros H; try reflexivity; discriminate H. Qed.

Lemma form_eqb_eq (a b : call_form) : form_eqb a b = true <-> a = b.
Proof.
  revert b. induction a as [|x a IH]; intros [|y b]; cbn [form_eqb];
    try (split; intros H; [discriminate H|discriminate H]); [tauto|].
  rewrite andb_true_iff, param_eqb_eq, IH. split.
  - intros [-> ->]. reflexivity.
  - intros H. inversion H. auto.
Qed.

Lemma written_key_eqb_eq (a b : written_key) : written_key_eqb a b = true <-> a = b.
Proof.
  destruct a as [f k], b as [f' k']. unfold written_key_eqb. cbn [fst snd].
  rewrite andb_true_iff, form_eqb_eq. split.
  - intros [-> H]. apply spec_eqb_eq in H. now subst.
  - intros H. inversion H. split; [reflexivity|apply spec_eqb_refl].
Qed.

Lemma compile_pipeline_as_keeps_entries (form : call_form) (r : IORegistry)
    (c c' : written_cache) (S : string) (C T : option string) (k1 k2 k3 k4 : kwargs)
    (res : result compiled) (key : written_key) (p : compiled) :
  compile_pipeline_as form r c S C T k1 k2 k3 k4 = (res, c') ->
  written_cache_get c key = Some p -> written_cache_get c' key = Some p.
Proof.
  unfold compile_pipeline_as.
  destruct (bound form p_dump_kw k1), (bound form p_load_kw k2),
    (bound form p_compress_kw k3), (bound form p_decompress_kw k4);
    try (intros H; inversion H; subst; now auto).
  match goal with |- context [written_cache_get c ?k] => set (key0 := k) end.
  destruct (written_cache_get c key0) eqn:Hg; [intros H; inversion H; subst; now auto|].
  destruct (compile_pipeline_body r S _ _) as [q|e]; intros H; inversion H; subst;
    [|now auto].
  intros Hk. cbn [written_cache_get].
  destruct (written_key_eqb key0 key) eqn:E; [|exact Hk].
  apply written_key_eqb_eq in E. subst key. congruence.
Qed.

Lemma compile_pipeline_as_memoizes (form : call_form) (r : IORegistry)
    (c c' : written_cache) (S : string) (C T : option string) (p : compiled) :
  compile_pipeline_as form r c S C T None None None None = (Ok p, c') ->
  written_cache_get c'
    (form, (S, bound form p_compression C, bound form p_text_encoding T)) = Some p.
Proof.
  unfold compile_pipeline_as.
  replace (bound form p_dump_kw (@None (dict value))) with (@None (dict value))
    by (unfold bound; now destruct (is_written form p_dump_kw)).
  replace (bound form p_load_kw (@None (dict value))) with (@None (dict value))
    by (unfold bound; now destruct (is_written form p_load_kw)).
  replace (bound form p_compress_kw (@None (dict value))) with (@None (dict value))
    by (unfold bound; now destruct (is_written form p_compress_kw)).
  replace (bound form p_decompress_kw (@None (dict value))) with (@None (dict value))
    by (unfold bound; now destruct (is_written form p_decompress_kw)).
  match goal with |- context [written_cache_get c ?k] => set (key0 := k) end.
  destruct (written_cache_get c key0) eqn:Hg; [intros H; inversion H; subst; exact Hg|].
  destruct (compile_pipeline_body r S _ _) as [q|e]; intros H; inversion H; subst.
  cbn [written_cache_get].
  assert (E : written_key_eqb key0 key0 = true) by now apply written_key_eqb_eq.
  now rewrite E.
Qed.

Lemma steps_as_keep_entries (s s' : written_state) (key : written_key) (p : compiled) :
  steps_as s s' ->
  written_cache_get (snd s) key = Some p -> written_cache_get (snd s') key = Some p.
Proof.
  induction 1 as [|s1 s2 s3 _ IH Hstep]; [auto|].
  intros Hk. specialize (IH Hk). destruct Hstep; cbn [snd] in *; try exact IH.
  eapply compile_pipeline_as_keeps_entries; eauto.
Qed.

(** The table of [compile_pipeline] holds what the table of the calls as
    written holds for the two ways the facade writes the call. *)
Definition tables_agree (c : pipeline_cache) (wc : written_cache) : Prop :=
  forall (S : string) (C T : option string),
    cache_get c (S, C, T) = written_cache_get wc (init_form T, (S, C, T)).

Lemma bound_written {A : Type} (form : call_form) (p : param) (v : option A) :
  is_written form p = true -> bound form p v = v.
Proof. unfold bound. now intros ->. Qed.

Lemma bound_init_text (T : option string) : bound (init_form T) p_text_encoding T = T.
Proof. destruct T; reflexivity. Qed.

(** [compile_pipeline] is [compile_pipeline_as] for the calls of the
    facade. *)
Lemma compile_pipeline_as_the_facade_writes (r : IORegistry) (c : pipeline_cache)
    (wc : written_cache) (S : string) (C T : option string) (k1 k2 k3 k4 : kwargs) :
  tables_agree c wc ->
  fst (compile_pipeline r c S C T k1 k2 k3 k4)
  = fst (compile_pipeline_as (init_form T) r wc S C T k1 k2 k3 k4)
  /\ tables_agree (snd (compile_pipeline r c S C T k1 k2 k3 k4))
                  (snd (compile_pipeline_as (init_form T) r wc S C T k1 k2 k3 k4)).
Proof.
  intros Hag. unfold compile_pipeline, compile_pipeline_as.
  rewrite bound_init_text.
  rewrite !bound_written by (destruct T; reflexivity).
  destruct k1, k2, k3, k4; try (split; [reflexivity|exact Hag]).
  rewrite (Hag S C T).
  destruct (written_cache_get wc (init_form T, (S, C, T))) as [p|];
    [split; [reflexivity|exact Hag]|].
  destruct (compile_pipeline_body r S C T) as [p|e]; [|split; [reflexivity|exact Hag]].
  split; [reflexivity|]. cbn [snd]. intros S' C' T'. cbn [cache_get written_cache_get].
  unfold written_key_eqb. cbn [fst snd].
  destruct (spec_eqb (S, C, T) (S', C', T')) eqn:E.
  - apply spec_eqb_eq in E. inversion E; subst.
    assert (F : form_eqb (init_form T') (init_form T') = true) by now apply form_eqb_eq.
    now rewrite F.
  - rewrite andb_false_r. apply Hag.
Qed.



(* ------------------------------------------------------------------ *)
(** ** Keyword options *)

(** X4: the keyword options are part of the memo key, and a dict cannot be
    one: with any of [dump_kw], [load_kw], [compress_kw], [decompress_kw]
    given, also as an empty dict, no facade is built.  The constructor
    raises the [TypeError] of the unhashable key (after its own check of
    [always_use_text_encoding]), nothing is compiled and nothing memoized;
    [from_extension] does the same once the extension has resolved. *)
Theorem keyword_options_are_refused (S : string) (C T : option string)
    (k1 k2 k3 k4 : kwargs) (always : bool) (reg : IORegistry) (cache : pipeline_cache) :
  is_None k1 && is_None k2 && is_None k3 && is_None k4 = false ->
  FlexiblePersist_init S C T k1 k2 k3 k4 always reg cache
  = (Err (if always && is_None T then ValueError_text_encoding_required
          else TypeError_unhashable_dict), cache)
  /\ (forall ext, pipeline_from_extension reg ext = Ok (S, C, T) ->
        from_extension ext k1 k2 k3 k4 reg cache = (Err TypeError_unhashable_dict, cache)).
Proof.
  intros Hk.
  assert (Hc : forall c T0, compile_pipeline reg c S C T0 k1 k2 k3 k4
                            = (Err TypeError_unhashable_dict, c)).
  { intros c T0. unfold compile_pipeline. destruct k1, k2, k3, k4; try reflexivity.
    discriminate. }
  split.
  - unfold FlexiblePersist_init. destruct always, T; simpl; rewrite ?Hc; reflexivity.
  - intros ext He. unfold from_extension. rewrite He.
    unfold FlexiblePersist_init. destruct T; simpl; rewrite ?Hc; reflexivity.
Qed.

Lemma keyword_options_are_refused_witness :
  FlexiblePersist_init "json" None None (Some []) None None None false
    (DefaultIORegistry false) []
  = (Err TypeError_unhashable_dict, []).
Proof.
  apply (@keyword_options_are_refused "json" None None (Some []) None None None false
           (DefaultIORegistry false) [] eq_refl).
Defined.

(* ------------------------------------------------------------------ *)
(** ** The stream functions of a pipeline *)

(** X5: the stream functions and the mode the compiler returns.  Without
    compression and text encoding they are the registered stream serializer
    and deserializer, beside the registered string functions, and the mode
    is that of the serializer.  With either of the two the registered stream
    functions are not used: dumping to a file writes what [to_str] returns
    in one [write], loading applies [from_str] to all that [read] returns,
    and the mode is text with a text encoding and binary without. *)
Theorem stream_functions_of_a_pipeline (lib : Lib) (self : IORegistry) (S : string)
    (C T : option string) (p : compiled) :
  compile_pipeline_body self S C T = Ok p ->
  exists binary ser deser fser fdeser,
    is_binary_serialization self S = Ok binary
    /\ (if binary then get_serializer_pairs else get_text_serializer_pairs) self S
       = Ok (ser, deser, fser, fdeser)
    /\ file_mode p = match T, C with
                     | Some _, _ => ""
                     | None, Some _ => "b"
                     | None, None => if binary then "b" else ""
                     end
    /\ (if is_None C && is_None T
        then to_str p = ser /\ from_str p = deser /\ to_file p = fser /\ from_file p = fdeser
        else forall x f,
            call_dump lib (to_file p) x f
            = (s <- call1 lib (to_str p) x ;; stream_write f s)
            /\ call_load lib (from_file p) f
               = (r <- stream_read f ;; v <- call1 lib (from_str p) (fst r) ;; Ok (v, snd r))).
Proof.
  intros Hc. rewrite compile_pipeline_body_eq in Hc.
  destruct (is_binary_serialization self S) as [binary|] eqn:Hb; cbn [bind] in Hc;
    [|discriminate].
  destruct ((if binary then get_serializer_pairs else get_text_serializer_pairs) self S)
    as [[[[ser deser] fser] fdeser]|] eqn:Hq; cbn [bind] in Hc; [|discriminate].
  exists binary, ser, deser, fser, fdeser.
  split; [reflexivity|]. split; [exact Hq|].
  destruct C as [c|]; cbn [lookup_opt bind] in Hc.
  - destruct (get_compressor_pair self c) as [comp|]; cbn [bind] in Hc; [|discriminate].
    destruct T as [t|]; cbn [lookup_opt bind] in Hc.
    + destruct (get_text_encoder_pair self t) as [enc|]; cbn [bind] in Hc; [|discriminate].
      assert (Hp : assemble self binary (ser, deser, fser, fdeser) (Some comp) (Some enc) = p)
        by congruence.
      subst p. split; [reflexivity|]. intros x f. split; reflexivity.
    + assert (Hp : assemble self binary (ser, deser, fser, fdeser) (Some comp) None = p)
        by congruence.
      subst p. split; [reflexivity|]. intros x f. split; reflexivity.
  - destruct T as [t|]; cbn [lookup_opt bind] in Hc.
    + destruct (get_text_encoder_pair self t) as [enc|]; cbn [bind] in Hc; [|discriminate].
      assert (Hp : assemble self binary (ser, deser, fser, fdeser) None (Some enc) = p)
        by congruence.
      subst p. split; [reflexivity|]. intros x f. split; reflexivity.
    + assert (Hp : assemble self binary (ser, deser, fser, fdeser) None None = p)
        by congruence.
      subst p. split; [reflexivity|]. simpl. repeat split.
Qed.

(** With the compressor "rev" the stream functions of "raw" are the
    wrappers: three bytes are written reversed. *)
Lemma stream_functions_of_a_pipeline_witness :
  exists p,
    compile_pipeline_body sample_registry "raw" (Some "rev") None = Ok p
    /\ file_mode p = "b"
    /\ call_dump no_lib (to_file p) (VBytes [x61; x62; x63]) BytesIO
       = Ok (mkStream (BytesBuf [x63; x62; x61]) 3 true true).
Proof.
  destruct (@result_is_ok _ (compile_pipeline_body sample_registry "raw" (Some "rev") None)
              eq_refl) as [p Hp].
  exists p. split; [exact Hp|].
  destruct (@stream_functions_of_a_pipeline no_lib _ _ _ _ _ Hp)
    as (binary & ser & deser & fser & fdeser & _ & _ & Hm & Hf).
  split; [exact Hm|].
  destruct (Hf (VBytes [x61; x62; x63]) BytesIO) as [Hd _]. rewrite Hd.
  assert (H : match compile_pipeline_body sample_registry "raw" (Some "rev") None with
              | Ok q => (s <- call1 no_lib (to_str q) (VBytes [x61; x62; x63]) ;;
                         stream_write BytesIO s)
                        = Ok (mkStream (BytesBuf [x63; x62; x61]) 3 true true)
              | Err _ => False
              end) by (vm_compute; reflexivity).
  rewrite Hp in H. exact H.
Defined.

(* ------------------------------------------------------------------ *)
(** ** The wrapper classes *)

Lemma overwrite_empty {A : Type} (d : list A) : overwrite [] 0 d = d.
Proof. unfold overwrite. simpl. now rewrite skipn_nil, app_nil_r. Qed.

(** X6: the string wrappers undo the stream wrappers.  A function wrapped
    as a stream serializer and then as a string serializer returns what the
    function returns, when that is of the kind of the wrapper's buffer
    (bytes for binary, str for text), and raises the [TypeError] of the
    buffer's [write] otherwise; a function wrapped as a stream deserializer
    and then as a string deserializer is called with the very value passed
    in, under the same condition. *)
Theorem string_wrappers_undo_stream_wrappers (lib : Lib) (f : pyobj) (binary : bool)
    (x : value) :
  call1 lib (StrSerializer (StreamSerializer f) binary) x
  = (y <- call1 lib f x ;;
     if kind_of binary y then Ok y
     else Err (TypeError_call "write() argument has the wrong type"))
  /\ call1 lib (StrDeserializer (StreamDeserializer f) binary) x
     = (if kind_of binary x then call1 lib f x
        else Err (TypeError_call "write() argument has the wrong type")).
Proof.
  split.
  - cbn [call1 call_dump]. destruct (call1 lib f x) as [y|e]; cbn [bind]; [|reflexivity].
    destruct binary, y; try reflexivity;
      unfold io_cls, BytesIO, StringIO, stream_write, stream_seek0, stream_read, kind_of;
      cbn [s_writable s_readable s_buf s_pos negb bind is_bytes is_str fst];
      now rewrite overwrite_empty.
  - cbn [call1 call_load].
    destruct binary, x; try reflexivity;
      unfold io_cls, BytesIO, StringIO, stream_write, stream_seek0, stream_read, kind_of;
      cbn [s_writable s_readable s_buf s_pos negb bind is_bytes is_str fst snd];
      rewrite overwrite_empty; cbn [skipn];
      now destruct (call1 lib f _).
Qed.

(* ------------------------------------------------------------------ *)
(** ** Registering a text encoder *)

(** The names recorded as returning str are names of text encoders. *)
Definition return_str_registered (r : IORegistry) : Prop :=
  forall n, set_mem (text_encoders_return_str r) n = true ->
            chain_mem (fns r text_encoders) n = true.

Lemma set_mem_add (s : list string) (k n : string) :
  set_mem (set_add s k) n = String.eqb n k || set_mem s n.
Proof.
  unfold set_add. destruct (set_mem s k) eqn:Hk.
  - destruct (String.eqb_spec n k) as [->|]; [now rewrite Hk|reflexivity].
  - unfold set_mem. rewrite existsb_app. simpl. rewrite orb_false_r. apply orb_comm.
Qed.

Lemma register_compressor_return_str (r r' : IORegistry) (name extension : string)
    (f g : pyobj) :
  register_compressor r name f g extension = Ok r' ->
  text_encoders_return_str r' = text_encoders_return_str r.
Proof.
  unfold register_compressor.
  destruct (_ || _); [discriminate|].
  destruct (check_callables _) as [[]|e]; cbn [bind]; [|discriminate].
  intros H; inversion H; reflexivity.
Qed.

Lemma register_serializer_return_str (r r' : IORegistry) (name extension : string)
    (f g h k : pyobj) (binary : bool) :
  register_serializer r name extension f g h k binary = Ok r' ->
  text_encoders_return_str r' = text_encoders_return_str r.
Proof.
  unfold register_serializer.
  destruct binary;
    (destruct (_ || _); [discriminate|]);
    (destruct (check_callables _) as [[]|e]; cbn [bind]; [|discriminate]);
    intros H; inversion H; reflexivity.
Qed.

(** What a successful [register_text_encoder] has done. *)
Lemma register_text_encoder_stores (r r' : IORegistry) (name extension : string)
    (e d : pyobj) (binary : bool) :
  register_text_encoder r name extension e d binary = Ok r' ->
  chain_mem (fns r text_encoders) name = false
  /\ chain_get (fns r' text_encoders) name = Some e
  /\ chain_get (fns r' text_decoders) name = Some d
  /\ text_encoders_return_str r'
     = (if binary then text_encoders_return_str r
        else set_add (text_encoders_return_str r) name)
  /\ exts r' text_extensions = chain_set (exts r text_extensions) name (dotted extension)
  /\ char_encoding r' = char_encoding r.
Proof.
  unfold register_text_encoder.
  destruct (chain_mem (fns r text_encoders) name) eqn:Hm; [discriminate|].
  destruct (chain_mem (fns r text_decoders) name); [discriminate|].
  destruct (check_callables _) as [[]|err]; cbn [bind orb]; [|discriminate].
  intros H; inversion H; subst; clear H.
  split; [reflexivity|].
  rewrite exts_set_ext_same, !exts_set_fn, !fns_set_ext.
  rewrite fns_set_fn_same.
  rewrite (@fns_set_fn_other _ text_encoders text_decoders) by discriminate.
  rewrite (@fns_set_fn_other _ text_decoders text_encoders) by discriminate.
  rewrite fns_set_fn_same, !chain_get_set_same.
  destruct binary; repeat split.
Qed.

Lemma chain_mem_true_get {V : Type} (m : ChainMap V) (k : string) (v : V) :
  chain_get m k = Some v -> chain_mem m k = true.
Proof. intros H. now rewrite chain_mem_get, H. Qed.

Lemma step_keeps_return_str_registered (s s' : state) :
  step s s' -> return_str_registered (fst s) -> return_str_registered (fst s').
Proof.
  intros Hstep Hs. destruct Hstep as [r r' c name extension f g H
                                     |r r' c name extension f g binary H
                                     |r r' c name extension f g h k binary H
                                     |]; simpl in *; [| | |exact Hs].
  - intros n Hn. rewrite (register_compressor_return_str _ _ _ _ _ H) in Hn.
    eapply register_compressor_keeps_names; eauto.
  - intros n Hn.
    pose proof (register_text_encoder_keeps_names _ _ _ _ _ _ H) as Hk.
    apply register_text_encoder_stores in H as (_ & He & _ & Hr & _).
    rewrite Hr in Hn. destruct binary; [now apply Hk, Hs|].
    rewrite set_mem_add in Hn. apply orb_true_iff in Hn as [Hn|Hn].
    + apply String.eqb_eq in Hn. subst n. eapply chain_mem_true_get; eauto.
    + now apply Hk, Hs.
  - intros n Hn. rewrite (register_serializer_return_str _ _ _ _ _ _ _ _ H) in Hn.
    eapply register_serializer_keeps_names; eauto.
Qed.

Lemma reachable_return_str_registered (cls : IORegistryClass) (enc : CharCodec) (s : state) :
  reachable cls enc s -> return_str_registered (fst s).
Proof.
  induction 1 as [|s s' _ IH Hstep]; [intros n Hn; discriminate|].
  eapply step_keeps_return_str_registered; eauto.
Qed.

(** X7: a text encoder that has been registered is found again.  On a
    registry built up from a fresh one, [is_binary_text_encoding] reports the
    flag it was registered with; the compiler gets the two functions as they
    are when the encoder was registered as returning str, and otherwise the
    encoder followed by a decode, and the decoder preceded by an encode, in
    the registry's character encoding; the extension, in whatever spelling
    of the leading dots, resolves to the name when no text encoding had it
    before. *)
Theorem register_text_encoder_then_lookup (cls : IORegistryClass) (enc : CharCodec)
    (self self' : IORegistry) (c : pipeline_cache) (name extension : string)
    (e d : pyobj) (binary : bool) :
  reachable cls enc (self, c) ->
  register_text_encoder self name extension e d binary = Ok self' ->
  is_binary_text_encoding self' name = Ok binary
  /\ get_text_encoder_pair self' name
     = Ok (if binary
           then (Compose [BytesDecode (char_encoding self); e],
                 Compose [d; StrEncode (char_encoding self)])
           else (e, d))
  /\ (unused_extension (exts self text_extensions) (dotted extension) = true ->
      text_encoding_from_extension self' extension = Ok name
      /\ text_encoding_from_extension self' (String dot extension) = Ok name).
Proof.
  intros Hreach H.
  pose proof (reachable_return_str_registered Hreach) as Hinv. simpl in Hinv.
  apply register_text_encoder_stores in H as (Hfresh & He & Hd & Hr & Hx & Hce).
  assert (Hmem : set_mem (text_encoders_return_str self') name = negb binary).
  { rewrite Hr. destruct binary; simpl.
    - destruct (set_mem (text_encoders_return_str self) name) eqn:Hm; [|reflexivity].
      apply Hinv in Hm. congruence.
    - now rewrite set_mem_add, String.eqb_refl. }
  split; [|split].
  - unfold is_binary_text_encoding. rewrite Hmem.
    destruct binary; simpl; [|reflexivity].
    now rewrite (chain_mem_true_get _ _ He).
  - unfold get_text_encoder_pair, _get_lambda. simpl mget. rewrite He, Hd. cbn [bind].
    rewrite Hmem. unfold bytes_to_str_default, str_to_bytes_default. rewrite Hce.
    now destruct binary.
  - intros Hun.
    assert (Hgo : forall x, dotted x = dotted extension ->
                    text_encoding_from_extension self' x = Ok name).
    { intros x Hxe. unfold text_encoding_from_extension.
      apply _name_from_ext_found; rewrite Hx, Hxe.
      - apply chain_get_set_same.
      - now apply sole_owner_after_set. }
    split; apply Hgo; reflexivity.
Qed.

Lemma register_text_encoder_then_lookup_witness :
  exists self',
    register_text_encoder (DefaultIORegistry false) "halves" "hv"
      (Lambda halves_encode) (Lambda halves_decode) true = Ok self'
    /\ is_binary_text_encoding self' "halves" = Ok true
    /\ get_text_encoder_pair self' "halves"
       = Ok (Compose [BytesDecode utf_8; Lambda halves_encode],
             Compose [Lambda halves_decode; StrEncode utf_8])
    /\ text_encoding_from_extension self' "hv" = Ok "halves".
Proof.
  destruct (@result_is_ok _ (register_text_encoder (DefaultIORegistry false) "halves" "hv"
                               (Lambda halves_encode) (Lambda halves_decode) true) eq_refl)
    as [self' H].
  exists self'. split; [exact H|].
  destruct (@register_text_encoder_then_lookup (IORegistry_class false)
              DEFAULT_TEXT_ENCODING _ _ [] _ _ _ _ _ (reachable_init _ _) H)
    as (H1 & H2 & H3).
  split; [exact H1|]. split; [exact H2|]. apply H3. reflexivity.
Defined.

(* ------------------------------------------------------------------ *)
(** ** The text interface of a facade *)

(** No table of the registry holds [None] as a function. *)
Definition no_None_stored (r : IORegistry) : Prop :=
  forall a k, chain_get (fns r a) k <> Some PNone.

(** What the text interface needs of a compiled pipeline: a [to_str], and
    the mode its specification fixes. *)
Definition compiled_ok (key : spec) (p : compiled) : Prop :=
  to_str p <> PNone
  /\ match snd key, snd (fst key) with
     | Some _, _ => file_mode p = ""
     | None, Some _ => file_mode p = "b"
     | None, None => True
     end.

Definition cache_ok (c : pipeline_cache) : Prop :=
  forall key p, In (key, p) c -> compiled_ok key p.

Lemma dict_get_Forall {V : Type} (P : V -> Prop) (d : dict V) (k : string) (v : V) :
  Forall (fun kv => P (snd kv)) d -> dict_get d k = Some v -> P v.
Proof.
  induction 1 as [|[k' v'] d Hv _ IH]; simpl; [discriminate|].
  destruct (String.eqb k' k); [|exact IH].
  intros H; inversion H; subst. exact Hv.
Qed.

Lemma class_tables_no_None (dill : bool) (a : fn_attr) (k : string) :
  dict_get (cls_fns (IORegistry_class dill) a) k <> Some PNone.
Proof.
  intros H. apply (dict_get_Forall (fun v => v <> PNone)) in H; [congruence|].
  destruct dill, a; cbn [cls_fns IORegistry_class app]; repeat constructor; discriminate.
Qed.

Lemma no_None_set_fn (r : IORegistry) (a : fn_attr) (k : string) (v : pyobj) :
  no_None_stored r -> v <> PNone -> no_None_stored (set_fn r a k v).
Proof.
  intros Hr Hv a' k'. destruct (fn_attr_eqb_spec a' a) as [->|Ha].
  - rewrite fns_set_fn_same. destruct (String.eqb_spec k' k) as [->|Hk].
    + rewrite chain_get_set_same. congruence.
    + rewrite chain_get_set_other by assumption. apply Hr.
  - rewrite fns_set_fn_other by assumption. apply Hr.
Qed.

Lemma callable_not_None (o : pyobj) : callable o = true -> o <> PNone.
Proof. destruct o; simpl; congruence. Qed.

Lemma py_or_not_None (a b : pyobj) : b <> PNone -> py_or a b <> PNone.
Proof. unfold py_or. destruct a; simpl; try congruence. now destruct (negb _). Qed.

Lemma is_not_None_true (o : pyobj) : o <> PNone -> is_not_None o = true.
Proof. destruct o; simpl; congruence. Qed.

Lemma check_callables_all (l : list (string * pyobj)) :
  check_callables l = Ok tt -> forall a f, In (a, f) l -> callable f = true.
Proof.
  induction l as [|[a0 f0] l IH]; simpl; [intros _ a f []|].
  destruct (callable f0) eqn:Hf; [|discriminate].
  intros H a f [Hin|Hin]; [congruence|eauto].
Qed.

Lemma step_keeps_no_None (s s' : state) :
  step s s' -> no_None_stored (fst s) -> no_None_stored (fst s').
Proof.
  intros Hstep Hs. destruct Hstep as [r r' c name extension f g H
                                     |r r' c name extension f g binary H
                                     |r r' c name extension f g h k binary H
                                     |]; simpl in *; [| | |exact Hs].
  - unfold register_compressor in H.
    destruct (_ || _); [discriminate|].
    destruct (check_callables _) as [[]|e] eqn:Hc; cbn [bind] in H; [|discriminate].
    pose proof (check_callables_all _ Hc) as Hall.
    assert (Hr : r' = set_ext (set_fn (set_fn r compressors name f) decompressors name g)
                        compression_extensions name (dotted extension)) by congruence.
    subst r'. intros a k. rewrite fns_set_ext.
    apply no_None_set_fn; [apply no_None_set_fn; [exact Hs|]|];
      apply callable_not_None; eapply Hall; simpl; eauto.
  - unfold register_text_encoder in H.
    destruct (_ || _); [discriminate|].
    destruct (check_callables _) as [[]|e] eqn:Hc; cbn [bind] in H; [|discriminate].
    pose proof (check_callables_all _ Hc) as Hall.
    assert (Hr : r' = set_ext (set_fn (set_fn (if negb binary then add_return_str r name
                                                else r) text_encoders name f)
                                 text_decoders name g)
                        text_extensions name (dotted extension)) by congruence.
    subst r'. intros a k. rewrite fns_set_ext.
    apply no_None_set_fn; [apply no_None_set_fn; [now destruct binary|]|];
      apply callable_not_None; eapply Hall; simpl; eauto.
  - unfold register_serializer in H.
    destruct binary;
      (destruct (_ || _); [discriminate|]);
      (destruct (check_callables _) as [[]|e]; cbn [bind] in H; [|discriminate]);
      inversion H; subst; clear H; intros a k0; rewrite fns_set_ext;
      repeat (apply no_None_set_fn; [|apply py_or_not_None; discriminate]); exact Hs.
Qed.

Lemma compile_pipeline_body_ok (r : IORegistry) (S : string) (C T : option string)
    (p : compiled) :
  no_None_stored r -> compile_pipeline_body r S C T = Ok p -> compiled_ok (S, C, T) p.
Proof.
  intros Hr Hc. rewrite compile_pipeline_body_eq in Hc.
  destruct (is_binary_serialization r S) as [binary|]; cbn [bind] in Hc; [|discriminate].
  destruct ((if binary then get_serializer_pairs else get_text_serializer_pairs) r S)
    as [[[[ser deser] fser] fdeser]|] eqn:Hq; cbn [bind] in Hc; [|discriminate].
  assert (Hser : ser <> PNone).
  { unfold get_serializer_pairs, get_text_serializer_pairs, _get_lambda in Hq.
    cbn [mget ChainMap_Mapping] in Hq. destruct binary.
    - pose proof (Hr dumpers S) as Hn.
      destruct (chain_get (fns r dumpers) S) as [v|]; cbn [bind] in Hq; [|discriminate].
      destruct (chain_get (fns r loaders) S); cbn [bind] in Hq; [|discriminate].
      destruct (chain_get (fns r file_dumpers) S); cbn [bind] in Hq; [|discriminate].
      destruct (chain_get (fns r file_loaders) S); cbn [bind] in Hq; [|discriminate].
      congruence.
    - pose proof (Hr text_dumpers S) as Hn.
      destruct (chain_get (fns r text_dumpers) S) as [v|]; cbn [bind] in Hq; [|discriminate].
      destruct (chain_get (fns r text_loaders) S); cbn [bind] in Hq; [|discriminate].
      destruct (chain_get (fns r text_file_dumpers) S); cbn [bind] in Hq; [|discriminate].
      destruct (chain_get (fns r text_file_loaders) S); cbn [bind] in Hq; [|discriminate].
      congruence. }
  unfold compiled_ok. cbn [fst snd].
  destruct C as [c|]; cbn [lookup_opt bind] in Hc.
  - destruct (get_compressor_pair r c) as [comp|]; cbn [bind] in Hc; [|discriminate].
    destruct T as [t|]; cbn [lookup_opt bind] in Hc.
    + destruct (get_text_encoder_pair r t) as [enc|]; cbn [bind] in Hc; [|discriminate].
      assert (Hp : assemble r binary (ser, deser, fser, fdeser) (Some comp) (Some enc) = p)
        by congruence.
      subst p. split; [|reflexivity]. destruct binary; discriminate.
    + assert (Hp : assemble r binary (ser, deser, fser, fdeser) (Some comp) None = p)
        by congruence.
      subst p. split; [|reflexivity]. destruct binary; discriminate.
  - destruct T as [t|]; cbn [lookup_opt bind] in Hc.
    + destruct (get_text_encoder_pair r t) as [enc|]; cbn [bind] in Hc; [|discriminate].
      assert (Hp : assemble r binary (ser, deser, fser, fdeser) None (Some enc) = p)
        by congruence.
      subst p. split; [|reflexivity]. destruct binary; discriminate.
    + assert (Hp : assemble r binary (ser, deser, fser, fdeser) None None = p)
        by congruence.
      subst p. split; [exact Hser|exact I].
Qed.

Lemma compile_pipeline_ok (r : IORegistry) (c c' : pipeline_cache) (S : string)
    (C T : option string) (k1 k2 k3 k4 : kwargs) (res : result compiled) :
  no_None_stored r -> cache_ok c ->
  compile_pipeline r c S C T k1 k2 k3 k4 = (res, c') ->
  cache_ok c' /\ forall p, res = Ok p -> compiled_ok (S, C, T) p.
Proof.
  intros Hr Hc. unfold compile_pipeline.
  destruct k1, k2, k3, k4;
    try (intros H; inversion H; subst; split; [exact Hc|intros p Hp; discriminate]).
  destruct (cache_get c (S, C, T)) as [q|] eqn:Hg.
  - intros H; inversion H; subst. split; [exact Hc|].
    intros p Hp. inversion Hp; subst. apply Hc. now apply cache_get_In.
  - destruct (compile_pipeline_body r S C T) as [q|e] eqn:Hb; intros H; inversion H; subst.
    + pose proof (@compile_pipeline_body_ok _ _ _ _ _ Hr Hb) as Hq. split.
      * intros key p [Hin|Hin]; [inversion Hin; subst; exact Hq|now apply Hc].
      * intros p Hp. inversion Hp; subst. exact Hq.
    + split; [exact Hc|intros p Hp; discriminate].
Qed.

Lemma reachable_ok (dill : bool) (enc : CharCodec) (s : state) :
  reachable (IORegistry_class dill) enc s -> no_None_stored (fst s) /\ cache_ok (snd s).
Proof.
  induction 1 as [|s s' _ [IH1 IH2] Hstep].
  - split; [|intros key p []]. intros a k. apply class_tables_no_None.
  - split; [eapply step_keeps_no_None; eauto|].
    destruct Hstep as [| | |r c c' S C T k1 k2 k3 k4 res H]; simpl in *; try exact IH2.
    now destruct (@compile_pipeline_ok _ _ _ _ _ _ _ _ _ _ _ IH1 IH2 H).
Qed.

(** X8: where the text interface exists.  For a facade built on a registry
    that has been built up from a fresh one, the [text] property raises
    [NoTextIOMethodsAvailable] exactly when no text encoding was given and
    the mode is not the text mode, and returns the text interface otherwise;
    with a compression and no text encoding it always raises, and a facade
    built with [always_use_text_encoding] has the text mode. *)
Theorem text_interface_availability (dill : bool) (enc : CharCodec) (reg : IORegistry)
    (cache cache' : pipeline_cache) (S : string) (C T : option string) (always : bool)
    (fp : FlexiblePersist) :
  reachable (IORegistry_class dill) enc (reg, cache) ->
  FlexiblePersist_init S C T None None None None always reg cache = (Ok fp, cache') ->
  text fp = (if is_None T && negb (String.eqb (_mode fp) "")
             then Err NoTextIOMethodsAvailable else Ok fp)
  /\ (is_None T = true -> is_None C = false -> text fp = Err NoTextIOMethodsAvailable)
  /\ (always = true -> _mode fp = "" /\ is_None T = false).
Proof.
  intros Hreach. apply reachable_ok in Hreach as [Hr Hc]. simpl in Hr, Hc.
  unfold FlexiblePersist_init. destruct always.
  - destruct T as [t|]; [|discriminate].
    destruct (compile_pipeline reg cache S C (Some t) None None None None)
      as [[p|e] c1] eqn:E; [|discriminate].
    destruct (@compile_pipeline_ok _ _ _ _ _ _ _ _ _ _ _ Hr Hc E) as [_ Hp].
    destruct (Hp p eq_refl) as [Hto Hm]. cbn [fst snd] in Hm.
    intros H. assert (Hfp : fp = mkFlexiblePersist reg S C (Some t) (file_mode p) true
                                   (to_file p) (from_file p) (to_str p) (from_str p)
                                   (to_str p) (from_str p)
                                   (is_not_None (to_str p) || is_not_None (from_str p)))
      by congruence.
    subst fp. unfold text. cbn [_text_io _mode is_None andb].
    assert (Hn : is_not_None (to_str p) = true) by (apply is_not_None_true; exact Hto).
    rewrite Hn. repeat split; try discriminate; auto.
  - destruct (compile_pipeline reg cache S C None None None None None)
      as [[p|e] c1] eqn:E; [|discriminate].
    destruct (@compile_pipeline_ok _ _ _ _ _ _ _ _ _ _ _ Hr Hc E) as [Hc1 Hp].
    destruct (Hp p eq_refl) as [Hto Hm]. cbn [fst snd] in Hm.
    assert (Hn : is_not_None (to_str p) = true) by (apply is_not_None_true; exact Hto).
    destruct T as [t|].
    + destruct (compile_pipeline reg c1 S C (Some t) None None None None)
        as [[q|e] c2] eqn:E2; [|discriminate].
      destruct (@compile_pipeline_ok _ _ _ _ _ _ _ _ _ _ _ Hr Hc1 E2) as [_ Hq].
      destruct (Hq q eq_refl) as [Htoq _].
      assert (Hnq : is_not_None (to_str q) = true) by (apply is_not_None_true; exact Htoq).
      intros H. assert (Hfp : fp = mkFlexiblePersist reg S C (Some t) (file_mode p) false
                                     (to_file p) (from_file p) (to_str p) (from_str p)
                                     (to_str q) (from_str q)
                                     (is_not_None (to_str q) || is_not_None (from_str q)))
        by congruence.
      subst fp. unfold text. cbn [_text_io _mode is_None andb]. rewrite Hnq.
      repeat split; discriminate.
    + destruct (String.eqb (file_mode p) "") eqn:Hmode; cbn [negb];
        intros H; inversion H; subst; clear H; unfold text;
        cbn [_text_io _mode is_None andb is_not_None orb]; rewrite ?Hn, ?Hmode; cbn [negb orb].
      * repeat split; try discriminate.
        intros _ HC. destruct C; [|discriminate].
        rewrite Hm in Hmode. discriminate.
      * repeat split; discriminate.
Qed.

(** The default registry: "json" has the text interface, "pickle" has not,
    and "json" with a compression has lost it. *)
Lemma text_interface_availability_witness :
  exists fp1 c1 fp2 c2 fp3 c3,
    FlexiblePersist_init "json" None None None None None None false
      (DefaultIORegistry false) [] = (Ok fp1, c1)
    /\ text fp1 = Ok fp1
    /\ FlexiblePersist_init "pickle" None None None None None None false
         (DefaultIORegistry false) [] = (Ok fp2, c2)
    /\ text fp2 = Err NoTextIOMethodsAvailable
    /\ FlexiblePersist_init "json" (Some "gzip") None None None None None false
         (DefaultIORegistry false) [] = (Ok fp3, c3)
    /\ text fp3 = Err NoTextIOMethodsAvailable.
Proof.
  destruct (@FlexiblePersist_init_returns "json" None None false
              (DefaultIORegistry false) eq_refl) as [fp1 [c1 E1]].
  destruct (@FlexiblePersist_init_returns "pickle" None None false
              (DefaultIORegistry false) eq_refl) as [fp2 [c2 E2]].
  destruct (@FlexiblePersist_init_returns "json" (Some "gzip") None false
              (DefaultIORegistry false) eq_refl) as [fp3 [c3 E3]].
  exists fp1, c1, fp2, c2, fp3, c3.
  destruct (@text_interface_availability false DEFAULT_TEXT_ENCODING _ _ _ _ _ _ _ _
              (reachable_init _ _) E1) as (H1 & _ & _).
  destruct (@text_interface_availability false DEFAULT_TEXT_ENCODING _ _ _ _ _ _ _ _
              (reachable_init _ _) E2) as (H2 & _ & _).
  destruct (@text_interface_availability false DEFAULT_TEXT_ENCODING _ _ _ _ _ _ _ _
              (reachable_init _ _) E3) as (_ & H3 & _).
  assert (M1 : match fst (FlexiblePersist_init "json" None None None None None None false
                            (DefaultIORegistry false) []) with
               | Ok q => _mode q = ""
               | Err _ => False
               end) by (vm_compute; reflexivity).
  assert (M2 : match fst (FlexiblePersist_init "pickle" None None None None None None false
                            (DefaultIORegistry false) []) with
               | Ok q => _mode q = "b"
               | Err _ => False
               end) by (vm_compute; reflexivity).
  rewrite E1 in M1. rewrite E2 in M2. cbn [fst] in M1, M2.
  rewrite M1 in H1. rewrite M2 in H2.
  repeat split; try assumption. apply H3; reflexivity.
Defined.

(* ------------------------------------------------------------------ *)
(** ** The extension of a text file *)

(** X9: without a text encoding there is no text extension.  The
    [text_extension] of a facade whose text encoding is [None] raises: the
    [KeyError] of the key [None] when [extension] returns, and what
    [extension] raises otherwise.  So the two text methods, given a path and
    left at their default [auto_extension=True], raise it before any file is
    opened, also on a facade that has the text interface. *)
Theorem text_extension_needs_text_encoding (lib : Lib) (self : FlexiblePersist) :
  _text_encoding self = None ->
  let failure := match extension self with
                 | Ok _ => KeyError_subscript None
                 | Err e => e
                 end in
  text_extension self = Err failure
  /\ (forall items p w,
        dump_stream_to_file lib self items (TPath p) true w = (Err failure, w))
  /\ (forall p w pulls,
        pulls <> Some 0 ->
        load_stream_from_file lib self (TPath p) true pulls w = (Err failure, w)).
Proof.
  intros HT failure.
  assert (Hx : text_extension self = Err failure).
  { unfold failure, text_extension, extension, _get_extension. rewrite HT.
    destruct (chain_subscript _ (Some (_serialization self))) as [e1|]; cbn [bind];
      [|reflexivity].
    destruct (_compression self) as [c|].
    - destruct (chain_subscript _ (Some c)) as [e2|]; cbn [bind orb chain_subscript];
        [|reflexivity].
      now destruct (_always_use_text_encoding self).
    - cbn [bind orb chain_subscript]. now destruct (_always_use_text_encoding self). }
  split; [exact Hx|]. split.
  - intros items p w. unfold dump_stream_to_file, text_target, auto_path, bindIO, lift.
    now rewrite Hx.
  - intros p w pulls Hp. unfold load_stream_from_file.
    destruct pulls as [[|n]|]; [congruence| |];
      unfold text_target, auto_path, bindIO, lift; now rewrite Hx.
Qed.

(** A "json" facade has the text interface, and its [dump_stream_to_file]
    with a path raises [KeyError(None)] and creates nothing. *)
Lemma text_extension_needs_text_encoding_witness :
  exists fp cache,
    FlexiblePersist_init "json" None None None None None None false
      (DefaultIORegistry false) [] = (Ok fp, cache)
    /\ dump_stream_to_file no_lib fp [VInt 1; VInt 2] (TPath (Path "" "out")) true empty_world
       = (Err (KeyError_subscript None), empty_world).
Proof.
  destruct (@FlexiblePersist_init_returns "json" None None false
              (DefaultIORegistry false) eq_refl) as [fp [cache E]].
  exists fp, cache. split; [exact E|].
  pose proof (FlexiblePersist_init_fields _ _ _ _ _ _ _ _ _ _ E) as (Hr & HS & HC & HT & Ha).
  destruct (@text_extension_needs_text_encoding no_lib fp HT) as (_ & H & _).
  rewrite H.
  assert (Hx : extension fp = Ok ".json").
  { unfold extension, _get_extension. rewrite Hr, HS, HC, Ha. reflexivity. }
  now rewrite Hx.
Defined.

(* ------------------------------------------------------------------ *)
(** ** Files written and read back *)

(** The content is of the kind a file object of that mode holds. *)
Definition buffer_is (binary : bool) (b : buffer) : bool :=
  match b, binary with
  | BytesBuf _, true | TextBuf _, false => true
  | _, _ => false
  end.

(** What a text file gives back when it is opened again: a text the
    locale's encoding round-trips, with no carriage return for the universal
    newlines of [open] to translate.  A binary file gives back its bytes. *)
Definition survives_reopening (locale : CharCodec) (b : buffer) : Prop :=
  match b with
  | BytesBuf _ => True
  | TextBuf t => ~ In 13%N t /\ text_round_trips locale t
  end.

(** The path [dump] and [load] open. *)
Definition target_path (p : path) (auto_extension : bool) (ext : result string)
  : result path :=
  if auto_extension then e <- ext ;; Ok (_maybe_add_extension p e) else Ok p.

(** The world after [obj] has been dumped to a new file object on
    [dir/name], which left the stream [s], and the file closed. *)
Definition written (w : world) (d n : string) (files : dict buffer) (s : stream) : world :=
  mkWorld (dict_set (w_dirs w) d (dict_set files n (s_buf s)))
          (w_handles w ++ [mkHandle (Path d n) (mkStream (s_buf s) (s_pos s) false true) true])
          (w_listorder w) (w_locale w).

(** The world after a file has been opened for reading, read up to where
    the stream [s] stands, and closed. *)
Definition read_back (w : world) (d n : string) (s : stream) : world :=
  set_handles w (w_handles w
                 ++ [mkHandle (Path d n) (mkStream (s_buf s) (s_pos s) true false) true]).

Lemma auto_path_target (p : path) (auto : bool) (ext : result string) (w : world) :
  auto_path p auto ext w = (target_path p auto ext, w).
Proof.
  unfold auto_path, target_path, bindIO, lift, ret.
  destruct auto; [|reflexivity]. now destruct ext.
Qed.

Lemma view_buffer_same (locale : CharCodec) (binary : bool) (b : buffer) :
  buffer_is binary b = true -> view_buffer locale binary b = Ok b.
Proof. destruct b, binary; simpl; congruence. Qed.

Lemma dict_set_set {V : Type} (d : dict V) (k : string) (v v' : V) :
  dict_set (dict_set d k v) k v' = dict_set d k v'.
Proof.
  induction d as [|[k0 v0] d IH]; simpl.
  - now rewrite String.eqb_refl.
  - destruct (String.eqb k0 k) eqn:E; simpl; rewrite E; [reflexivity|now rewrite IH].
Qed.

Lemma nth_error_last {A : Type} (l : list A) (x : A) :
  nth_error (l ++ [x]) (List.length l) = Some x.
Proof. rewrite nth_error_app2, Nat.sub_diag by lia. reflexivity. Qed.

Lemma eqb_empty_false (n : string) : n <> "" -> String.eqb n "" = false.
Proof. intros H. now destruct n. Qed.

Lemma write_file_spec (lib : Lib) (self : FlexiblePersist) (obj : value) (d n : string)
    (w : world) (files : dict buffer) (s : stream) :
  dict_get (w_dirs w) d = Some files ->
  contains_char slash n = false -> n <> "" ->
  call_dump lib (_dump self) obj (mkStream (empty_buffer (binary_mode self)) 0 false true)
    = Ok s ->
  with_open (Path d n) true (binary_mode self) (fun f => run_dump lib self obj f) w
  = (Ok tt, written w d n files s).
Proof.
  intros Hd Hs Hn Hdump. unfold with_open, io_open.
  rewrite Hd, Hs, (eqb_empty_false Hn).
  unfold run_dump, with_stream. cbn [w_handles]. rewrite nth_error_last.
  cbn [h_closed h_stream]. rewrite Hdump. cbn [bind].
  unfold io_close, set_handles. cbn [w_handles w_dirs w_listorder w_locale].
  rewrite list_update_last, nth_error_last.
  cbn [h_closed h_stream h_path s_writable s_readable s_buf s_pos].
  rewrite list_update_last, dict_get_set_same, !dict_set_set. reflexivity.
Qed.

Lemma read_file_spec (lib : Lib) (self : FlexiblePersist) (d n : string)
    (w : world) (files : dict buffer) (content : buffer) (v : value) (s : stream) :
  dict_get (w_dirs w) d = Some files ->
  contains_char slash n = false -> n <> "" ->
  dict_get files n = Some content ->
  buffer_is (binary_mode self) content = true ->
  call_load lib (_load self) (mkStream content 0 true false) = Ok (v, s) ->
  with_open (Path d n) false (binary_mode self) (fun f => run_load lib self f) w
  = (Ok v, read_back w d n s).
Proof.
  intros Hd Hs Hn Hf Hk Hload. unfold with_open, io_open.
  rewrite Hd, Hs, (eqb_empty_false Hn), Hf, (view_buffer_same _ _ _ Hk).
  unfold run_load, with_stream, set_handles. cbn [w_handles]. rewrite nth_error_last.
  cbn [h_closed h_stream]. rewrite Hload.
  unfold io_close, set_handles. cbn [w_handles w_dirs w_listorder w_locale].
  rewrite list_update_last, nth_error_last.
  cbn [h_closed h_stream h_path s_writable s_readable s_buf s_pos].
  rewrite list_update_last. unfold read_back, set_handles. now destruct w.
Qed.



(* ------------------------------------------------------------------ *)
(** ** Sorting by key *)

(** Keys in strictly increasing order. *)
Definition key_lt {A : Type} (a b : N * A) : Prop := (fst a < fst b)%N.

Lemma insert_by_key_perm {A : Type} (x : N * A) (l : list (N * A)) :
  Permutation (insert_by_key x l) (x :: l).
Proof.
  induction l as [|y l IH]; simpl; [reflexivity|].
  destruct (fst y <=? fst x)%N; [|reflexivity].
  rewrite IH. apply perm_swap.
Qed.

Lemma insert_by_key_sorted {A : Type} (x : N * A) (l : list (N * A)) :
  StronglySorted key_lt l -> ~ In (fst x) (map fst l) ->
  StronglySorted key_lt (insert_by_key x l).
Proof.
  induction 1 as [|y l Hl IH Hy]; intros Hx; simpl.
  - constructor; constructor.
  - destruct (N.leb_spec (fst y) (fst x)) as [Hle|Hlt].
    + constructor.
      * apply IH. intros Hin. apply Hx. now right.
      * eapply Permutation_Forall; [symmetry; apply insert_by_key_perm|].
        constructor; [|exact Hy].
        unfold key_lt. assert (fst y <> fst x) by (intros E; apply Hx; now left). lia.
    + constructor; [constructor; assumption|].
      constructor; [exact Hlt|].
      eapply Forall_impl; [|exact Hy]. unfold key_lt. intros z Hz. lia.
Qed.

Lemma fold_insert_by_key {A : Type} (l acc : list (N * A)) :
  StronglySorted key_lt acc -> NoDup (map fst (acc ++ l)) ->
  StronglySorted key_lt (fold_left (fun a x => insert_by_key x a) l acc)
  /\ Permutation (fold_left (fun a x => insert_by_key x a) l acc) (acc ++ l).
Proof.
  revert acc. induction l as [|x l IH]; intros acc Hs Hn; simpl.
  - rewrite app_nil_r. split; [exact Hs|reflexivity].
  - assert (Hp : Permutation (insert_by_key x acc ++ l) (acc ++ x :: l)).
    { rewrite insert_by_key_perm. simpl. apply Permutation_middle. }
    destruct (IH (insert_by_key x acc)) as [H1 H2].
    + apply insert_by_key_sorted; [exact Hs|].
      rewrite map_app in Hn. simpl in Hn. apply NoDup_remove_2 in Hn.
      intros Hin. apply Hn. apply in_or_app. now left.
    + eapply Permutation_NoDup; [|exact Hn].
      apply Permutation_map. symmetry. exact Hp.
    + split; [exact H1|]. now rewrite H2.
Qed.

Lemma key_lt_sorted_NoDup {A : Type} (l : list (N * A)) :
  StronglySorted key_lt l -> NoDup (map fst l).
Proof.
  induction 1 as [|y l Hl IH Hy]; simpl; constructor; [|exact IH].
  intros Hin. apply in_map_iff in Hin as [z [Hz Hin]].
  rewrite Forall_forall in Hy. specialize (Hy z Hin). unfold key_lt in Hy. lia.
Qed.

Lemma key_lt_sorted_unique {A : Type} (l1 l2 : list (N * A)) :
  StronglySorted key_lt l1 -> StronglySorted key_lt l2 -> Permutation l1 l2 -> l1 = l2.
Proof.
  intros H1. revert l2. induction H1 as [|a l1 Hl1 IH Ha]; intros l2 H2 Hp.
  - apply Permutation_nil in Hp. now subst.
  - destruct l2 as [|b l2]; [apply Permutation_sym, Permutation_nil in Hp; discriminate|].
    apply StronglySorted_inv in H2 as [Hl2 Hb].
    assert (Hab : a = b).
    { assert (Hina : In a (b :: l2)) by (eapply Permutation_in; [exact Hp|now left]).
      assert (Hinb : In b (a :: l1))
        by (eapply Permutation_in; [symmetry; exact Hp|now left]).
      destruct Hina as [->|Hina]; [reflexivity|].
      destruct Hinb as [->|Hinb]; [reflexivity|].
      rewrite Forall_forall in Ha, Hb.
      specialize (Ha b Hinb). specialize (Hb a Hina). unfold key_lt in *. lia. }
    subst b. f_equal. apply IH; [exact Hl2|].
    eapply Permutation_cons_inv; exact Hp.
Qed.

(** [sorted] puts any arrangement of items with distinct keys back into the
    order of the keys. *)
Lemma sorted_by_key_of_permutation {A : Type} (l t : list (N * A)) :
  StronglySorted key_lt t -> Permutation l t -> sorted_by_key l = t.
Proof.
  intros Ht Hp. unfold sorted_by_key.
  destruct (@fold_insert_by_key A l []) as [H1 H2].
  - constructor.
  - simpl. eapply Permutation_NoDup; [apply Permutation_map; symmetry; exact Hp|].
    now apply key_lt_sorted_NoDup.
  - apply key_lt_sorted_unique; [exact H1|exact Ht|].
    simpl in H2. now rewrite H2.
Qed.

Lemma enumerate_from_ge {A : Type} (l : list A) (i j : N) (x : A) :
  In (j, x) (enumerate_from i l) -> (i <= j)%N.
Proof.
  revert i. induction l as [|y l IH]; intros i; simpl; [intros []|].
  intros [H|H]; [inversion H; lia|]. apply IH in H. lia.
Qed.

Lemma map_result_all {A B : Type} (f : A -> result B) (g : A -> B) (l : list A) :
  (forall x, In x l -> f x = Ok (g x)) -> map_result f l = Ok (map g l).
Proof.
  induction l as [|x l IH]; intros H; simpl; [reflexivity|].
  rewrite (H x) by now left. cbn [bind]. rewrite IH; [reflexivity|].
  intros y Hy. apply H. now right.
Qed.

Lemma flat_map_nothing {A B : Type} (g : A -> list B) (l : list A) :
  (forall x, In x l -> g x = []) -> flat_map g l = [].
Proof.
  induction l as [|x l IH]; intros H; simpl; [reflexivity|].
  rewrite (H x) by now left. apply IH. intros y Hy. apply H. now right.
Qed.

Lemma flat_map_one {A B : Type} (g : A -> list B) (h : A -> B) (l : list A) :
  (forall x, In x l -> g x = [h x]) -> flat_map g l = map h l.
Proof.
  induction l as [|x l IH]; intros H; simpl; [reflexivity|].
  rewrite (H x) by now left. simpl. f_equal. apply IH. intros y Hy. apply H. now right.
Qed.

Lemma dict_keys_set_fresh {V : Type} (d : dict V) (k : string) (v : V) :
  ~ In k (dict_keys d) -> dict_keys (dict_set d k v) = dict_keys d ++ [k].
Proof.
  unfold dict_keys. induction d as [|[k0 v0] d IH]; intros H; simpl; [reflexivity|].
  destruct (String.eqb_spec k0 k) as [->|Hne]; [exfalso; apply H; now left|].
  simpl. f_equal. apply IH. intros Hin. apply H. now right.
Qed.

Lemma bindIO_ok {A B : Type} (m : IO A) (k : A -> IO B) (w w' : world) (a : A) :
  m w = (Ok a, w') -> bindIO m k w = k a w'.
Proof. intros H. unfold bindIO. now rewrite H. Qed.

Lemma ensure_dir_keeps (dir_ : string) (w w' : world) (r : result unit) :
  ensure_dir dir_ w = (r, w') ->
  w_listorder w' = w_listorder w /\ w_locale w' = w_locale w
  /\ w_handles w' = w_handles w.
Proof.
  unfold ensure_dir, os_mkdir.
  destruct (os_path_exists w dir_).
  - destruct (negb (os_path_isdir w dir_)); intros H; inversion H; subst; auto.
  - destruct (String.eqb dir_ ""); [intros H; inversion H; subst; auto|].
    destruct (if String.eqb (dirname dir_) "" then dict_mem (w_dirs w) ""
              else os_path_isdir w (dirname dir_));
      intros H; inversion H; subst; auto.
Qed.

(** The name of a directory in the working directory: not empty, without
    separator, and neither ["."] nor [".."], which name the working
    directory and its parent. *)
Definition plain_dir_name (dir_ : string) : bool :=
  negb (String.eqb dir_ "") && negb (contains_char slash dir_)
  && negb (String.eqb dir_ ".") && negb (String.eqb dir_ "..").

(* ------------------------------------------------------------------ *)
(** ** A stream of objects in a directory *)

Section DirectoryStream.
Variable lib : Lib.
Variable self : FlexiblePersist.
Variables dir_ prefix ext : string.
Variable ndigits : nat.

Hypothesis dir_braces : brace_free dir_ = true.
Hypothesis prefix_braces : brace_free prefix = true.
Hypothesis ext_braces : brace_free ext = true.
Hypothesis prefix_slash : contains_char slash prefix = false.
Hypothesis ext_slash : contains_char slash ext = false.

(** The name of the file of the object number [i]. *)
Definition file_name (i : N) : string :=
  (prefix ++ index_text ndigits i ++ ext)%string.

(** The content [buf] of a file is one the facade loads [x] from. *)
Definition loads_back (x : value) (buf : buffer) : Prop :=
  buffer_is (binary_mode self) buf = true
  /\ exists s', call_load lib (_load self) (mkStream buf 0 true false) = Ok (x, s').

(** The facade's stream functions take [x] to a new file and back. *)
Definition file_round_trips (locale : CharCodec) (x : value) : Prop :=
  exists s,
    call_dump lib (_dump self) x (mkStream (empty_buffer (binary_mode self)) 0 false true)
      = Ok s
    /\ survives_reopening locale (s_buf s)
    /\ loads_back x (s_buf s).

(** The directory after the contents [bufs] have been written to the files
    numbered from [i]. *)
Fixpoint put_all (F : dict buffer) (i : N) (bufs : list buffer) : dict buffer :=
  match bufs with
  | [] => F
  | b :: bs => put_all (dict_set F (file_name i) b) (N.succ i) bs
  end.

Definition dump_item (kv : string * value) : IO unit :=
  p <~ lift (path_format (Path dir_ (prefix ++ "{}" ++ ext)) (fst kv)) ;;
  with_open p true (binary_mode self) (fun outfile => run_dump lib self (snd kv) outfile).

Lemma file_name_match (i : N) :
  fullmatch prefix digits_pattern ext (file_name i) = Some (index_text ndigits i).
Proof. apply fullmatch_name, index_text_digits. Qed.

Lemma file_name_inj (i j : N) : file_name i = file_name j -> i = j.
Proof.
  intros H. pose proof (file_name_match i) as Hi. rewrite H, file_name_match in Hi.
  inversion Hi as [Hij].
  pose proof (index_text_int ndigits i) as Hn. rewrite <- Hij, index_text_int in Hn.
  congruence.
Qed.

Lemma file_name_no_slash (i : N) : contains_char slash (file_name i) = false.
Proof.
  unfold file_name. rewrite !contains_char_app, prefix_slash, ext_slash.
  rewrite (@digits_pattern_no_char slash _ eq_refl (index_text_digits ndigits i)).
  reflexivity.
Qed.

Lemma file_name_nonempty (i : N) : file_name i <> "".
Proof.
  unfold file_name. apply append_nonempty_r.
  intros H. pose proof (index_text_digits ndigits i) as Hd.
  destruct (index_text ndigits i); [discriminate|discriminate].
Qed.

Lemma dump_loop (xs : list value) :
  forall (i : N) (w : world) (F : dict buffer),
    dict_get (w_dirs w) dir_ = Some F ->
    Forall (file_round_trips (w_locale w)) xs ->
    exists w1 bufs,
      for_each (map (fun io => (rjust ndigits "0" (str_of_N (fst io)), snd io))
                    (enumerate_from i xs)) dump_item w = (Ok tt, w1)
      /\ Forall2 loads_back xs bufs
      /\ dict_get (w_dirs w1) dir_ = Some (put_all F i bufs)
      /\ w_listorder w1 = w_listorder w.
Proof.
  induction xs as [|x xs IH]; intros i w F HF Hall.
  - exists w, []. simpl. repeat split; auto.
  - inversion Hall as [|? ? (s & Hdump & _ & Hback) Hrest]; subst.
    destruct (IH (N.succ i) (written w dir_ (file_name i) F s)
                 (dict_set F (file_name i) (s_buf s))) as (w1 & bufs & H1 & H2 & H3 & H4).
    + unfold written. cbn [w_dirs]. apply dict_get_set_same.
    + exact Hrest.
    + exists w1, (s_buf s :: bufs). split; [|split; [|split]].
      * cbn [enumerate_from map for_each fst snd].
        erewrite bindIO_ok; [exact H1|].
        unfold dump_item. cbn [fst snd].
        erewrite bindIO_ok
          by (unfold lift; rewrite path_format_template by assumption; reflexivity).
        apply write_file_spec; auto using file_name_no_slash, file_name_nonempty.
      * constructor; assumption.
      * exact H3.
      * exact H4.
Qed.

Lemma put_all_other (bufs : list buffer) :
  forall (F : dict buffer) (i : N) (n : string),
    (forall j, (i <= j)%N -> file_name j <> n) ->
    dict_get (put_all F i bufs) n = dict_get F n.
Proof.
  induction bufs as [|b bs IH]; intros F i n H; simpl; [reflexivity|].
  rewrite IH by (intros j Hj; apply H; lia).
  apply dict_get_set_other. intros E. apply (H i); [lia|now symmetry].
Qed.

Lemma put_all_get (bufs : list buffer) :
  forall (F : dict buffer) (i j : N) (b : buffer),
    In (j, b) (enumerate_from i bufs) ->
    dict_get (put_all F i bufs) (file_name j) = Some b.
Proof.
  induction bufs as [|b0 bs IH]; intros F i j b; simpl; [intros []|].
  intros [H|H].
  - inversion H; subst. rewrite put_all_other.
    + apply dict_get_set_same.
    + intros k Hk E. apply file_name_inj in E. lia.
  - now apply IH.
Qed.

Lemma put_all_keys (bufs : list buffer) :
  forall (F : dict buffer) (i : N),
    (forall j, (i <= j)%N -> ~ In (file_name j) (dict_keys F)) ->
    dict_keys (put_all F i bufs)
    = dict_keys F ++ map (fun jb => file_name (fst jb)) (enumerate_from i bufs).
Proof.
  induction bufs as [|b bs IH]; intros F i H; simpl; [now rewrite app_nil_r|].
  rewrite IH.
  - rewrite dict_keys_set_fresh by (apply H; lia). now rewrite <- app_assoc.
  - intros j Hj. rewrite dict_keys_set_fresh by (apply H; lia).
    intros Hin. apply in_app_or in Hin as [Hin|[Hin|[]]].
    + apply (H j); [lia|exact Hin].
    + apply file_name_inj in Hin. lia.
Qed.

(** The keys and paths [load_stream_from_dir] is to find. *)
Definition expected {A : Type} (i : N) (l : list A) : list (N * path) :=
  map (fun jb => (fst jb, Path dir_ (file_name (fst jb)))) (enumerate_from i l).

Lemma expected_sorted {A : Type} (l : list A) (i : N) :
  StronglySorted key_lt (expected i l).
Proof.
  revert i. induction l as [|x l IH]; intros i; [constructor|].
  unfold expected. cbn [enumerate_from map fst]. constructor; [apply IH|].
  apply Forall_forall. intros z Hz. apply in_map_iff in Hz as [[j y] [<- Hin]].
  apply enumerate_from_ge in Hin. unfold key_lt. simpl. lia.
Qed.

Lemma load_all (xs : list value) (bufs : list buffer) :
  Forall2 loads_back xs bufs ->
  forall (i : N) (w : world) (F : dict buffer),
    dict_get (w_dirs w) dir_ = Some F ->
    (forall j b, In (j, b) (enumerate_from i bufs) ->
                 dict_get F (file_name j) = Some b) ->
    exists w', list_of_generator lib self (map snd (expected i bufs)) w = (Ok xs, w')
               /\ w_dirs w' = w_dirs w.
Proof.
  induction 1 as [|x b xs bufs [Hk [s' Hload]] Hrest IH]; intros i w F HF Hget.
  - exists w. split; reflexivity.
  - destruct (IH (N.succ i) (read_back w dir_ (file_name i) s') F) as (w' & H1 & H2).
    + exact HF.
    + intros j b' Hin. apply Hget. now right.
    + exists w'. split; [|exact H2].
      unfold expected. cbn [enumerate_from map fst snd list_of_generator].
      erewrite bindIO_ok.
      * erewrite bindIO_ok; [reflexivity|exact H1].
      * unfold load, bindIO, auto_path, ret.
        eapply read_file_spec; eauto using file_name_no_slash, file_name_nonempty.
        apply Hget. now left.
Qed.

Lemma flat_map_of_map {A B C : Type} (g : B -> list C) (f : A -> B) (l : list A) :
  flat_map g (map f l) = flat_map (fun x => g (f x)) l.
Proof. induction l as [|x l IH]; simpl; [reflexivity|now rewrite IH]. Qed.

Lemma find_files (w : world) (D : dict buffer) (K0 : list string) (bufs : list buffer) :
  extension self = Ok ext ->
  dict_get (w_dirs w) dir_ = Some D ->
  Permutation (w_listorder w (dict_keys D)) (dict_keys D) ->
  dict_keys D = K0 ++ map (fun jb => file_name (fst jb)) (enumerate_from 0 bufs) ->
  (forall name, In name K0 -> fullmatch prefix digits_pattern ext name = None) ->
  load_stream_from_dir self dir_ prefix None w = (Ok (map snd (expected 0 bufs)), w).
Proof.
  intros Hext HD Hperm Hkeys Hold. unfold load_stream_from_dir.
  erewrite bindIO_ok by (unfold lift; rewrite Hext; reflexivity).
  erewrite bindIO_ok by (unfold os_listdir; rewrite HD; reflexivity).
  set (g := fun name : string =>
              match fullmatch prefix digits_pattern ext name with
              | Some k => [(k, Path dir_ name)]
              | None => []
              end).
  set (h := fun jb : N * buffer =>
              (index_text ndigits (fst jb), Path dir_ (file_name (fst jb)))).
  set (conv := fun kf : string * path =>
                 (match int_of_str (fst kf) with Ok n => n | Err _ => 0%N end, snd kf)).
  assert (Hfs : Permutation (flat_map g (w_listorder w (dict_keys D)))
                            (map h (enumerate_from 0 bufs))).
  { rewrite (Permutation_flat_map g Hperm), Hkeys, flat_map_app.
    rewrite flat_map_nothing
      by (intros name Hin; unfold g; now rewrite (Hold name Hin)).
    rewrite flat_map_of_map. simpl.
    rewrite (@flat_map_one _ _ _ h); [reflexivity|].
    intros jb _. unfold g, h. now rewrite file_name_match. }
  assert (Hconv : forall jb : N * buffer,
             conv (h jb) = (fst jb, Path dir_ (file_name (fst jb)))).
  { intros jb. unfold conv, h. cbn [fst snd]. now rewrite index_text_int. }
  erewrite bindIO_ok.
  2:{ unfold lift. rewrite (@map_result_all _ _ _ conv); [reflexivity|].
      intros kf Hin. apply (Permutation_in _ Hfs) in Hin.
      apply in_map_iff in Hin as [jb [<- _]].
      rewrite Hconv. unfold h. cbn [fst snd]. now rewrite index_text_int. }
  unfold ret. f_equal. f_equal. f_equal.
  apply sorted_by_key_of_permutation; [apply expected_sorted|].
  rewrite (Permutation_map conv Hfs), map_map. unfold expected.
  erewrite map_ext; [reflexivity|]. exact Hconv.
Qed.

End DirectoryStream.

(** A world with an empty working directory whose [os.listdir] reports the
    names in reverse. *)
Definition reversing_world : world := mkWorld [("", [])] [] (@rev string) utf_8.


(* ------------------------------------------------------------------ *)
(** ** A stream of objects in the lines of a file *)

(** The text of a file of lines: each line and its newline. *)
Definition lines_text (ls : list ustring) : ustring :=
  List.concat (map (fun l => l ++ [newline]) ls).

Lemma overwrite_end {A : Type} (old d : list A) :
  overwrite old (List.length old) d = old ++ d.
Proof.
  unfold overwrite. rewrite firstn_all, skipn_all2 by lia. now rewrite app_nil_r.
Qed.

Lemma rstrip_newline_line (l : ustring) :
  ~ In newline l -> rstrip_newline (l ++ [newline]) = l.
Proof.
  induction l as [|c l IH]; intros H.
  - reflexivity.
  - cbn [app rstrip_newline]. rewrite IH by (intros Hin; apply H; now right).
    destruct l as [|c' l']; [|reflexivity].
    destruct (N.eqb_spec c newline) as [->|]; [exfalso; apply H; now left|reflexivity].
Qed.

Lemma split_lines_line (l : ustring) (rest : ustring) :
  ~ In newline l ->
  split_lines ((l ++ [newline]) ++ rest) = (l ++ [newline]) :: split_lines rest.
Proof.
  induction l as [|c l IH]; intros H.
  - reflexivity.
  - cbn [app split_lines].
    destruct (N.eqb_spec c newline) as [->|_]; [exfalso; apply H; now left|].
    cbn [app] in IH. now rewrite IH by (intros Hin; apply H; now right).
Qed.

Lemma split_lines_text (ls : list ustring) :
  Forall (fun l => ~ In newline l) ls ->
  split_lines (lines_text ls) = map (fun l => l ++ [newline]) ls.
Proof.
  unfold lines_text. induction 1 as [|l ls Hl _ IH]; [reflexivity|].
  cbn [map List.concat]. now rewrite split_lines_line, IH.
Qed.

Section LineFile.
Variable lib : Lib.
Variable self : FlexiblePersist.

(** [l] is the line of [x]: what [to_line] returns for it, without a
    newline in it, from which [from_line] returns [x]. *)
Definition line_of (x : value) (l : ustring) : Prop :=
  call1 lib (to_line self) x = Ok (VStr l)
  /\ ~ In newline l
  /\ call1 lib (from_line self) (VStr l) = Ok x.

Lemma lines_without_newline (xs : list value) (ls : list ustring) :
  Forall2 line_of xs ls -> Forall (fun l => ~ In newline l) ls.
Proof. induction 1 as [|x l xs ls (_ & Hn & _) _ IH]; constructor; assumption. Qed.

Lemma decode_all (xs : list value) (ls : list ustring) :
  Forall2 line_of xs ls ->
  decode_lines lib (from_line self) (map (fun l => l ++ [newline]) ls) None
  = (Ok xs, true).
Proof.
  induction 1 as [|x l xs ls (_ & Hn & Hd) _ IH]; [reflexivity|].
  cbn [map decode_lines option_map]. rewrite rstrip_newline_line, Hd, IH by assumption.
  reflexivity.
Qed.

(** The world while the text file [q], opened for writing as the last file
    object, holds [acc]. *)
Definition writing (w : world) (dirs : dict (dict buffer)) (q : path) (acc : ustring)
  : world :=
  mkWorld dirs
          (w_handles w
           ++ [mkHandle q (mkStream (TextBuf acc) (List.length acc) false true) false])
          (w_listorder w) (w_locale w).

Lemma io_write_text (w : world) (dirs : dict (dict buffer)) (q : path) (acc l : ustring) :
  io_write (List.length (w_handles w)) (VStr l) (writing w dirs q acc)
  = (Ok tt, writing w dirs q (acc ++ l)).
Proof.
  unfold io_write, with_stream, writing. cbn [w_handles]. rewrite nth_error_last.
  cbn [h_closed h_stream h_path]. unfold stream_write.
  cbn [s_writable s_readable s_buf s_pos negb bind].
  unfold set_handles. cbn [w_handles w_dirs w_listorder w_locale].
  now rewrite list_update_last, overwrite_end, length_app.
Qed.

Lemma write_lines (w : world) (dirs : dict (dict buffer)) (q : path)
    (xs : list value) (ls : list ustring) :
  Forall2 line_of xs ls ->
  forall acc,
    for_each xs
      (fun x =>
         line <~ lift (call1 lib (to_line self) x) ;;
         _ <~ io_write (List.length (w_handles w)) line ;;
         io_write (List.length (w_handles w)) (VStr [newline]))
      (writing w dirs q acc)
    = (Ok tt, writing w dirs q (acc ++ lines_text ls)).
Proof.
  induction 1 as [|x l xs ls (He & _ & _) _ IH]; intros acc.
  - unfold lines_text. simpl. now rewrite app_nil_r.
  - cbn [for_each]. erewrite bindIO_ok.
    + rewrite IH. unfold lines_text. cbn [map List.concat].
      now rewrite !app_assoc.
    + erewrite bindIO_ok by (unfold lift; rewrite He; reflexivity).
      erewrite bindIO_ok by apply io_write_text.
      rewrite io_write_text. now rewrite <- app_assoc.
Qed.

End LineFile.


(* ------------------------------------------------------------------ *)
(** ** What the text encoding of a facade is used for *)

(** X13: without [always_use_text_encoding], the text encoding of a facade
    is used by its line functions only.  A facade built with a text encoding
    has the stream functions, the string functions, the mode and the
    extension of the facade built without it from the same registry, and
    its [to_line] and [from_line] are the string functions of the pipeline
    compiled with the text encoding. *)
Theorem text_encoding_is_for_lines_only (S : string) (C : option string) (t : string)
    (reg : IORegistry) (cache cache' : pipeline_cache) (fp : FlexiblePersist) :
  FlexiblePersist_init S C (Some t) None None None None false reg cache = (Ok fp, cache') ->
  exists fp0 cache0 q,
    FlexiblePersist_init S C None None None None None false reg cache = (Ok fp0, cache0)
    /\ _dump fp = _dump fp0 /\ _load fp = _load fp0
    /\ dumps fp = dumps fp0 /\ loads fp = loads fp0
    /\ _mode fp = _mode fp0
    /\ extension fp = extension fp0
    /\ compile_pipeline reg cache0 S C (Some t) None None None None = (Ok q, cache')
    /\ to_line fp = to_str q /\ from_line fp = from_str q.
Proof.
  unfold FlexiblePersist_init.
  destruct (compile_pipeline reg cache S C None None None None None) as [[p|e] c1];
    [|discriminate].
  destruct (compile_pipeline reg c1 S C (Some t) None None None None) as [[q|e] c2] eqn:E2;
    [|discriminate].
  intros H.
  assert (Hfp : fp = mkFlexiblePersist reg S C (Some t) (file_mode p) false
                       (to_file p) (from_file p) (to_str p) (from_str p)
                       (to_str q) (from_str q)
                       (is_not_None (to_str q) || is_not_None (from_str q)))
    by congruence.
  assert (Hc : c2 = cache') by congruence.
  subst fp c2.
  destruct (negb (String.eqb (file_mode p) "")); do 3 eexists;
    (split; [reflexivity|]); repeat split; exact E2.
Qed.

Lemma text_encoding_is_for_lines_only_witness :
  exists fp cache fp0 cache0,
    FlexiblePersist_init "plain" None (Some "latin") None None None None false
      sample_registry [] = (Ok fp, cache)
    /\ FlexiblePersist_init "plain" None None None None None None false
         sample_registry [] = (Ok fp0, cache0)
    /\ dumps fp = dumps fp0 /\ _dump fp = _dump fp0 /\ extension fp = extension fp0.
Proof.
  destruct (@FlexiblePersist_init_returns "plain" None (Some "latin") false
              sample_registry eq_refl) as [fp [cache E]].
  destruct (@text_encoding_is_for_lines_only _ _ _ _ _ _ _ E)
    as (fp0 & cache0 & q & H0 & H1 & _ & H2 & _ & _ & H3 & _).
  exists fp, cache, fp0, cache0. repeat split; assumption.
Defined.

(* ------------------------------------------------------------------ *)
(** ** What a file written through a buffered pipeline holds *)

(** Every memoized pipeline was compiled from some state of a registry. *)
Definition cache_compiled (c : pipeline_cache) : Prop :=
  forall S C T p, In ((S, C, T), p) c ->
    exists r0, compile_pipeline_body r0 S C T = Ok p.

Lemma reachable_cache_compiled (cls : IORegistryClass) (enc : CharCodec) (s : state) :
  reachable cls enc s -> cache_compiled (snd s).
Proof.
  induction 1 as [|s s' _ IH Hstep]; [intros S C T p []|].
  destruct Hstep as [| | |r c c' S C T k1 k2 k3 k4 res H]; simpl in *; try exact IH.
  apply compile_pipeline_cache in H as [->|(p & Hb & _ & ->)]; [exact IH|].
  intros S' C' T' p' [Hin|Hin]; [|now apply IH].
  inversion Hin; subst. eauto.
Qed.

Lemma compile_pipeline_compiled (r : IORegistry) (c c' : pipeline_cache) (S : string)
    (C T : option string) (k1 k2 k3 k4 : kwargs) (p : compiled) :
  cache_compiled c ->
  compile_pipeline r c S C T k1 k2 k3 k4 = (Ok p, c') ->
  exists r0, compile_pipeline_body r0 S C T = Ok p.
Proof.
  intros Hc. unfold compile_pipeline.
  destruct k1, k2, k3, k4; try discriminate.
  destruct (cache_get c (S, C, T)) as [q|] eqn:Hg.
  - intros H. assert (q = p) by congruence. subst q.
    apply cache_get_In in Hg. eauto.
  - destruct (compile_pipeline_body r S C T) as [q|e] eqn:Hb; [|discriminate].
    intros H. assert (q = p) by congruence. subst q. eauto.
Qed.

(** With a compression or a text encoding the stream functions are the
    wrappers of the string functions. *)
Lemma buffered_stream_functions (r : IORegistry) (S : string) (C T : option string)
    (p : compiled) :
  compile_pipeline_body r S C T = Ok p ->
  is_None C && is_None T = false ->
  to_file p = StreamSerializer (to_str p) /\ from_file p = StreamDeserializer (from_str p).
Proof.
  intros Hc Hn. rewrite compile_pipeline_body_eq in Hc.
  destruct (is_binary_serialization r S) as [binary|]; cbn [bind] in Hc; [|discriminate].
  destruct ((if binary then get_serializer_pairs else get_text_serializer_pairs) r S)
    as [[[[ser deser] fser] fdeser]|]; cbn [bind] in Hc; [|discriminate].
  destruct (lookup_opt (get_compressor_pair r) C) as [comp|] eqn:HC; cbn [bind] in Hc;
    [|discriminate].
  destruct (lookup_opt (get_text_encoder_pair r) T) as [enc|] eqn:HT; cbn [bind] in Hc;
    [|discriminate].
  assert (Hp : assemble r binary (ser, deser, fser, fdeser) comp enc = p) by congruence.
  subst p.
  destruct C as [c|], T as [t|]; try discriminate Hn; cbn [lookup_opt] in HC, HT;
    repeat match goal with
           | H : bind ?m _ = Ok _ |- _ => destruct m; cbn [bind] in H; [|discriminate H]
           end;
    repeat match goal with
           | H : Ok _ = Ok _ |- _ => inversion H; subst; clear H
           end;
    split; reflexivity.
Qed.

(** The content of a file that holds [y], in a file of the given mode, and
    what [read] returns for a content. *)
Definition buffer_of (binary : bool) (y : value) : option buffer :=
  match y, binary with
  | VBytes b, true => Some (BytesBuf b)
  | VStr s, false => Some (TextBuf s)
  | _, _ => None
  end.

Definition value_of (b : buffer) : value :=
  match b with BytesBuf x => VBytes x | TextBuf s => VStr s end.


Lemma returned_ok {A : Type} (default : A) (m : result A) :
  is_ok m = true -> m = Ok (returned default m).
Proof. destruct m; simpl; [reflexivity|discriminate]. Qed.

(** The sample registry is a fresh registry after six registrations. *)
Lemma sample_registry_reachable :
  reachable (IORegistry_class false) DEFAULT_TEXT_ENCODING (sample_registry, []).
Proof.
  unfold sample_registry. cbv zeta.
  eapply reachable_step;
    [|eapply step_register_text_encoder; apply returned_ok; vm_compute; reflexivity].
  eapply reachable_step;
    [|eapply step_register_text_encoder; apply returned_ok; vm_compute; reflexivity].
  eapply reachable_step;
    [|eapply step_register_text_encoder; apply returned_ok; vm_compute; reflexivity].
  eapply reachable_step;
    [|eapply step_register_compressor; apply returned_ok; vm_compute; reflexivity].
  eapply reachable_step;
    [|eapply step_register_serializer; apply returned_ok; vm_compute; reflexivity].
  eapply reachable_step;
    [|eapply step_register_serializer; apply returned_ok; vm_compute; reflexivity].
  apply reachable_init.
Qed.


(* ------------------------------------------------------------------ *)
(** ** Adding the extension *)

Lemma lstrip_app (c : ascii) (n e : string) :
  lstrip c n <> "" -> lstrip c (n ++ e) = (lstrip c n ++ e)%string.
Proof.
  induction n as [|a n IH]; simpl; [congruence|].
  destruct (Ascii.eqb a c); [exact IH|reflexivity].
Qed.

Lemma rsplit_slash_none (s : string) :
  contains_char slash s = false -> rsplit_slash s = None.
Proof.
  induction s as [|a s IH]; [reflexivity|]. cbn [contains_char rsplit_slash].
  intros H. apply orb_false_elim in H as [Ha Hs]. now rewrite (IH Hs), Ha.
Qed.

Lemma rsplit_slash_app (n e : string) :
  contains_char slash e = false ->
  rsplit_slash (n ++ e)
  = match rsplit_slash n with
    | Some (h, t) => Some (h, (t ++ e)%string)
    | None => None
    end.
Proof.
  intros He. induction n as [|a n IH]; cbn [append rsplit_slash].
  - now apply rsplit_slash_none.
  - rewrite IH. destruct (rsplit_slash n) as [[h t]|]; [reflexivity|].
    destruct (Ascii.eqb a slash); [|reflexivity].
    f_equal.
Qed.

Lemma basename_app (n e : string) :
  contains_char slash e = false -> basename (n ++ e) = (basename n ++ e)%string.
Proof.
  intros He. unfold basename. rewrite rsplit_slash_app by exact He.
  now destruct (rsplit_slash n) as [[h t]|].
Qed.

(** X15: the extension is added once.  When the last component of the name
    has a character other than a dot and the extension has a dot and no
    separator in it, adding the extension to a path that went through
    [_maybe_add_extension] changes nothing; so the name [dump] wrote to can
    be given back to [dump] and [load] as it is. *)
Theorem extension_is_added_once (lib : Lib) (self : FlexiblePersist) (d n e : string) :
  extension self = Ok e ->
  contains_char dot e = true ->
  contains_char slash e = false ->
  lstrip dot (basename n) <> "" ->
  let q := _maybe_add_extension (Path d n) e in
  _maybe_add_extension q e = q
  /\ (forall obj w, dump lib self obj (TPath q) true w
                    = dump lib self obj (TPath (Path d n)) true w)
  /\ (forall w, load lib self (TPath q) true w = load lib self (TPath (Path d n)) true w).
Proof.
  intros He Hdot Hslash Hn q.
  assert (Hq : _maybe_add_extension q e = q).
  { unfold q, _maybe_add_extension.
    destruct (contains_char dot (lstrip dot (basename n))) eqn:Hc; [now rewrite Hc|].
    now rewrite basename_app, lstrip_app, contains_char_app, Hdot, orb_true_r
      by assumption. }
  split; [exact Hq|]. split.
  - intros obj w. unfold dump, bindIO. rewrite !auto_path_target. unfold target_path.
    rewrite He. cbn [bind]. now rewrite Hq.
  - intros w. unfold load, bindIO. rewrite !auto_path_target. unfold target_path.
    rewrite He. cbn [bind]. now rewrite Hq.
Qed.

Lemma extension_is_added_once_witness :
  exists fp cache,
    FlexiblePersist_init "json" None None None None None None false
      (DefaultIORegistry false) [] = (Ok fp, cache)
    /\ _maybe_add_extension (Path "" "out") ".json" = Path "" "out.json"
    /\ _maybe_add_extension (Path "" "out.json") ".json" = Path "" "out.json"
    /\ forall w, load no_lib fp (TPath (Path "" "out.json")) true w
                 = load no_lib fp (TPath (Path "" "out")) true w.
Proof.
  destruct (@FlexiblePersist_init_returns "json" None None false
              (DefaultIORegistry false) eq_refl) as [fp [cache E]].
  exists fp, cache. split; [exact E|]. split; [reflexivity|].
  pose proof (FlexiblePersist_init_fields _ _ _ _ _ _ _ _ _ _ E) as (Hr & HS & HC & HT & Ha).
  assert (Hx : extension fp = Ok ".json").
  { unfold extension, _get_extension. rewrite Hr, HS, HC, Ha. reflexivity. }
  destruct (@extension_is_added_once no_lib fp "" "out" ".json" Hx eq_refl eq_refl
              ltac:(intros H; discriminate H)) as (H1 & _ & H2).
  split; [exact H1|exact H2].
Defined.

(* ------------------------------------------------------------------ *)
(** ** The two getters of single functions *)

(** [get_serializer] and [get_deserializer]: the tables both of them read
    are the class-level [_dumpers] and [_file_dumpers], which an instance
    has as the parents of its [dumpers] and [file_dumpers]. *)
Definition get_serializer (self : IORegistry) (serialization : string) (string_ : bool)
  : result pyobj :=
  let registry := if string_ then parent (fns self dumpers)
                  else parent (fns self file_dumpers) in
  _get_lambda serialization registry "serialization".

Definition get_deserializer (self : IORegistry) (serialization : string) (string_ : bool)
  : result pyobj :=
  let registry := if string_ then parent (fns self dumpers)
                  else parent (fns self file_dumpers) in
  _get_lambda serialization registry "serialization".

Lemma step_same_parents (s s' : state) : step s s' -> same_parents (fst s) (fst s').
Proof.
  intros Hstep. destruct Hstep as [r r' c name extension f g H
                                  |r r' c name extension f g binary H
                                  |r r' c name extension f g h k binary H
                                  |]; simpl.
  - now apply (register_compressor_spec r name f g extension).
  - now apply (register_text_encoder_spec r name extension f g binary).
  - now apply (register_serializer_spec r name extension f g h k binary).
  - apply same_parents_refl.
Qed.

Lemma reachable_parents (cls : IORegistryClass) (enc : CharCodec) (s : state) :
  reachable cls enc s -> forall a, parent (fns (fst s) a) = cls_fns cls a.
Proof.
  induction 1 as [|s s' _ IH Hstep]; [reflexivity|].
  intros a. apply step_same_parents in Hstep as [Hf _]. now rewrite Hf.
Qed.

(** X16: the getters of single functions know the class-level binary
    serializers only.  On a registry built up from a fresh one, whatever
    has been registered, [get_serializer] answers from the class table of
    the dump functions ([_dumpers] for [string=True], [_file_dumpers]
    otherwise) and raises the [ValueError] of a missing key for every other
    name, a text serializer or a serializer registered on the instance
    included; [get_deserializer] returns the same dump function. *)
Theorem single_function_getters_read_class_dumpers (cls : IORegistryClass)
    (enc : CharCodec) (self : IORegistry) (cache : pipeline_cache)
    (name : string) (string_ : bool) :
  reachable cls enc (self, cache) ->
  let table := cls_fns cls (if string_ then dumpers else file_dumpers) in
  get_serializer self name string_
  = match dict_get table name with
    | Some f => Ok f
    | None => Err (ValueError_must_be_one_of "serialization" (dict_keys table) name)
    end
  /\ get_deserializer self name string_ = get_serializer self name string_.
Proof.
  intros Hreach table. split; [|reflexivity].
  unfold get_serializer, _get_lambda, table. cbn [mget mkeys dict_Mapping].
  pose proof (reachable_parents Hreach) as Hp. simpl in Hp.
  destruct string_; now rewrite Hp.
Qed.

(** On the sample registry: the deserializer asked for is the dump function
    of pickle; "json" and the registered "raw" are not found. *)
Lemma single_function_getters_read_class_dumpers_witness :
  get_deserializer sample_registry "pickle" true = Ok (Builtin "pickle.dumps")
  /\ get_serializer sample_registry "json" true
     = Err (ValueError_must_be_one_of "serialization" ["pickle"; "msgpack"] "json")
  /\ get_serializer sample_registry "raw" false
     = Err (ValueError_must_be_one_of "serialization" ["pickle"; "msgpack"] "raw")
  /\ is_binary_serialization sample_registry "raw" = Ok true.
Proof.
  destruct (@single_function_getters_read_class_dumpers _ _ _ _ "pickle" true
              sample_registry_reachable) as [H1 H1'].
  destruct (@single_function_getters_read_class_dumpers _ _ _ _ "json" true
              sample_registry_reachable) as [H2 _].
  destruct (@single_function_getters_read_class_dumpers _ _ _ _ "raw" false
              sample_registry_reachable) as [H3 _].
  rewrite H1', H1, H2, H3. repeat split.
Defined.

(* ------------------------------------------------------------------ *)
(** ** Keyed streams in the lines of a file *)

Definition ulbrace : N := 123%N.
Definition urbrace : N := 125%N.

(** [template.format(args)] on a str of code points, as [str_format]: the
    automatic field [{}] and the doubled braces. *)
Fixpoint ustr_format (t : ustring) (args : list ustring) : result (ustring * list ustring) :=
  match t with
  | [] => Ok ([], args)
  | a :: t' =>
      if (a =? ulbrace)%N then
        match t' with
        | b :: t'' =>
            if (b =? ulbrace)%N then
              r <- ustr_format t'' args ;; Ok (ulbrace :: fst r, snd r)
            else if (b =? urbrace)%N then
              match args with
              | x :: args' => r <- ustr_format t'' args' ;; Ok (x ++ fst r, snd r)
              | [] => Err IndexError_format
              end
            else Err (Raised "str.format")
        | [] => Err ValueError_format
        end
      else if (a =? urbrace)%N then
        match t' with
        | b :: t'' =>
            if (b =? urbrace)%N then
              r <- ustr_format t'' args ;; Ok (urbrace :: fst r, snd r)
            else Err ValueError_format
        | [] => Err ValueError_format
        end
      else r <- ustr_format t' args ;; Ok (a :: fst r, snd r)
  end.

(** An argument of [format] under [{}]: a str goes in as it is; the text of
    other objects is not modelled. *)
Definition format_arg (v : value) : result ustring :=
  match v with
  | VStr s => Ok s
  | _ => Err (Raised "format of an object that is not a str")
  end.

Fixpoint ustr_startswith (p s : ustring) : bool :=
  match p, s with
  | [], _ => true
  | a :: p', b :: s' => (a =? b)%N && ustr_startswith p' s'
  | _ :: _, [] => false
  end.

(** [line.index(sep)]: where [sep] occurs first; [None] is the
    [ValueError]. *)
Fixpoint ustr_index (sep line : ustring) : option nat :=
  if ustr_startswith sep line then Some 0
  else match line with
       | [] => None
       | _ :: line' => option_map S (ustr_index sep line')
       end.

Section KeyedFiles.
Variable lib : Lib.

Definition dump_keyed_stream_to_file (self : FlexiblePersist)
    (iterable : list (ustring * value)) (file : target) (encode_keys : bool)
    (sep : ustring) (auto_extension : bool) : IO unit :=
  let encode := to_line self in
  let template := [ulbrace; urbrace] ++ sep ++ [ulbrace; urbrace; newline] in
  fc <~ text_target self file auto_extension true ;;
  let '(file, close) := fc in
  _ <~ for_each iterable
         (fun kv =>
            line <~ lift (k <- (if encode_keys
                                then e <- call1 lib encode (VStr (fst kv)) ;; format_arg e
                                else Ok (fst kv)) ;;
                          e <- call1 lib encode (snd kv) ;;
                          v <- format_arg e ;;
                          r <- ustr_format template [k; v] ;;
                          Ok (fst r)) ;;
            io_write file (VStr line)) ;;
  if close then io_close file else ret tt.

(** [read_items] and the loop over it: the line is cut at the first [sep],
    and the value starts one character after the cut. *)
Fixpoint decode_keyed_lines (decode : pyobj) (decode_keys : bool) (sep : ustring)
    (lines : list ustring) (pulls : option nat) : result (list (value * value)) * bool :=
  match lines, pulls with
  | _, Some O => (Ok [], false)
  | [], _ => (Ok [], true)
  | l :: lines', _ =>
      let line := rstrip_newline l in
      match (match ustr_index sep line with
             | None => Err ValueError_substring_not_found
             | Some ix =>
                 let k := firstn ix line in
                 let v := skipn (ix + 1) line in
                 k' <- (if decode_keys then call1 lib decode (VStr k) else Ok (VStr k)) ;;
                 v' <- call1 lib decode (VStr v) ;;
                 Ok (k', v')
             end) with
      | Err e => (Err e, false)
      | Ok kv =>
          let '(r, finished) :=
            decode_keyed_lines decode decode_keys sep lines' (option_map Nat.pred pulls) in
          (match r with Ok kvs => Ok (kv :: kvs) | Err e => Err e end, finished)
      end
  end.

(** [load_keyed_stream_from_file], a generator as [load_stream_from_file]
    is. *)
Definition load_keyed_stream_from_file (self : FlexiblePersist) (file : target)
    (decode_keys : bool) (sep : ustring) (auto_extension : bool) (pulls : option nat)
  : IO (list (value * value)) :=
  match pulls with
  | Some O => ret []
  | _ =>
      let decode := from_line self in
      fc <~ text_target self file auto_extension false ;;
      let '(file, close) := fc in
      content <~ with_stream file stream_read ;;
      lines <~ lift (match content with
                     | VStr s => Ok (split_lines s)
                     | VBytes [] => Ok []
                     | _ => Err (TypeError_call "a bytes-like object is required, not 'str'")
                     end) ;;
      let '(r, finished) := decode_keyed_lines decode decode_keys sep lines pulls in
      kvs <~ lift r ;;
      if finished && close then _ <~ io_close file ;; ret kvs else ret kvs
  end.

End KeyedFiles.

(** A str without braces. *)
Definition ubrace_free (t : ustring) : Prop := ~ In ulbrace t /\ ~ In urbrace t.

Lemma ustr_format_brace_free (t : ustring) (args : list ustring) :
  ubrace_free t -> ustr_format t args = Ok (t, args).
Proof.
  induction t as [|a t IH]; intros [Hl Hr]; [reflexivity|].
  cbn [ustr_format].
  destruct (N.eqb_spec a ulbrace) as [->|_]; [exfalso; apply Hl; now left|].
  destruct (N.eqb_spec a urbrace) as [->|_]; [exfalso; apply Hr; now left|].
  rewrite IH; [reflexivity|]. split; intros Hin; [apply Hl|apply Hr]; now right.
Qed.

Lemma keyed_line_format (sep k v : ustring) :
  ubrace_free sep ->
  ustr_format ([ulbrace; urbrace] ++ sep ++ [ulbrace; urbrace; newline]) [k; v]
  = Ok (k ++ sep ++ v ++ [newline], []).
Proof.
  intros Hs. cbn [app ustr_format]. cbv [N.eqb ulbrace urbrace Pos.eqb]. cbn [bind].
  assert (H : forall s, ubrace_free s ->
                ustr_format (s ++ [ulbrace; urbrace; newline]) [v]
                = Ok (s ++ v ++ [newline], [])).
  { clear. induction s as [|a s IH]; intros [Hl Hr].
    - reflexivity.
    - cbn [app ustr_format].
      destruct (N.eqb_spec a ulbrace) as [->|_]; [exfalso; apply Hl; now left|].
      destruct (N.eqb_spec a urbrace) as [->|_]; [exfalso; apply Hr; now left|].
      rewrite IH; [reflexivity|]. split; intros Hin; [apply Hl|apply Hr]; now right. }
  fold ulbrace urbrace. rewrite (H sep Hs). reflexivity.
Qed.

Lemma ustr_startswith_app (p s : ustring) : ustr_startswith p (p ++ s) = true.
Proof. induction p as [|a p IH]; simpl; [reflexivity|]. now rewrite N.eqb_refl. Qed.

Lemma ustr_index_after_key (c : N) (rest k l : ustring) :
  ~ In c k -> ustr_index (c :: rest) (k ++ c :: rest ++ l) = Some (List.length k).
Proof.
  induction k as [|a k IH]; intros H.
  - cbn [app List.length ustr_index ustr_startswith].
    now rewrite N.eqb_refl, ustr_startswith_app.
  - cbn [app List.length ustr_index ustr_startswith].
    destruct (N.eqb_spec c a) as [->|_]; [exfalso; apply H; now left|].
    cbn [andb]. rewrite IH by (intros Hin; apply H; now right). reflexivity.
Qed.
(** An item of a keyed stream with what becomes of it: its key and object,
    the line [to_line] returns for the object, and the object loaded. *)
Record keyed_item : Type := mkKeyedItem {
  ki_key : ustring;
  ki_value : value;
  ki_line : ustring;
  ki_loaded : value
}.

Section KeyedLineFile.
Variable lib : Lib.
Variable self : FlexiblePersist.
Variable c : N.
Variable rest : ustring.

(** The line written for an item, without its newline. *)
Definition keyed_line (it : keyed_item) : ustring :=
  ki_key it ++ (c :: rest) ++ ki_line it.

(** The key has neither the first character of the separator nor a newline
    in it; [to_line] returns the item's line, which has no newline in it;
    and [from_line] returns the object loaded from that line preceded by
    the separator less its first character. *)
Definition keyed_item_ok (it : keyed_item) : Prop :=
  ~ In c (ki_key it) /\ ~ In newline (ki_key it)
  /\ call1 lib (to_line self) (ki_value it) = Ok (VStr (ki_line it))
  /\ ~ In newline (ki_line it)
  /\ call1 lib (from_line self) (VStr (rest ++ ki_line it)) = Ok (ki_loaded it).

Hypothesis sep_braces : ubrace_free (c :: rest).
Hypothesis sep_newline : ~ In newline (c :: rest).

Lemma keyed_line_no_newline (it : keyed_item) :
  keyed_item_ok it -> ~ In newline (keyed_line it).
Proof.
  intros (_ & Hk & _ & Hl & _) Hin. unfold keyed_line in Hin.
  apply in_app_or in Hin as [Hin|Hin]; [now apply Hk|].
  apply in_app_or in Hin as [Hin|Hin]; [now apply sep_newline|now apply Hl].
Qed.

Lemma write_keyed_lines (w : world) (dirs : dict (dict buffer)) (q : path)
    (its : list keyed_item) :
  Forall keyed_item_ok its ->
  forall acc,
    for_each (map (fun it => (ki_key it, ki_value it)) its)
      (fun kv =>
         line <~ lift (k <- Ok (fst kv) ;;
                       e <- call1 lib (to_line self) (snd kv) ;;
                       v <- format_arg e ;;
                       r <- ustr_format ([ulbrace; urbrace] ++ (c :: rest)
                                         ++ [ulbrace; urbrace; newline]) [k; v] ;;
                       Ok (fst r)) ;;
         io_write (List.length (w_handles w)) (VStr line))
      (writing w dirs q acc)
    = (Ok tt, writing w dirs q (acc ++ lines_text (map keyed_line its))).
Proof.
  induction 1 as [|it its (_ & _ & He & _ & _) _ IH]; intros acc.
  - unfold lines_text. simpl. now rewrite app_nil_r.
  - cbn [map for_each fst snd]. erewrite bindIO_ok.
    + rewrite IH. unfold lines_text. cbn [map List.concat].
      now rewrite !app_assoc.
    + erewrite bindIO_ok.
      2:{ unfold lift. cbn [bind]. rewrite He. cbn [bind format_arg].
          rewrite keyed_line_format by exact sep_braces. reflexivity. }
      cbn [fst]. rewrite io_write_text. unfold keyed_line.
      now rewrite <- !app_assoc.
Qed.

Lemma decode_keyed_all (its : list keyed_item) :
  Forall keyed_item_ok its ->
  decode_keyed_lines lib (from_line self) false (c :: rest)
    (map (fun l => l ++ [newline]) (map keyed_line its)) None
  = (Ok (map (fun it => (VStr (ki_key it), ki_loaded it)) its), true).
Proof.
  induction 1 as [|it its Hit _ IH]; [reflexivity|].
  pose proof (keyed_line_no_newline Hit) as Hnl.
  destruct Hit as (Hc & _ & _ & _ & Hd).
  cbn [map decode_keyed_lines option_map]. rewrite (@rstrip_newline_line _ Hnl), IH.
  unfold keyed_line. cbn [app]. rewrite ustr_index_after_key by exact Hc.
  cbv zeta.
  rewrite firstn_app, firstn_all, Nat.sub_diag. cbn [firstn]. rewrite app_nil_r.
  rewrite skipn_app, skipn_all2 by lia.
  replace (List.length (ki_key it) + 1 - List.length (ki_key it)) with 1 by lia.
  cbn [skipn app bind]. rewrite Hd. reflexivity.
Qed.

End KeyedLineFile.


(* ------------------------------------------------------------------ *)
(** ** Keyed streams in a directory *)

Section KeyedDirs.
Variable lib : Lib.

(** [dump_keyed_stream_to_dir] *)
Definition dump_keyed_stream_to_dir (self : FlexiblePersist)
    (iterable : list (string * value)) (dir_ prefix : string) : IO unit :=
  _dump_stream_to_dir lib self iterable dir_ prefix.

(** [load_keyed_stream_from_dir] with [key_type=None], that is
    [_load_stream_from_dir] with the pattern [.*], [sort=False] and
    [yield_keys=True]: the directory is listed when it is called, and what
    it returns is the generator of the keys with the objects loaded, kept
    here as the keys with the paths still to load, in the order of the
    listing. *)
Definition load_keyed_stream_from_dir (self : FlexiblePersist) (dir_ prefix : string)
    (ext : option string) : IO (list (string * path)) :=
  ext <~ lift (match ext with
               | None => extension self
               | Some e => Ok (dotted e)
               end) ;;
  names <~ os_listdir dir_ ;;
  ret (flat_map (fun name =>
                   match fullmatch prefix any_pattern ext name with
                   | Some k => [(k, Path dir_ name)]
                   | None => []
                   end) names).

(** [list(generator)]: every pending file is loaded, in order. *)
Fixpoint list_of_keyed_generator (self : FlexiblePersist) (pending : list (string * path))
  : IO (list (string * value)) :=
  match pending with
  | [] => ret []
  | kf :: pending' =>
      v <~ load lib self (TPath (snd kf)) false ;;
      kvs <~ list_of_keyed_generator self pending' ;;
      ret ((fst kf, v) :: kvs)
  end.

End KeyedDirs.

(** The directory after the named contents have been written. *)
Definition put_named (F : dict buffer) (nbs : list (string * buffer)) : dict buffer :=
  fold_left (fun F' nb => dict_set F' (fst nb) (snd nb)) nbs F.

Lemma put_named_other (nbs : list (string * buffer)) :
  forall (F : dict buffer) (n : string),
    ~ In n (map fst nbs) -> dict_get (put_named F nbs) n = dict_get F n.
Proof.
  unfold put_named. induction nbs as [|[n0 b0] nbs IH]; intros F n H; simpl; [reflexivity|].
  rewrite IH by (intros Hin; apply H; now right).
  apply dict_get_set_other. intros E. apply H. left. now symmetry.
Qed.

Lemma put_named_get (nbs : list (string * buffer)) :
  forall (F : dict buffer) (n : string) (b : buffer),
    NoDup (map fst nbs) -> In (n, b) nbs -> dict_get (put_named F nbs) n = Some b.
Proof.
  induction nbs as [|[n0 b0] nbs IH]; intros F n b Hnd; simpl; [intros []|].
  inversion Hnd as [|? ? Hn0 Hnd']; subst. intros [H|H].
  - inversion H; subst. unfold put_named. simpl. fold (put_named (dict_set F n b) nbs).
    rewrite put_named_other by assumption. apply dict_get_set_same.
  - unfold put_named. simpl. fold (put_named (dict_set F n0 b0) nbs). now apply IH.
Qed.

Lemma put_named_keys (nbs : list (string * buffer)) :
  forall (F : dict buffer),
    NoDup (map fst nbs) -> (forall n, In n (map fst nbs) -> ~ In n (dict_keys F)) ->
    dict_keys (put_named F nbs) = dict_keys F ++ map fst nbs.
Proof.
  induction nbs as [|[n0 b0] nbs IH]; intros F Hnd Hf; simpl; [now rewrite app_nil_r|].
  inversion Hnd as [|? ? Hn0 Hnd']; subst.
  unfold put_named. simpl. fold (put_named (dict_set F n0 b0) nbs).
  rewrite IH; [|exact Hnd'|].
  - rewrite dict_keys_set_fresh by (apply Hf; now left). now rewrite <- app_assoc.
  - intros n Hin. rewrite dict_keys_set_fresh by (apply Hf; now left).
    intros Hin'. apply in_app_or in Hin' as [Hin'|[->|[]]].
    + apply (Hf n); [now right|exact Hin'].
    + contradiction.
Qed.

(** An item of a keyed stream with the content of its file. *)
Record stored_item : Type := mkStoredItem {
  si_key : string;
  si_value : value;
  si_content : buffer
}.

Section KeyedDirectoryStream.
Variable lib : Lib.
Variable self : FlexiblePersist.
Variables dir_ prefix ext : string.

Hypothesis dir_braces : brace_free dir_ = true.
Hypothesis prefix_braces : brace_free prefix = true.
Hypothesis ext_braces : brace_free ext = true.
Hypothesis prefix_slash : contains_char slash prefix = false.
Hypothesis ext_slash : contains_char slash ext = false.
Hypothesis ext_nonempty : ext <> "".

(** The name of the file of the object under the key [k]. *)
Definition keyed_file_name (k : string) : string := (prefix ++ k ++ ext)%string.

Lemma keyed_file_name_match (k : string) :
  contains_char "010"%char k = false ->
  fullmatch prefix any_pattern ext (keyed_file_name k) = Some k.
Proof. intros Hk. apply fullmatch_name. unfold any_pattern. now rewrite Hk. Qed.

Lemma keyed_file_name_inj (k k' : string) :
  keyed_file_name k = keyed_file_name k' -> k = k'.
Proof.
  intros H.
  pose proof (@fullmatch_name prefix ext k (fun _ => true) eq_refl) as Hk.
  pose proof (@fullmatch_name prefix ext k' (fun _ => true) eq_refl) as Hk'.
  fold (keyed_file_name k) in Hk. fold (keyed_file_name k') in Hk'.
  rewrite H in Hk. congruence.
Qed.

Lemma keyed_file_name_no_slash (k : string) :
  contains_char slash k = false -> contains_char slash (keyed_file_name k) = false.
Proof.
  intros Hk. unfold keyed_file_name.
  now rewrite !contains_char_app, prefix_slash, ext_slash, Hk.
Qed.

Lemma keyed_file_name_nonempty (k : string) : keyed_file_name k <> "".
Proof. unfold keyed_file_name. now apply append_nonempty_r, append_nonempty_r. Qed.

Definition stored_name (t : stored_item) : string * buffer :=
  (keyed_file_name (si_key t), si_content t).

Lemma dump_keyed_loop (items : list (string * value)) :
  forall (w : world) (F : dict buffer),
    dict_get (w_dirs w) dir_ = Some F ->
    Forall (fun kv => contains_char slash (fst kv) = false
                      /\ file_round_trips lib self (w_locale w) (snd kv)) items ->
    exists w1 T,
      for_each items (dump_item lib self dir_ prefix ext) w = (Ok tt, w1)
      /\ map (fun t => (si_key t, si_value t)) T = items
      /\ Forall (fun t => loads_back lib self (si_value t) (si_content t)) T
      /\ dict_get (w_dirs w1) dir_ = Some (put_named F (map stored_name T))
      /\ w_listorder w1 = w_listorder w.
Proof.
  induction items as [|[k v] items IH]; intros w F HF Hall.
  - exists w, []. simpl. repeat split; auto.
  - inversion Hall as [|? ? (Hk & s & Hdump & _ & Hback) Hrest]; subst.
    cbn [fst snd] in *.
    destruct (IH (written w dir_ (keyed_file_name k) F s)
                 (dict_set F (keyed_file_name k) (s_buf s)))
      as (w1 & T & H1 & H2 & H3 & H4 & H5).
    + unfold written. cbn [w_dirs]. apply dict_get_set_same.
    + exact Hrest.
    + exists w1, (mkStoredItem k v (s_buf s) :: T). split; [|split; [|split; [|split]]].
      * cbn [for_each]. erewrite bindIO_ok; [exact H1|].
        unfold dump_item. cbn [fst snd].
        erewrite bindIO_ok
          by (unfold lift; rewrite path_format_template by assumption; reflexivity).
        apply write_file_spec;
          auto using keyed_file_name_no_slash, keyed_file_name_nonempty.
      * cbn [map si_key si_value]. now rewrite H2.
      * constructor; assumption.
      * exact H4.
      * exact H5.
Qed.

(** The stored item of a key. *)
Definition stored_of (T : list stored_item) (k : string) : option stored_item :=
  find (fun t => String.eqb (si_key t) k) T.

Lemma stored_of_In (T : list stored_item) (t : stored_item) :
  NoDup (map si_key T) -> In t T -> stored_of T (si_key t) = Some t.
Proof.
  unfold stored_of. induction T as [|t0 T IH]; intros Hnd; simpl; [intros []|].
  inversion Hnd as [|? ? Hn Hnd']; subst. intros [->|Hin].
  - now rewrite String.eqb_refl.
  - destruct (String.eqb_spec (si_key t0) (si_key t)) as [E|_]; [|now apply IH].
    exfalso. apply Hn. rewrite E. now apply in_map.
Qed.

Lemma load_keyed_all (T : list stored_item) (P : list stored_item) :
  Forall (fun t => loads_back lib self (si_value t) (si_content t)) T ->
  Forall (fun t => contains_char slash (si_key t) = false) T ->
  incl P T ->
  forall (w : world) (D : dict buffer),
    dict_get (w_dirs w) dir_ = Some D ->
    (forall t, In t T -> dict_get D (keyed_file_name (si_key t)) = Some (si_content t)) ->
    exists w',
      list_of_keyed_generator lib self
        (map (fun t => (si_key t, Path dir_ (keyed_file_name (si_key t)))) P) w
      = (Ok (map (fun t => (si_key t, si_value t)) P), w')
      /\ w_dirs w' = w_dirs w.
Proof.
  intros Hback Hslash. induction P as [|t P IH]; intros Hincl w D HD Hget.
  - exists w. split; reflexivity.
  - assert (Hin : In t T) by (apply Hincl; now left).
    rewrite Forall_forall in Hback, Hslash.
    destruct (Hback t Hin) as [Hk [s' Hload]].
    destruct (IH (fun x Hx => Hincl x (or_intror Hx))
                 (read_back w dir_ (keyed_file_name (si_key t)) s') D HD Hget)
      as (w' & H1 & H2).
    exists w'. split; [|exact H2].
    cbn [map list_of_keyed_generator fst snd]. erewrite bindIO_ok.
    + erewrite bindIO_ok; [reflexivity|exact H1].
    + unfold load, bindIO, auto_path, ret.
      eapply read_file_spec;
        eauto using keyed_file_name_no_slash, keyed_file_name_nonempty.
Qed.

(** The stored item a name of the listing belongs to, if any. *)
Definition item_of_name (T : list stored_item) (n : string) : list stored_item :=
  match find (fun t => String.eqb (keyed_file_name (si_key t)) n) T with
  | Some t => [t]
  | None => []
  end.

Lemma item_of_name_In (T : list stored_item) (t : stored_item) :
  NoDup (map si_key T) -> In t T ->
  item_of_name T (keyed_file_name (si_key t)) = [t].
Proof.
  unfold item_of_name. induction T as [|t0 T IH]; intros Hnd; simpl; [intros []|].
  inversion Hnd as [|? ? Hn Hnd']; subst. intros [->|Hin].
  - now rewrite String.eqb_refl.
  - destruct (String.eqb_spec (keyed_file_name (si_key t0)) (keyed_file_name (si_key t)))
      as [E|_]; [|now apply IH].
    exfalso. apply Hn. apply keyed_file_name_inj in E. rewrite E. now apply in_map.
Qed.

Lemma item_of_name_other (T : list stored_item) (n : string) :
  (forall t, In t T -> keyed_file_name (si_key t) <> n) -> item_of_name T n = [].
Proof.
  unfold item_of_name. induction T as [|t0 T IH]; intros H; simpl; [reflexivity|].
  destruct (String.eqb_spec (keyed_file_name (si_key t0)) n) as [E|_].
  - exfalso. apply (H t0); [now left|exact E].
  - apply IH. intros t Hin. apply H. now right.
Qed.

Lemma find_keyed_files (w : world) (D : dict buffer) (K0 : list string)
    (T : list stored_item) :
  extension self = Ok ext ->
  dict_get (w_dirs w) dir_ = Some D ->
  Permutation (w_listorder w (dict_keys D)) (dict_keys D) ->
  dict_keys D = K0 ++ map (fun t => keyed_file_name (si_key t)) T ->
  NoDup (map si_key T) ->
  Forall (fun t => contains_char "010"%char (si_key t) = false) T ->
  (forall name, In name K0 -> fullmatch prefix any_pattern ext name = None) ->
  exists P,
    load_keyed_stream_from_dir self dir_ prefix None w
    = (Ok (map (fun t => (si_key t, Path dir_ (keyed_file_name (si_key t)))) P), w)
    /\ Permutation P T.
Proof.
  intros Hext HD Hperm Hkeys Hnd Hnl Hold.
  rewrite Forall_forall in Hnl.
  assert (Hfresh : forall t n, In t T -> In n K0 -> keyed_file_name (si_key t) <> n).
  { intros t n Ht Hn E. apply Hold in Hn.
    rewrite <- E, keyed_file_name_match in Hn by now apply Hnl.
    discriminate Hn. }
  exists (flat_map (item_of_name T) (w_listorder w (dict_keys D))). split.
  - unfold load_keyed_stream_from_dir.
    erewrite bindIO_ok by (unfold lift; rewrite Hext; reflexivity).
    erewrite bindIO_ok by (unfold os_listdir; rewrite HD; reflexivity).
    unfold ret. f_equal. f_equal.
    assert (Hin : forall n, In n (w_listorder w (dict_keys D)) ->
                    In n (K0 ++ map (fun t => keyed_file_name (si_key t)) T)).
    { intros n Hn. rewrite <- Hkeys. eapply Permutation_in; eauto. }
    revert Hin. generalize (w_listorder w (dict_keys D)).
    intros L. induction L as [|n L IH]; intros Hin; [reflexivity|].
    cbn [flat_map]. rewrite map_app, IH by (intros x Hx; apply Hin; now right).
    f_equal. specialize (Hin n (or_introl eq_refl)).
    apply in_app_or in Hin as [Hn|Hn].
    + rewrite (Hold n Hn), item_of_name_other; [reflexivity|].
      intros t Ht. now apply Hfresh.
    + apply in_map_iff in Hn as [t [<- Ht]].
      rewrite keyed_file_name_match by now apply Hnl.
      now rewrite item_of_name_In.
  - rewrite (Permutation_flat_map (item_of_name T) Hperm), Hkeys, flat_map_app.
    rewrite flat_map_nothing.
    + rewrite flat_map_of_map. simpl.
      rewrite (@flat_map_one _ _ _ (fun t => t)); [now rewrite map_id|].
      intros t Ht. now apply item_of_name_In.
    + intros n Hn. apply item_of_name_other. intros t Ht. now apply Hfresh.
Qed.

End KeyedDirectoryStream.

Lemma NoDup_map_injective {A B : Type} (f : A -> B) (l : list A) :
  (forall x y, f x = f y -> x = y) -> NoDup l -> NoDup (map f l).
Proof.
  intros Hf. induction 1 as [|x l Hx _ IH]; simpl; constructor; [|exact IH].
  intros Hin. apply in_map_iff in Hin as [y [E Hy]]. apply Hf in E. now subst.
Qed.

